(** * AlarmGenie: the alarm lifecycle and dismissal engine

    A shallow embedding of the JavaScript services of the alarm application
    (AlarmStorage, NotificationService, MistralService) and of the handlers
    of DismissAlarmScreen, together with the properties of the
    specification that can be checked against them.

    Conventions of the embedding:
    - a JavaScript [Date] is its number of milliseconds since the epoch
      (a [Z]); local clock fields are computed with a fixed offset from
      UTC, so adding one calendar day adds 86400000 ms;
    - every [async] function is a computation in the monad [M], which
      threads the [World] (persistent store, platform scheduler, clock,
      random source) and may throw;
    - every call that leaves the program (AsyncStorage, expo-notifications)
      consults a fault script carried by the world, so that an operation
      can fail at any of its external calls;
    - the store holds typed values; [JSON.stringify]/[JSON.parse] are the
      identity and a key that was never written reads as the empty value,
      as the loaders of AlarmStorage make it;
    - a handler of the screen takes the component state and returns the
      new one; a handler that throws returns the world only. *)

From Stdlib Require Import ZArith QArith Qround String Ascii List Lia DecimalString.
From stdpp Require Import gmap strings list.

Open Scope Z_scope.

(** ** Dates *)

Module JSDate.

Definition msPerMinute : Z := 60000.
Definition msPerHour : Z := 3600000.
Definition msPerDay : Z := 86400000.

(** Local time is UTC shifted by [tz] minutes. *)
Definition localMs (tz d : Z) : Z := d + tz * msPerMinute.

Definition getHours (tz d : Z) : Z := (localMs tz d / msPerHour) mod 24.
Definition getMinutes (tz d : Z) : Z := (localMs tz d / msPerMinute) mod 60.

(** 1970-01-01 was a Thursday (day 4); Sunday is 0. *)
Definition getDay (tz d : Z) : Z := (localMs tz d / msPerDay + 4) mod 7.

(** [d.setDate(d.getDate() + 1)] *)
Definition addOneDay (d : Z) : Z := d + msPerDay.

End JSDate.

(** ** Data model *)

(** The identifier returned by [Notifications.scheduleNotificationAsync]:
    an opaque, non-empty string; the platform model numbers them in
    allocation order. As a non-empty string it is truthy. *)
Inductive NotificationId := Nid (n : nat).

Definition nid_num (h : NotificationId) : nat := match h with Nid n => n end.

Definition nid_eqb (a b : NotificationId) : bool := Nat.eqb (nid_num a) (nid_num b).

(** An alarm record of the ['@alarms'] array. [a_notificationId = None]
    stands for [null] and for the absent property. *)
Record Alarm := mkAlarm {
  a_id : string;
  a_time : Z;
  a_label : string;
  a_frequency : string;
  a_duration : Z;
  a_isActive : bool;
  a_notificationId : option NotificationId;
  a_createdAt : Z
}.

(** The data the create screen hands to [addAlarm]. *)
Record AlarmInput := mkAlarmInput {
  i_time : Z;
  i_label : string;
  i_frequency : string;
  i_duration : Z
}.

(** The [updates] object of [updateAlarm]: each property is present or
    absent, and a present [notificationId] may be [null]. *)
Record AlarmPatch := mkAlarmPatch {
  p_id : option string;
  p_time : option Z;
  p_label : option string;
  p_frequency : option string;
  p_duration : option Z;
  p_isActive : option bool;
  p_notificationId : option (option NotificationId);
  p_createdAt : option Z
}.

Definition emptyPatch : AlarmPatch :=
  mkAlarmPatch None None None None None None None None.

(** [{ ...alarm, ...updates }] *)
Definition spread (alarm : Alarm) (updates : AlarmPatch) : Alarm :=
  {| a_id := default (a_id alarm) (p_id updates);
     a_time := default (a_time alarm) (p_time updates);
     a_label := default (a_label alarm) (p_label updates);
     a_frequency := default (a_frequency alarm) (p_frequency updates);
     a_duration := default (a_duration alarm) (p_duration updates);
     a_isActive := default (a_isActive alarm) (p_isActive updates);
     a_notificationId := default (a_notificationId alarm) (p_notificationId updates);
     a_createdAt := default (a_createdAt alarm) (p_createdAt updates) |}.

(** A dismissal code object: what the generator returns ([c_createdAt] and
    [c_attempts] absent) and what ['@dismissal_codes'] stores per alarm. *)
Record CodeData := mkCodeData {
  c_code : string;
  c_timestamp : Z;
  c_expiresAt : Z;
  c_createdAt : option Z;
  c_attempts : option Z
}.

(** The trigger handed to the platform scheduler. *)
Inductive Trigger :=
| TDate (date : Z)
| TDaily (hour minute : Z)
| TWeekly (weekday hour minute : Z)
| TUndefined.

Record Request := mkRequest {
  r_alarmId : string;
  r_duration : Z;
  r_trigger : Trigger
}.

Inductive AlertKind :=
| AlertMaximumAttemptsExceeded
| AlertAlarmDismissed
| AlertTooManyFailedAttempts
| AlertIncorrectCode (remaining : Z)
| AlertAlarmTimeout
| AlertNewCodeGenerated
| AlertError.

Inductive StoredValue :=
| VAlarms (alarms : list Alarm)
| VCodes (codes : gmap string CodeData).

(** What the program does to the outside, in the order it does it. *)
Inductive Event :=
| EvSetItem (v : StoredValue)
| EvSchedule (h : NotificationId) (r : Request)
| EvCancel (h : NotificationId)
| EvAlert (a : AlertKind)
| EvNavigate (screen : string).

(** ** The world *)

Record World := mkWorld {
  alarmsItem : list Alarm;                         (* '@alarms' *)
  codesItem : gmap string CodeData;                (* '@dismissal_codes' *)
  scheduled : list (NotificationId * Request);     (* pending notifications *)
  nextId : nat;                                    (* identifiers handed out so far *)
  clock : Z;                                       (* Date.now() *)
  tz : Z;                                          (* minutes east of UTC *)
  android : bool;                                  (* Platform.OS === 'android' *)
  faults : list bool;                              (* true: the next external call fails *)
  rng : list Q;                                    (* the next values of Math.random() *)
  log : list Event
}.

Definition set_alarmsItem (v : list Alarm) (w : World) : World :=
  mkWorld v (codesItem w) (scheduled w) (nextId w) (clock w) (tz w) (android w)
          (faults w) (rng w) (log w).

Definition set_codesItem (v : gmap string CodeData) (w : World) : World :=
  mkWorld (alarmsItem w) v (scheduled w) (nextId w) (clock w) (tz w) (android w)
          (faults w) (rng w) (log w).

Definition set_scheduled (v : list (NotificationId * Request)) (n : nat) (w : World) : World :=
  mkWorld (alarmsItem w) (codesItem w) v n (clock w) (tz w) (android w)
          (faults w) (rng w) (log w).

Definition set_clock (v : Z) (w : World) : World :=
  mkWorld (alarmsItem w) (codesItem w) (scheduled w) (nextId w) v (tz w) (android w)
          (faults w) (rng w) (log w).

Definition set_faults (v : list bool) (w : World) : World :=
  mkWorld (alarmsItem w) (codesItem w) (scheduled w) (nextId w) (clock w) (tz w) (android w)
          v (rng w) (log w).

Definition set_rng (v : list Q) (w : World) : World :=
  mkWorld (alarmsItem w) (codesItem w) (scheduled w) (nextId w) (clock w) (tz w) (android w)
          (faults w) v (log w).

Definition emit (e : Event) (w : World) : World :=
  mkWorld (alarmsItem w) (codesItem w) (scheduled w) (nextId w) (clock w) (tz w) (android w)
          (faults w) (rng w) (log w ++ [e]).

(** ** The monad of asynchronous computations *)

Inductive Result (A : Type) :=
| Ok (a : A)
| Throw.

Arguments Ok {A} a.
Arguments Throw {A}.

Definition M (A : Type) : Type := World -> Result A * World.

Definition ret {A} (a : A) : M A := fun w => (Ok a, w).

Definition throw {A} : M A := fun w => (Throw, w).

Definition bind {A B} (m : M A) (k : A -> M B) : M B :=
  fun w =>
    match m w with
    | (Ok a, w') => k a w'
    | (Throw, w') => (Throw, w')
    end.

(** [try { m } catch (error) { handler }] *)
Definition try_catch {A} (m : M A) (handler : M A) : M A :=
  fun w =>
    match m w with
    | (Ok a, w') => (Ok a, w')
    | (Throw, w') => handler w'
    end.

Notation "'let!' x ':=' c1 'in' c2" := (bind c1 (fun x => c2))
  (at level 10, x name, c1 at level 100, c2 at level 200).

Definition get_world : M World := fun w => (Ok w, w).

Definition modify (f : World -> World) : M unit := fun w => (Ok tt, f w).

(** An external call consumes the head of the fault script and fails when it
    is [true]; an exhausted script lets every call succeed. *)
Definition external {A} (body : M A) : M A :=
  fun w =>
    let w' := set_faults (tl (faults w)) w in
    if hd false (faults w) then (Throw, w') else body w'.

Definition Date_now : M Z := fun w => (Ok (clock w), w).

(** [await new Promise(resolve => setTimeout(resolve, ms))] *)
Definition sleep (ms : Z) : M unit := modify (fun w => set_clock (clock w + ms) w).

(** [Math.random()]; an exhausted source returns 0. *)
Definition Math_random : M Q :=
  fun w =>
    match rng w with
    | [] => (Ok 0%Q, w)
    | r :: rs => (Ok r, set_rng rs w)
    end.

Definition Alert_alert (a : AlertKind) : M unit := modify (emit (EvAlert a)).

Definition navigate (screen : string) : M unit := modify (emit (EvNavigate screen)).

(** ** AsyncStorage *)

Module AsyncStorage.

Definition getItem_alarms : M (list Alarm) :=
  external (fun w => (Ok (alarmsItem w), w)).

Definition setItem_alarms (alarms : list Alarm) : M unit :=
  external (modify (fun w => emit (EvSetItem (VAlarms alarms)) (set_alarmsItem alarms w))).

Definition getItem_codes : M (gmap string CodeData) :=
  external (fun w => (Ok (codesItem w), w)).

Definition setItem_codes (codes : gmap string CodeData) : M unit :=
  external (modify (fun w => emit (EvSetItem (VCodes codes)) (set_codesItem codes w))).

End AsyncStorage.

(** ** expo-notifications *)

Module Notifications.

Definition setNotificationChannelAsync : M unit := external (ret tt).

Definition scheduleNotificationAsync (r : Request) : M NotificationId :=
  external (fun w =>
    let h := Nid (nextId w) in
    (Ok h, emit (EvSchedule h r) (set_scheduled (scheduled w ++ [(h, r)]) (S (nextId w)) w))).

Definition cancelScheduledNotificationAsync (h : NotificationId) : M unit :=
  external (modify (fun w =>
    emit (EvCancel h)
         (set_scheduled (filter (fun p => negb (nid_eqb (fst p) h)) (scheduled w)) (nextId w) w))).

End Notifications.

(** ** NotificationService: scheduling (NotificationService.js) *)

Definition setupNotificationChannels : M unit :=
  fun w => if android w then Notifications.setNotificationChannelAsync w else (Ok tt, w).

(** The [trigger] that [scheduleAlarm] computes from the alarm and the
    current time. *)
Definition scheduleAlarm_trigger (tz now : Z) (alarm : Alarm) : Trigger :=
  let alarmTime := a_time alarm in
  if String.eqb (a_frequency alarm) "once" then
    let scheduledTime := alarmTime in
    let scheduledTime :=
      if scheduledTime <=? now then JSDate.addOneDay scheduledTime else scheduledTime in
    TDate scheduledTime
  else if String.eqb (a_frequency alarm) "daily" then
    let hour := JSDate.getHours tz alarmTime in
    let minute := JSDate.getMinutes tz alarmTime in
    TDaily hour minute
  else if String.eqb (a_frequency alarm) "weekly" then
    let hour := JSDate.getHours tz alarmTime in
    let minute := JSDate.getMinutes tz alarmTime in
    let weekday := JSDate.getDay tz alarmTime + 1 in
    TWeekly weekday hour minute
  else TUndefined.

Definition scheduleAlarm (alarm : Alarm) : M NotificationId :=
  try_catch
    (let! _ := setupNotificationChannels in
     let! now := Date_now in
     let! w := get_world in
     let trigger := scheduleAlarm_trigger (tz w) now alarm in
     let! notificationId :=
       Notifications.scheduleNotificationAsync
         {| r_alarmId := a_id alarm; r_duration := a_duration alarm; r_trigger := trigger |} in
     ret notificationId)
    throw.

Definition cancelAlarm (notificationId : option NotificationId) : M unit :=
  try_catch
    (match notificationId with
     | Some h => Notifications.cancelScheduledNotificationAsync h
     | None => ret tt
     end)
    throw.

(** ** AlarmStorage (the revision with schedule handles and code records) *)

Definition set_isActive (b : bool) (a : Alarm) : Alarm :=
  mkAlarm (a_id a) (a_time a) (a_label a) (a_frequency a) (a_duration a) b
          (a_notificationId a) (a_createdAt a).

Definition set_notificationId (h : option NotificationId) (a : Alarm) : Alarm :=
  mkAlarm (a_id a) (a_time a) (a_label a) (a_frequency a) (a_duration a) (a_isActive a)
          h (a_createdAt a).

Definition has_id (alarmId : string) (alarm : Alarm) : bool := String.eqb (a_id alarm) alarmId.

(** [alarms.find(alarm => alarm.id === alarmId)] returns the first such
    element of the array itself; assigning to its properties changes the
    array that is saved afterwards. *)
Fixpoint assign_found (alarmId : string) (g : Alarm -> Alarm) (alarms : list Alarm) : list Alarm :=
  match alarms with
  | [] => []
  | a :: rest =>
      if has_id alarmId a then g a :: rest else a :: assign_found alarmId g rest
  end.

Definition saveAlarms (alarms : list Alarm) : M unit :=
  try_catch (AsyncStorage.setItem_alarms alarms) throw.

Definition loadAlarms : M (list Alarm) :=
  try_catch AsyncStorage.getItem_alarms (ret []).

Definition loadDismissalCodes : M (gmap string CodeData) :=
  try_catch AsyncStorage.getItem_codes (ret ∅).

Definition saveDismissalCode (alarmId : string) (codeData : CodeData) : M unit :=
  try_catch
    (let! codes := loadDismissalCodes in
     let! now := Date_now in
     let codes :=
       <[alarmId := {| c_code := c_code codeData;
                       c_timestamp := c_timestamp codeData;
                       c_expiresAt := c_expiresAt codeData;
                       c_createdAt := Some now;
                       c_attempts := Some 0 |}]> codes in
     AsyncStorage.setItem_codes codes)
    throw.

Definition getDismissalCode (alarmId : string) : M (option CodeData) :=
  try_catch
    (let! codes := loadDismissalCodes in
     ret (codes !! alarmId))
    (ret None).

Definition removeDismissalCode (alarmId : string) : M unit :=
  try_catch
    (let! codes := loadDismissalCodes in
     let codes := delete alarmId codes in
     AsyncStorage.setItem_codes codes)
    (ret tt).

Definition incrementCodeAttempts (alarmId : string) : M Z :=
  try_catch
    (let! codes := loadDismissalCodes in
     match codes !! alarmId with
     | Some record =>
         let attempts := default 0 (c_attempts record) + 1 in
         let codes :=
           <[alarmId := mkCodeData (c_code record) (c_timestamp record) (c_expiresAt record)
                                   (c_createdAt record) (Some attempts)]> codes in
         let! _ := AsyncStorage.setItem_codes codes in
         ret attempts
     | None => ret 0
     end)
    (ret 0).

Definition addAlarm (alarm : AlarmInput) : M Alarm :=
  try_catch
    (let! alarms := loadAlarms in
     let! now := Date_now in
     let newAlarm :=
       {| a_id := NilZero.string_of_int (Z.to_int now);
          a_time := i_time alarm;
          a_label := i_label alarm;
          a_frequency := i_frequency alarm;
          a_duration := i_duration alarm;
          a_isActive := true;
          a_notificationId := None;
          a_createdAt := now |} in
     let! notificationId := scheduleAlarm newAlarm in
     let newAlarm := set_notificationId (Some notificationId) newAlarm in
     let alarms := alarms ++ [newAlarm] in
     let! _ := saveAlarms alarms in
     ret newAlarm)
    throw.

Definition deleteAlarm (alarmId : string) : M unit :=
  try_catch
    (let! alarms := loadAlarms in
     let alarmToDelete := List.find (has_id alarmId) alarms in
     let! _ :=
       match alarmToDelete with
       | Some a =>
           match a_notificationId a with
           | Some h => cancelAlarm (Some h)
           | None => ret tt
           end
       | None => ret tt
       end in
     let! _ := removeDismissalCode alarmId in
     let filteredAlarms := List.filter (fun alarm => negb (has_id alarmId alarm)) alarms in
     saveAlarms filteredAlarms)
    throw.

Definition updateAlarm (alarmId : string) (updates : AlarmPatch) : M unit :=
  try_catch
    (let! alarms := loadAlarms in
     let updatedAlarms :=
       List.map (fun alarm => if has_id alarmId alarm then spread alarm updates else alarm) alarms in
     saveAlarms updatedAlarms)
    throw.

Definition toggleAlarm (alarmId : string) : M unit :=
  try_catch
    (let! alarms := loadAlarms in
     match List.find (has_id alarmId) alarms with
     | Some alarmToToggle =>
         let newActiveState := negb (a_isActive alarmToToggle) in
         let! newNotificationId :=
           (if newActiveState then
              let! notificationId := scheduleAlarm (set_isActive true alarmToToggle) in
              ret (Some notificationId)
            else
              let! _ :=
                match a_notificationId alarmToToggle with
                | Some h => cancelAlarm (Some h)
                | None => ret tt
                end in
              ret None) in
         let alarms :=
           assign_found alarmId
             (fun a => set_isActive newActiveState (set_notificationId newNotificationId a))
             alarms in
         saveAlarms alarms
     | None => ret tt
     end)
    throw.

Definition getAlarm (alarmId : string) : M (option Alarm) :=
  try_catch
    (let! alarms := loadAlarms in
     ret (List.find (has_id alarmId) alarms))
    (ret None).

(** The earlier revision of the store (the AlarmStorage class that follows
    NotificationService in NotificationService.js), which keeps no
    schedule handle: its [toggleAlarm] only flips the flag. *)
Module FlagOnlyStorage.

Definition toggleAlarm (alarmId : string) : M unit :=
  try_catch
    (let! alarms := loadAlarms in
     let updatedAlarms :=
       List.map (fun alarm =>
                   if has_id alarmId alarm then set_isActive (negb (a_isActive alarm)) alarm
                   else alarm) alarms in
     saveAlarms updatedAlarms)
    throw.

End FlagOnlyStorage.

(** ** NotificationService: the timing validator (NotificationService.js) *)

Definition validateAlarmTiming (alarmId : string) : M bool :=
  try_catch
    (let! alarm := getAlarm alarmId in
     match alarm with
     | None => ret false
     | Some alarm =>
         if negb (a_isActive alarm) then ret false
         else
           let! now := Date_now in
           let! w := get_world in
           let alarmTime := a_time alarm in
           if String.eqb (a_frequency alarm) "once" then
             ret true
           else if String.eqb (a_frequency alarm) "daily" then
             let nowMinutes := JSDate.getHours (tz w) now * 60 + JSDate.getMinutes (tz w) now in
             let alarmMinutes :=
               JSDate.getHours (tz w) alarmTime * 60 + JSDate.getMinutes (tz w) alarmTime in
             let diff := Z.abs (nowMinutes - alarmMinutes) in
             ret (Qle_bool (inject_Z diff) 1.5%Q)
           else if String.eqb (a_frequency alarm) "weekly" then
             let nowDay := JSDate.getDay (tz w) now in
             let alarmDay := JSDate.getDay (tz w) alarmTime in
             let nowMinutes := JSDate.getHours (tz w) now * 60 + JSDate.getMinutes (tz w) now in
             let alarmMinutes :=
               JSDate.getHours (tz w) alarmTime * 60 + JSDate.getMinutes (tz w) alarmTime in
             let timeDiff := Z.abs (nowMinutes - alarmMinutes) in
             ret ((nowDay =? alarmDay) && Qle_bool (inject_Z timeDiff) 1.5%Q)
           else ret false
     end)
    (ret false).

(** ** MistralService: the code generator (MistralService.js) *)

(** JavaScript numbers that may be [NaN] ([None]). *)
Definition num_add (a b : option Z) : option Z :=
  match a, b with
  | Some x, Some y => Some (x + y)
  | _, _ => None
  end.

(** [a % b]: the remainder has the sign of the dividend; [x % 0] is [NaN]. *)
Definition num_rem (a b : option Z) : option Z :=
  match a, b with
  | Some x, Some y => if y =? 0 then None else Some (Z.rem x y)
  | _, _ => None
  end.

(** String positions: [NaN] is read as position 0. *)
Definition toIndex (i : option Z) : Z := default 0 i.

(** [s.charCodeAt(i)]: [NaN] outside the string. *)
Definition charCodeAt (s : string) (i : option Z) : option Z :=
  let k := toIndex i in
  if k <? 0 then None
  else match String.get (Z.to_nat k) s with
       | Some c => Some (Z.of_nat (nat_of_ascii c))
       | None => None
       end.

(** [s.charAt(i)]: the empty string outside the string. *)
Definition charAt (s : string) (i : option Z) : string :=
  let k := toIndex i in
  if k <? 0 then EmptyString
  else match String.get (Z.to_nat k) s with
       | Some c => String c EmptyString
       | None => EmptyString
       end.

Definition str_length (s : string) : Z := Z.of_nat (String.length s).

Definition characters : string := "ABCDEFGHIJKLMNOPQRSTUVWXYZ0123456789".

Definition isUpperAlnum (c : ascii) : bool :=
  let n := Z.of_nat (nat_of_ascii c) in
  ((65 <=? n) && (n <=? 90)) || ((48 <=? n) && (n <=? 57)).

(** [/^[A-Z0-9]{8}$/.test(code)] *)
Definition isValidCode (code : string) : bool :=
  Nat.eqb (String.length code) 8 && forallb isUpperAlnum (list_ascii_of_string code).

Section MistralService.

(** [Number.prototype.toString(36)], used only to build the entropy
    string. *)
Variable toString36 : Q -> string.

(** The body of [for (let i = 0; i < 8; i++)], with [n] iterations left. *)
Fixpoint generateSecureCode_loop (n : nat) (i : Z) (entropy code : string) : M string :=
  match n with
  | O => ret code
  | S n' =>
      let seedIndex :=
        num_rem (num_add (charCodeAt entropy (num_rem (Some i) (Some (str_length entropy))))
                         (Some i))
                (Some (str_length characters)) in
      let! r := Math_random in
      let randomIndex := Qfloor (r * inject_Z (str_length characters)) in
      let finalIndex :=
        num_rem (num_add seedIndex (Some randomIndex)) (Some (str_length characters)) in
      generateSecureCode_loop n' (i + 1) entropy (String.append code (charAt characters finalIndex))
  end.

Definition generateSecureCode : M string :=
  let code := EmptyString in
  let! now := Date_now in
  let timestamp := NilZero.string_of_int (Z.to_int now) in
  let! r1 := Math_random in
  let random1 := toString36 r1 in
  let! r2 := Math_random in
  let random2 := toString36 r2 in
  let entropy := String.append timestamp (String.append random1 random2) in
  generateSecureCode_loop 8 0 entropy code.

(** The two [Date.now()] of the returned object are read one after the
    other with no [await] in between: both see the same clock. *)
Definition generateDismissalCode : M CodeData :=
  try_catch
    (let! code := generateSecureCode in
     let! _ := sleep 1500 in
     let! timestamp := Date_now in
     let! now := Date_now in
     ret {| c_code := code;
            c_timestamp := timestamp;
            c_expiresAt := now + 10 * 60 * 1000;
            c_createdAt := None;
            c_attempts := None |})
    throw.

End MistralService.

(** ** DismissAlarmScreen: the dismissal session *)

(** Strings typed by the user are ASCII text. *)
Definition isWhiteSpace (c : ascii) : bool :=
  let n := nat_of_ascii c in
  (Nat.leb 9 n && Nat.leb n 13) || Nat.eqb n 32.

Fixpoint trimStart (s : string) : string :=
  match s with
  | EmptyString => EmptyString
  | String c rest => if isWhiteSpace c then trimStart rest else s
  end.

Fixpoint trimEnd (s : string) : string :=
  match s with
  | EmptyString => EmptyString
  | String c rest =>
      match trimEnd rest with
      | EmptyString => if isWhiteSpace c then EmptyString else String c EmptyString
      | rest' => String c rest'
      end
  end.

Definition trim (s : string) : string := trimEnd (trimStart s).

Definition upperChar (c : ascii) : ascii :=
  let n := nat_of_ascii c in
  if Nat.leb 97 n && Nat.leb n 122 then ascii_of_nat (n - 32) else c.

Fixpoint toUpperCase (s : string) : string :=
  match s with
  | EmptyString => EmptyString
  | String c rest => String (upperChar c) (toUpperCase rest)
  end.

(** The audio device (expo-av) and the ringtone lookup: external calls
    whose results the session does not inspect. *)
Module Audio.
Definition setAudioModeAsync : M unit := external (ret tt).
Definition createAsync : M unit := external (ret tt).
Definition pauseAsync : M unit := external (ret tt).
Definition unloadAsync : M unit := external (ret tt).
End Audio.

Definition getCustomRingtone (alarmId : string) : M unit :=
  try_catch (external (ret tt)) (ret tt).

(** The component: its route parameter, its React state and refs, and the
    vibration motor it drives. *)
Record Session := mkSession {
  s_alarmId : string;
  s_alarm : option Alarm;
  s_dismissalCodeData : option CodeData;
  s_userInput : string;
  s_isGeneratingCode : bool;
  s_timeRemaining : Z;
  s_isPlaying : bool;
  s_attempts : Z;
  s_audioPlayer : bool;       (* audioPlayerRef.current is a loaded sound *)
  s_vibrating : bool;         (* Vibration.vibrate(pattern, true) is in effect *)
  s_timer : bool              (* timerRef.current is a running interval *)
}.

(** The component as it is first rendered. *)
Definition mount (alarmId : string) : Session :=
  mkSession alarmId None None EmptyString true 300 false 0 false false false.

Definition setAlarm (v : option Alarm) (s : Session) : Session :=
  mkSession (s_alarmId s) v (s_dismissalCodeData s) (s_userInput s) (s_isGeneratingCode s)
            (s_timeRemaining s) (s_isPlaying s) (s_attempts s) (s_audioPlayer s)
            (s_vibrating s) (s_timer s).

Definition setDismissalCodeData (v : option CodeData) (s : Session) : Session :=
  mkSession (s_alarmId s) (s_alarm s) v (s_userInput s) (s_isGeneratingCode s)
            (s_timeRemaining s) (s_isPlaying s) (s_attempts s) (s_audioPlayer s)
            (s_vibrating s) (s_timer s).

Definition setUserInput (v : string) (s : Session) : Session :=
  mkSession (s_alarmId s) (s_alarm s) (s_dismissalCodeData s) v (s_isGeneratingCode s)
            (s_timeRemaining s) (s_isPlaying s) (s_attempts s) (s_audioPlayer s)
            (s_vibrating s) (s_timer s).

Definition setIsGeneratingCode (v : bool) (s : Session) : Session :=
  mkSession (s_alarmId s) (s_alarm s) (s_dismissalCodeData s) (s_userInput s) v
            (s_timeRemaining s) (s_isPlaying s) (s_attempts s) (s_audioPlayer s)
            (s_vibrating s) (s_timer s).

Definition setTimeRemaining (v : Z) (s : Session) : Session :=
  mkSession (s_alarmId s) (s_alarm s) (s_dismissalCodeData s) (s_userInput s)
            (s_isGeneratingCode s) v (s_isPlaying s) (s_attempts s) (s_audioPlayer s)
            (s_vibrating s) (s_timer s).

Definition setIsPlaying (v : bool) (s : Session) : Session :=
  mkSession (s_alarmId s) (s_alarm s) (s_dismissalCodeData s) (s_userInput s)
            (s_isGeneratingCode s) (s_timeRemaining s) v (s_attempts s) (s_audioPlayer s)
            (s_vibrating s) (s_timer s).

Definition setAttempts (v : Z) (s : Session) : Session :=
  mkSession (s_alarmId s) (s_alarm s) (s_dismissalCodeData s) (s_userInput s)
            (s_isGeneratingCode s) (s_timeRemaining s) (s_isPlaying s) v (s_audioPlayer s)
            (s_vibrating s) (s_timer s).

Definition setAudioPlayer (v : bool) (s : Session) : Session :=
  mkSession (s_alarmId s) (s_alarm s) (s_dismissalCodeData s) (s_userInput s)
            (s_isGeneratingCode s) (s_timeRemaining s) (s_isPlaying s) (s_attempts s) v
            (s_vibrating s) (s_timer s).

Definition setVibrating (v : bool) (s : Session) : Session :=
  mkSession (s_alarmId s) (s_alarm s) (s_dismissalCodeData s) (s_userInput s)
            (s_isGeneratingCode s) (s_timeRemaining s) (s_isPlaying s) (s_attempts s)
            (s_audioPlayer s) v (s_timer s).

Definition setTimer (v : bool) (s : Session) : Session :=
  mkSession (s_alarmId s) (s_alarm s) (s_dismissalCodeData s) (s_userInput s)
            (s_isGeneratingCode s) (s_timeRemaining s) (s_isPlaying s) (s_attempts s)
            (s_audioPlayer s) (s_vibrating s) v.

Definition isCodeExpired (now : Z) (codeData : CodeData) : bool := now >? c_expiresAt codeData.

(** A [catch] block sees the component state as it is when the exception
    is thrown: where the [try] block changes the state before a call that
    may throw, the handler is attached at that call with the state reached
    there. *)
Definition playAudio (s : Session) : M Session :=
  try_catch
    (let! s :=
       (if s_audioPlayer s then
          let! _ := try_catch Audio.unloadAsync (ret tt) in
          ret (setAudioPlayer false s)
        else ret s) in
     try_catch
       (let! _ := Audio.createAsync in
        ret (setIsPlaying true (setAudioPlayer true s)))
       (ret (setIsPlaying false s)))
    (ret (setIsPlaying false s)).

Definition playAlarmSound (s : Session) : M Session :=
  try_catch
    (let! _ := Audio.setAudioModeAsync in
     let! _ := getCustomRingtone (s_alarmId s) in
     playAudio s)
    (ret (setIsPlaying false s)).

Definition startVibration (s : Session) : Session := setVibrating true s.

Definition startTimer (s : Session) : Session := setTimer true s.

(** [stopAlarm] is started without [await] by its callers; it touches only
    the audio device and the vibration motor, and is run here to its end
    at the point of the call. *)
Definition stopAlarm (s : Session) : M Session :=
  try_catch
    (let! s :=
       (if s_audioPlayer s then
          let! _ := Audio.pauseAsync in
          let! _ := Audio.unloadAsync in
          ret (setAudioPlayer false s)
        else ret s) in
     ret (setIsPlaying false (setVibrating false s)))
    (ret (setIsPlaying false s)).

(** The [onPress] of the OK button of the timeout alert.
    [removeDismissalCode] is started without [await] and is run here to
    its end at the point of the call. *)
Definition handleTimeout_onPress (s : Session) : M Session :=
  let! _ := removeDismissalCode (s_alarmId s) in
  let! _ := navigate "AlarmList" in
  ret s.

Definition handleTimeout (s : Session) : M Session :=
  let! s := stopAlarm s in
  let! _ := Alert_alert AlertAlarmTimeout in
  ret s.

(** One firing of the interval set by [startTimer]. *)
Definition tick (s : Session) : M Session :=
  if s_timer s then
    let prev := s_timeRemaining s in
    if prev <=? 1 then
      let! s := handleTimeout s in
      ret (setTimeRemaining 0 s)
    else ret (setTimeRemaining (prev - 1) s)
  else ret s.

Definition handleSubmit (s : Session) : M Session :=
  let alarmId := s_alarmId s in
  let! newAttempts := incrementCodeAttempts alarmId in
  let s := setAttempts newAttempts s in
  if newAttempts >? 5 then
    let! _ := Alert_alert AlertMaximumAttemptsExceeded in
    ret s
  else
    match s_dismissalCodeData s with
    | None => throw
    | Some dismissalCodeData =>
        if String.eqb (toUpperCase (trim (s_userInput s))) (c_code dismissalCodeData) then
          let! s := stopAlarm s in
          let! _ := removeDismissalCode alarmId in
          let! _ :=
            match s_alarm s with
            | Some alarm =>
                if String.eqb (a_frequency alarm) "once" then
                  let! _ :=
                    match a_notificationId alarm with
                    | Some h => cancelAlarm (Some h)
                    | None => ret tt
                    end in
                  updateAlarm alarmId
                    (mkAlarmPatch None None None None None (Some false) (Some None) None)
                else ret tt
            | None => ret tt
            end in
          let! _ := Alert_alert AlertAlarmDismissed in
          ret s
        else
          let s := setUserInput EmptyString s in
          if newAttempts >=? 5 then
            let! _ := Alert_alert AlertTooManyFailedAttempts in
            ret s
          else
            let! _ := Alert_alert (AlertIncorrectCode (5 - newAttempts)) in
            ret s
    end.

Section DismissAlarmScreen.

Variable toString36 : Q -> string.

Definition initializeAlarmDismissal (s : Session) : M Session :=
  let! s :=
    try_catch
      (let! alarmData := getAlarm (s_alarmId s) in
       let s :=
         match alarmData with
         | Some a =>
             let alarmDuration := if a_duration a =? 0 then 5 else a_duration a in
             setTimeRemaining (alarmDuration * 60) (setAlarm (Some a) s)
         | None => s
         end in
       try_catch
         (let! codeData := getDismissalCode (s_alarmId s) in
          let! now := Date_now in
          let! codeData :=
            match codeData with
            | Some c =>
                if isCodeExpired now c then
                  let! c := generateDismissalCode toString36 in
                  let! _ := saveDismissalCode (s_alarmId s) c in
                  ret c
                else ret c
            | None =>
                let! c := generateDismissalCode toString36 in
                let! _ := saveDismissalCode (s_alarmId s) c in
                ret c
            end in
          let s := setDismissalCodeData (Some codeData) s in
          let s := setAttempts (default 0 (c_attempts codeData)) s in
          let! s := playAlarmSound s in
          let s := startVibration s in
          let s := startTimer s in
          ret s)
         (let! _ := Alert_alert AlertError in ret s))
      (let! _ := Alert_alert AlertError in ret s) in
  ret (setIsGeneratingCode false s).

Definition regenerateCode (s : Session) : M Session :=
  let s := setUserInput EmptyString s in
  let s := setIsGeneratingCode true s in
  let! s :=
    try_catch
      (let! newCodeData := generateDismissalCode toString36 in
       let! _ := saveDismissalCode (s_alarmId s) newCodeData in
       let s := setDismissalCodeData (Some newCodeData) s in
       let s := setAttempts 0 s in
       let! _ := Alert_alert AlertNewCodeGenerated in
       ret s)
      (let! _ := Alert_alert AlertError in ret s) in
  ret (setIsGeneratingCode false s).

End DismissAlarmScreen.

(** ** The states of the session, read off the component *)

Inductive Phase := Initializing | Ringing | Success | TimedOut.

Definition is_alert (a : AlertKind) (e : Event) : bool :=
  match e, a with
  | EvAlert AlertAlarmDismissed, AlertAlarmDismissed => true
  | EvAlert AlertAlarmTimeout, AlertAlarmTimeout => true
  | EvAlert AlertMaximumAttemptsExceeded, AlertMaximumAttemptsExceeded => true
  | EvAlert AlertTooManyFailedAttempts, AlertTooManyFailedAttempts => true
  | _, _ => false
  end.

Definition reported (a : AlertKind) (w : World) : bool := existsb (is_alert a) (log w).

(** The log is that of one run of the screen. The session has succeeded
    once it has reported the dismissal, has timed out once it has reported
    the timeout, and is ringing while the vibration and the countdown it
    started are both on. *)
Definition phase (w : World) (s : Session) : Phase :=
  if reported AlertAlarmDismissed w then Success
  else if reported AlertAlarmTimeout w then TimedOut
  else if s_vibrating s && s_timer s then Ringing
  else Initializing.

(** * Vocabulary of the properties *)

(** ** Assumptions on the environment *)

Definition unit_interval (r : Q) : Prop := (0 <= r)%Q /\ (r < 1)%Q.

(** [Math.random()] returns numbers of [[0, 1)]. *)
Definition rng_ok (w : World) : Prop := Forall unit_interval (rng w).

(** The next [n] external calls succeed. *)
Definition calls_succeed (n : nat) (w : World) : Prop :=
  forall k, (k < n)%nat -> nth k (faults w) false = false.

(** ** Properties of computations *)

(** [m] keeps [P], whether it returns or throws. *)
Definition preserves {A} (P : World -> Prop) (m : M A) : Prop :=
  forall w, P w -> P (snd (m w)).

(** A property of the world that no setter other than the write of
    ['@alarms'] can break. *)
Record Stable (P : World -> Prop) : Prop := mkStable {
  stable_faults : forall fs w, P w -> P (set_faults fs w);
  stable_codes : forall c w, P w -> P (set_codesItem c w);
  stable_scheduled : forall l n w, P w -> P (set_scheduled l n w);
  stable_clock : forall t w, P w -> P (set_clock t w);
  stable_rng : forall r w, P w -> P (set_rng r w);
  stable_emit : forall e w, P w -> P (emit e w)
}.

(** The log of [w] extends [l0]. *)
Definition log_from (l0 : list Event) (w : World) : Prop := exists evs, log w = l0 ++ evs.

(** A request to the platform scheduler. *)
Definition touches_schedule (e : Event) : bool :=
  match e with
  | EvSchedule _ _ | EvCancel _ => true
  | _ => false
  end.

(** ** The schedule-handle invariant *)

(** [notificationId != null] *)
Definition handle_set (a : Alarm) : bool :=
  match a_notificationId a with
  | Some _ => true
  | None => false
  end.

(** [isActive == (notificationId != null)] *)
Definition alarm_inv (a : Alarm) : Prop := a_isActive a = handle_set a.

Definition store_inv (w : World) : Prop := Forall alarm_inv (alarmsItem w).

(** A patch that sets the flag and the handle together and alike, or
    neither of them. *)
Definition consistent_patch (updates : AlarmPatch) : Prop :=
  match p_isActive updates, p_notificationId updates with
  | Some b, Some (Some _) => b = true
  | Some b, Some None => b = false
  | None, None => True
  | _, _ => False
  end.

(** A handle the platform has already given out. *)
Definition handed_out (w : World) (h : NotificationId) : Prop := (nid_num h < nextId w)%nat.

(** ** Code records *)

(** A string made of one character of the code alphabet. *)
Definition single_valid (s : string) : bool :=
  match s with
  | String c EmptyString => isUpperAlnum c
  | _ => false
  end.

(** The record with its [attempts] set to [n]. *)
Definition with_attempts (n : Z) (record : CodeData) : CodeData :=
  mkCodeData (c_code record) (c_timestamp record) (c_expiresAt record)
             (c_createdAt record) (Some n).

(** The attempt number a submission gets: [(attempts || 0) + 1]. *)
Definition next_attempt (record : CodeData) : Z := default 0 (c_attempts record) + 1.

(** The world after the attempt has been counted. *)
Definition counted (alarmId : string) (record : CodeData) (w : World) : World :=
  let codes1 :=
    <[alarmId := with_attempts (default 0 (c_attempts record) + 1) record]> (codesItem w) in
  emit (EvSetItem (VCodes codes1)) (set_codesItem codes1 w).

(** ** Results of runs without faults *)

(** The hour and minute of [d] as minutes since midnight. *)
Definition minutesOfDay (tz d : Z) : Z := JSDate.getHours tz d * 60 + JSDate.getMinutes tz d.

(** The request [scheduleAlarm] hands to the platform in [w]. *)
Definition request_of (w : World) (alarm : Alarm) : Request :=
  {| r_alarmId := a_id alarm;
     r_duration := a_duration alarm;
     r_trigger := scheduleAlarm_trigger (tz w) (clock w) alarm |}.

(** The world after [scheduleAlarm alarm]. *)
Definition after_schedule (alarm : Alarm) (w : World) : World :=
  emit (EvSchedule (Nid (nextId w)) (request_of w alarm))
       (set_scheduled (scheduled w ++ [(Nid (nextId w), request_of w alarm)]) (S (nextId w)) w).

(** The world after [cancelAlarm h]. *)
Definition after_cancel (h : NotificationId) (w : World) : World :=
  emit (EvCancel h)
       (set_scheduled (filter (fun p => negb (nid_eqb (fst p) h)) (scheduled w)) (nextId w) w).

(** The component after [stopAlarm]. *)
Definition stopped (s : Session) : Session :=
  setIsPlaying false
    (setVibrating false (if s_audioPlayer s then setAudioPlayer false s else s)).

(** The block of [handleSubmit] that follows the removal of the code
    record on a matching submission. *)
Definition deactivate_once (alarmId : string) (alarm : option Alarm) : M unit :=
  match alarm with
  | Some alarm =>
      if String.eqb (a_frequency alarm) "once" then
        let! _ :=
          match a_notificationId alarm with
          | Some h => cancelAlarm (Some h)
          | None => ret tt
          end in
        updateAlarm alarmId (mkAlarmPatch None None None None None (Some false) (Some None) None)
      else ret tt
  | None => ret tt
  end.

(** ** Runs of the session *)

(** [n] firings of the one-second interval. *)
Fixpoint countdown (n : nat) (s : Session) : M Session :=
  match n with
  | O => ret s
  | S n' => let! s' := tick s in countdown n' s'
  end.

(** One firing of the interval followed by the acknowledgement of the
    alert. *)
Definition timed_out (s : Session) (w : World) : Result Session * World :=
  match tick s w with
  | (Ok s1, w1) => handleTimeout_onPress s1 w1
  | (Throw, w1) => (Throw, w1)
  end.

(** The user types [input] and presses the button. *)
Definition submit (input : string) (st : Result Session * World) : Result Session * World :=
  match st with
  | (Ok s, w) => handleSubmit (setUserInput input s) w
  | (Throw, w) => (Throw, w)
  end.

Definition phase_of (st : Result Session * World) : option Phase :=
  match st with
  | (Ok s, w) => Some (phase w s)
  | (Throw, _) => None
  end.

(** The code on the screen. *)
Definition shown_code (st : Result Session * World) : string :=
  match st with
  | (Ok s, _) =>
      match s_dismissalCodeData s with
      | Some c => c_code c
      | None => EmptyString
      end
  | (Throw, _) => EmptyString
  end.

(** The [attempts] of the stored code record. *)
Definition stored_attempts (alarmId : string) (st : Result Session * World) : option Z :=
  match codesItem (snd st) !! alarmId with
  | Some record => c_attempts record
  | None => None
  end.

(** * Scenarios *)

(** A store with one active, scheduled one-time alarm. *)
Definition demo_alarm : Alarm :=
  mkAlarm "1" 1000 "wake" "once" 5 true (Some (Nid 0)) 0.

Definition demo_world : World :=
  mkWorld [demo_alarm] ∅ [(Nid 0, mkRequest "1" 5 (TDate 1000))] 1 500 0 true [] [] [].

Definition demo_code : CodeData := mkCodeData "AB12CD34" 500 600500 None (Some 3).

(** [{ isActive: false }] *)
Definition deactivate_only : AlarmPatch :=
  mkAlarmPatch None None None None None (Some false) None None.

(** The one-time alarm, set for 1000 ms after the epoch, looked at one
    hour later. *)
Definition an_hour_late : World := set_clock (1000 + JSDate.msPerHour) demo_world.

(** A daily alarm for 07:00 (UTC, the first day of the epoch). *)
Definition daily_alarm : Alarm :=
  mkAlarm "7" (7 * JSDate.msPerHour) "wake" "daily" 5 true (Some (Nid 0)) 0.

(** The world at [h]:[m] of the same day. *)
Definition daily_world_at (h m : Z) : World :=
  mkWorld [daily_alarm] ∅ [(Nid 0, mkRequest "7" 5 (TDaily 7 0))] 1
          (h * JSDate.msPerHour + m * JSDate.msPerMinute) 0 true [] [] [].

(** A one-time alarm that rang two days ago and was switched off. *)
Definition stale_alarm : Alarm := mkAlarm "1" 1000 "wake" "once" 5 false None 0.

Definition two_days_later : World :=
  mkWorld [stale_alarm] ∅ [] 1 (1000 + 2 * JSDate.msPerDay) 0 true [] [] [].

(** A ringing session for the one-time alarm, three attempts made, five
    minutes left. *)
Definition ringing_session : Session :=
  mkSession "1" (Some demo_alarm) (Some demo_code) "XXXXXXXX" false 300 true 3 true true true.

Definition ringing_world : World := set_codesItem {[ "1" := demo_code ]} demo_world.

(** The same session with one second left. *)
Definition last_second : Session := setTimeRemaining 1 ringing_session.

(** The same for a weekly alarm. *)
Definition weekly_alarm : Alarm :=
  mkAlarm "1" 1000 "wake" "weekly" 5 true (Some (Nid 0)) 0.

Definition weekly_world : World :=
  mkWorld [weekly_alarm] {[ "1" := demo_code ]} [(Nid 0, mkRequest "1" 5 (TWeekly 5 0 0))] 1
          500 0 true [] [] [].

Definition weekly_last_second : Session := setAlarm (Some weekly_alarm) last_second.

(** Scenario C: a session is started for the one-time alarm, the user
    submits five wrong codes and then the code shown on the screen. *)
Definition scenarioC_started : Result Session * World :=
  initializeAlarmDismissal (fun _ => "0") (mount "1") demo_world.

Definition scenarioC_five_wrong : Result Session * World :=
  submit "WRONG" (submit "WRONG" (submit "WRONG" (submit "WRONG" (submit "WRONG"
    scenarioC_started)))).

Definition scenarioC_then_correct : Result Session * World :=
  submit (shown_code scenarioC_started) scenarioC_five_wrong.

(** * Further parts of the application *)

(** ** NotificationService: the notification listeners (NotificationService.js) *)

(** Which of the two listeners an event reaches: the one registered with
    [addNotificationReceivedListener] or the one registered with
    [addNotificationResponseReceivedListener]. *)
Inductive Listener := Foreground | Tapped.

(** The static [navigationInFlight] map, the callbacks given to
    [setTimeout] that have not run yet (each with the time from which it
    runs and the alarm id whose marker it deletes), and the listener calls
    suspended at [await this.validateAlarmTiming(alarmId)]. *)
Record Dispatcher := mkDispatcher {
  navigationInFlight : gmap string string;
  timeouts : list (Z * string);
  awaiting : list (Listener * string)
}.

Definition set_navigationInFlight (m : gmap string string) (d : Dispatcher) : Dispatcher :=
  mkDispatcher m (timeouts d) (awaiting d).

Definition set_awaiting (l : list (Listener * string)) (d : Dispatcher) : Dispatcher :=
  mkDispatcher (navigationInFlight d) (timeouts d) l.

(** [setTimeout(() => { this.navigationInFlight.delete(alarmId); }, ms)] *)
Definition setTimeout_delete (alarmId : string) (ms : Z) (d : Dispatcher) : M Dispatcher :=
  let! now := Date_now in
  ret (mkDispatcher (navigationInFlight d) (timeouts d ++ [(now + ms, alarmId)]) (awaiting d)).

(** [`${alarmId}-${Date.now()}`] *)
Definition navigationKey_of (alarmId : string) (now : Z) : string :=
  String.append alarmId (String.append "-" (NilZero.string_of_int (Z.to_int now))).

(** The foreground listener up to its [await]; [alarmId] is the property
    of the notification data, absent or empty when falsy. The result tells
    whether the call goes on to validate the alarm. *)
Definition onNotificationReceived (alarmId : option string) (d : Dispatcher)
    : M (Dispatcher * bool) :=
  match alarmId with
  | None => ret (d, false)
  | Some alarmId =>
      if String.eqb alarmId EmptyString then ret (d, false)
      else
        let! now := Date_now in
        let navigationKey := navigationKey_of alarmId now in
        match navigationInFlight d !! alarmId with
        | Some _ => ret (d, false)
        | None =>
            let d := set_navigationInFlight (<[alarmId := navigationKey]> (navigationInFlight d)) d in
            let! d := setTimeout_delete alarmId 5000 d in
            ret (d, true)
        end
  end.

(** The response listener up to its [await]. *)
Definition onNotificationResponse (alarmId : option string) (d : Dispatcher)
    : M (Dispatcher * bool) :=
  match alarmId with
  | None => ret (d, false)
  | Some alarmId =>
      if String.eqb alarmId EmptyString then ret (d, false)
      else
        match navigationInFlight d !! alarmId with
        | Some _ => ret (d, false)
        | None =>
            let! now := Date_now in
            let d :=
              set_navigationInFlight
                (<[alarmId := navigationKey_of alarmId now]> (navigationInFlight d)) d in
            let! d := setTimeout_delete alarmId 5000 d in
            ret (d, true)
        end
  end.

(** What either listener does from its [await] on (the two differ in
    the message they print only). *)
Definition listener_resume (alarmId : string) (d : Dispatcher) : M Dispatcher :=
  let! shouldTrigger := validateAlarmTiming alarmId in
  if shouldTrigger then
    let! _ := navigate "DismissAlarm" in
    ret d
  else
    ret (set_navigationInFlight (delete alarmId (navigationInFlight d)) d).

(** The [setTimeout] callbacks whose time has come run: each deletes the
    marker of its alarm id. *)
Definition runTimeouts (d : Dispatcher) : M Dispatcher :=
  let! now := Date_now in
  let due := List.filter (fun t => fst t <=? now) (timeouts d) in
  let pending := List.filter (fun t => negb (fst t <=? now)) (timeouts d) in
  ret (mkDispatcher
         (List.fold_left (fun m t => delete (snd t) m) due (navigationInFlight d))
         pending
         (awaiting d)).

(** What the event loop does next: a notification reaches a listener,
    which runs up to its [await]; the validation awaited by the [k]-th
    suspended call settles and that call runs to its end; or [ms]
    milliseconds pass and the timers that are due run. *)
Inductive Action :=
| Notify (l : Listener) (alarmId : option string)
| Resume (k : nat)
| Elapse (ms : N).

Definition loop_step (a : Action) (d : Dispatcher) : M Dispatcher :=
  match a with
  | Notify l alarmId =>
      let! r :=
        match l with
        | Foreground => onNotificationReceived alarmId d
        | Tapped => onNotificationResponse alarmId d
        end in
      if snd r then ret (set_awaiting (awaiting (fst r) ++ [(l, default EmptyString alarmId)]) (fst r))
      else ret (fst r)
  | Resume k =>
      match nth_error (awaiting d) k with
      | Some (_, alarmId) =>
          listener_resume alarmId (set_awaiting (take k (awaiting d) ++ drop (S k) (awaiting d)) d)
      | None => ret d
      end
  | Elapse ms =>
      let! _ := sleep (Z.of_N ms) in
      runTimeouts d
  end.

Fixpoint loop (acts : list Action) (d : Dispatcher) : M Dispatcher :=
  match acts with
  | [] => ret d
  | a :: rest =>
      let! d := loop_step a d in
      loop rest d
  end.

(** The dispatcher of a freshly started application. *)
Definition idle : Dispatcher := mkDispatcher empty [] [].

Definition is_dismiss_navigation (e : Event) : bool :=
  match e with
  | EvNavigate screen => String.eqb screen "DismissAlarm"
  | _ => false
  end.

(** How many times the dismissal screen has been opened. *)
Definition navigations (w : World) : nat :=
  length (List.filter is_dismiss_navigation (log w)).

(** The notifications among [acts] are all for [alarmId] (or carry no
    id). *)
Definition about (alarmId : string) (a : Action) : Prop :=
  match a with
  | Notify _ (Some alarmId') => alarmId' = alarmId
  | _ => True
  end.

(** The time that passes during [acts]. *)
Fixpoint elapsed (acts : list Action) : Z :=
  match acts with
  | [] => 0
  | Elapse ms :: rest => Z.of_N ms + elapsed rest
  | _ :: rest => elapsed rest
  end.

(** No timer that deletes the marker of [alarmId] is pending. *)
Definition no_timer_for (alarmId : string) (d : Dispatcher) : Prop :=
  forall t, ~ In (t, alarmId) (timeouts d).

(** [this.navigationInFlight.has(alarmId)] *)
Definition in_flight (alarmId : string) (d : Dispatcher) : bool :=
  match navigationInFlight d !! alarmId with
  | Some _ => true
  | None => false
  end.

(** How many more times the dismissal screen can be opened for
    [alarmId] while its marker stays: none once the marker is set and no
    listener call is suspended. *)
Definition allowance (alarmId : string) (d : Dispatcher) : nat :=
  match awaiting d with
  | [] => if in_flight alarmId d then 0%nat else 1%nat
  | _ => 1%nat
  end.

(** The timers of [alarmId] all run after [deadline], and at most one
    listener call is suspended, which has set the marker. *)
Definition dispatcher_inv (alarmId : string) (deadline : Z) (d : Dispatcher) : Prop :=
  (forall t, In (t, alarmId) (timeouts d) -> deadline < t)
  /\ (awaiting d = []
      \/ (exists l, awaiting d = [(l, alarmId)]) /\ in_flight alarmId d = true).

(** ** MistralService: the backend path (MistralService.js) *)

(** The JSON body of the backend response, as the endpoint is documented:
    [code] a string and [expiresAt] a number, each present or absent. *)
Record BackendData := mkBackendData {
  b_code : option string;
  b_expiresAt : option Z
}.

(** What [fetch] and [response.json()] give: the reply of the backend is
    an input of the embedding. *)
Inductive FetchOutcome :=
| FetchRejected
| FetchResponse (ok : bool) (body : option BackendData).

(** The object [generateCodeWithBackend] returns: the body of the
    response as it is, or the result of the local generator. *)
Inductive Generated :=
| FromBackend (data : BackendData)
| FromLocal (codeData : CodeData).

Definition generated_code (g : Generated) : option string :=
  match g with
  | FromBackend data => b_code data
  | FromLocal codeData => Some (c_code codeData)
  end.

Definition getUserToken : M string := ret "demo-user-token".

(** [!data.code || !data.expiresAt || !this.isValidCode(data.code)]: an
    absent or empty code and an absent or zero expiry are falsy. *)
Definition invalid_response (data : BackendData) : bool :=
  match b_code data with
  | None => true
  | Some code =>
      String.eqb code EmptyString
      || match b_expiresAt data with
         | None => true
         | Some e => e =? 0
         end
      || negb (isValidCode code)
  end.

Section Backend.

Variable toString36 : Q -> string.

Definition generateCodeWithBackend (reply : FetchOutcome) (alarmId : string) : M Generated :=
  try_catch
    (let! token := getUserToken in
     match reply with
     | FetchRejected => throw
     | FetchResponse ok body =>
         if negb ok then throw
         else
           match body with
           | None => throw
           | Some data =>
               if invalid_response data then throw else ret (FromBackend data)
           end
     end)
    (let! codeData := generateDismissalCode toString36 in
     ret (FromLocal codeData)).

End Backend.

(** ** CreateAlarmScreen *)

(** The value of [c] as a digit, for letters in either case. *)
Definition digit_value (c : ascii) : option Z :=
  let n := Z.of_nat (nat_of_ascii c) in
  if (48 <=? n) && (n <=? 57) then Some (n - 48)
  else if (97 <=? n) && (n <=? 122) then Some (n - 87)
  else if (65 <=? n) && (n <=? 90) then Some (n - 55)
  else None.

(** The longest prefix of digits of the radix, read as a number; [acc] is
    the value read so far, [None] before the first digit. *)
Fixpoint parse_digits (radix : Z) (s : string) (acc : option Z) : option Z :=
  match s with
  | EmptyString => acc
  | String c rest =>
      match digit_value c with
      | Some v =>
          if v <? radix then parse_digits radix rest (Some (default 0 acc * radix + v))
          else acc
      | None => acc
      end
  end.

(** [parseInt(s)] without a radix, on ASCII text: leading white space and
    a sign are skipped, a [0x] prefix selects radix 16, and the digits
    that follow are read up to the first other character; [None] is
    [NaN]. The number is exact (JavaScript rounds above 2^53). *)
Definition parseInt (s : string) : option Z :=
  let s := trimStart s in
  let '(sign, s) :=
    match s with
    | String "-"%char rest => (-1, rest)
    | String "+"%char rest => (1, rest)
    | _ => (1, s)
    end in
  let '(radix, s) :=
    match s with
    | String "0"%char (String "x"%char rest) => (16, rest)
    | String "0"%char (String "X"%char rest) => (16, rest)
    | _ => (10, s)
    end in
  match parse_digits radix s None with
  | Some v => Some (sign * v)
  | None => None
  end.

(** The state of the form; [f_customRingtone] is the [uri] of the picked
    file, if any. *)
Record AlarmForm := mkAlarmForm {
  f_time : Z;
  f_label : string;
  f_frequency : string;
  f_duration : string;
  f_customRingtone : option string
}.

Definition validateForm (form : AlarmForm) : M bool :=
  if String.eqb (trim (f_label form)) EmptyString then
    let! _ := Alert_alert AlertError in
    ret false
  else
    match parseInt (f_duration form) with
    | None =>
        let! _ := Alert_alert AlertError in
        ret false
    | Some durationNum =>
        if (durationNum <? 1) || (durationNum >? 60) then
          let! _ := Alert_alert AlertError in
          ret false
        else ret true
    end.

(** [AlarmStorage.setCustomRingtone]: the ringtone map is a third item
    of the store, not kept in the world; its read and its write are
    external calls, the read answering a failure with the empty object. *)
Definition setCustomRingtone (alarmId ringtoneUri : string) : M unit :=
  try_catch
    (let! _ := try_catch (external (ret tt)) (ret tt) in
     external (ret tt))
    throw.

(** How [saveAlarm] ends: the form is rejected, the alarm is created
    (and the alert that says so is shown), or an error is reported. *)
Inductive SaveOutcome :=
| Rejected
| Created (newAlarm : Alarm)
| Failed.

(** The [saving] flag, which only disables the button, is left out.
    [parseInt(duration)] is a number where [alarmData] is built, the form
    having been validated. *)
Definition saveAlarm (form : AlarmForm) : M SaveOutcome :=
  let! valid := validateForm form in
  if negb valid then ret Rejected
  else
    try_catch
      (let alarmData :=
         {| i_time := f_time form;
            i_label := trim (f_label form);
            i_frequency := f_frequency form;
            i_duration := default 0 (parseInt (f_duration form)) |} in
       let! newAlarm := addAlarm alarmData in
       let! _ :=
         match f_customRingtone form with
         | Some uri => setCustomRingtone (a_id newAlarm) uri
         | None => ret tt
         end in
       ret (Created newAlarm))
      (let! _ := Alert_alert AlertError in
       ret Failed).

(** ** DismissAlarmScreen: the input field *)



(** * Vocabulary of the further properties *)

(** The stored alarms are exactly [alarms]. *)
Definition alarms_are (alarms : list Alarm) (w : World) : Prop := alarmsItem w = alarms.

(** [k] calls of [incrementCodeAttempts], one after the other; the result
    is that of the last one. *)
Fixpoint increments (k : nat) (alarmId : string) : M Z :=
  match k with
  | O => ret 0
  | S k' => let! _ := increments k' alarmId in incrementCodeAttempts alarmId
  end.

(** Every pending notification carries a handle the platform has given
    out. *)
Definition platform_wf (w : World) : Prop :=
  forall h r, In (h, r) (scheduled w) -> handed_out w h.

(** * Properties *)

(** ** Strings *)

Lemma append_cons (c : ascii) (s1 s2 : string) :
  String.append (String c s1) s2 = String c (String.append s1 s2).
Proof. reflexivity. Qed.

Lemma length_append (s1 s2 : string) :
  String.length (String.append s1 s2) = (String.length s1 + String.length s2)%nat.
Proof.
  induction s1 as [|c s1 IH]; [reflexivity |].
  rewrite append_cons. simpl. now rewrite IH.
Qed.

Lemma list_ascii_append (s1 s2 : string) :
  list_ascii_of_string (String.append s1 s2)
  = list_ascii_of_string s1 ++ list_ascii_of_string s2.
Proof.
  induction s1 as [|c s1 IH]; [reflexivity |].
  rewrite append_cons. simpl. now rewrite IH.
Qed.

Lemma append_assoc (s1 s2 s3 : string) :
  String.append (String.append s1 s2) s3 = String.append s1 (String.append s2 s3).
Proof.
  induction s1 as [|c s1 IH]; [reflexivity |].
  rewrite !append_cons. now rewrite IH.
Qed.

Lemma append_empty_r (s : string) : String.append s EmptyString = s.
Proof.
  induction s as [|c s IH]; [reflexivity |].
  rewrite append_cons. now rewrite IH.
Qed.

(** ** The code generator *)

Lemma characters_length : str_length characters = 36.
Proof. reflexivity. Qed.

Lemma randomIndex_range (r : Q) :
  unit_interval r -> 0 <= Qfloor (r * inject_Z 36) < 36.
Proof.
  intros [H0 H1]. split.
  - replace 0 with (Qfloor (inject_Z 0)) by apply Qfloor_Z.
    apply Qfloor_resp_le.
    change (inject_Z 0) with (0 * inject_Z 36)%Q.
    apply Qmult_le_compat_r; [exact H0 | discriminate].
  - rewrite Zlt_Qlt.
    apply Qle_lt_trans with (r * inject_Z 36)%Q; [apply Qfloor_le |].
    apply Qlt_le_trans with (1 * inject_Z 36)%Q.
    + apply Qmult_lt_compat_r; [reflexivity | exact H1].
    + discriminate.
Qed.

Lemma charAt_characters (k : Z) :
  0 <= k < 36 -> single_valid (charAt characters (Some k)) = true.
Proof.
  intros Hk.
  assert (Hall : forallb (fun n => single_valid (charAt characters (Some (Z.of_nat n))))
                         (seq 0 36) = true) by (vm_compute; reflexivity).
  rewrite forallb_forall in Hall.
  specialize (Hall (Z.to_nat k)).
  rewrite Z2Nat.id in Hall by lia.
  apply Hall, in_seq. lia.
Qed.

(** Whatever the seed is, [NaN] included, the character selected by
    [finalIndex] is one of the alphabet. *)
Lemma finalIndex_char (seedIndex : option Z) (randomIndex : Z) :
  (forall x, seedIndex = Some x -> 0 <= x) ->
  0 <= randomIndex < 36 ->
  single_valid
    (charAt characters
       (num_rem (num_add seedIndex (Some randomIndex)) (Some (str_length characters)))) = true.
Proof.
  intros Hseed Hr. rewrite characters_length.
  destruct seedIndex as [x|]; simpl.
  - specialize (Hseed x eq_refl).
    apply charAt_characters. apply Z.rem_bound_pos; lia.
  - reflexivity.
Qed.

Lemma seedIndex_nonneg (entropy : string) (i : Z) :
  0 <= i ->
  forall x,
    num_rem (num_add (charCodeAt entropy (num_rem (Some i) (Some (str_length entropy))))
                     (Some i))
            (Some (str_length characters)) = Some x ->
    0 <= x.
Proof.
  intros Hi x. rewrite characters_length.
  destruct (charCodeAt entropy _) as [cc|] eqn:Hcc; simpl; [| discriminate].
  intros [= <-].
  assert (0 <= cc).
  { unfold charCodeAt in Hcc.
    destruct (toIndex _ <? 0); [discriminate |].
    destruct (String.get _ entropy); [| discriminate].
    injection Hcc as <-. lia. }
  apply Z.rem_bound_pos; lia.
Qed.

Lemma Math_random_spec (w : World) :
  rng_ok w ->
  exists r w',
    Math_random w = (Ok r, w') /\ unit_interval r /\ rng_ok w' /\ clock w' = clock w.
Proof.
  unfold rng_ok, Math_random. intros Hok.
  destruct (rng w) as [|r rs] eqn:Hrng.
  - exists 0%Q, w. rewrite Hrng.
    split; [reflexivity |]. split; [split; [discriminate | reflexivity] |].
    split; [constructor | reflexivity].
  - inversion Hok as [|? ? Hr Hrs]; subst. exists r, (set_rng rs w).
    split; [reflexivity |]. split; [exact Hr |]. split; [exact Hrs | reflexivity].
Qed.

Section GeneratorFacts.

Variable toString36 : Q -> string.

Lemma generateSecureCode_loop_spec (n : nat) :
  forall (i : Z) (entropy code : string) (w : World),
    0 <= i -> rng_ok w ->
    exists suffix w',
      generateSecureCode_loop n i entropy code w = (Ok (String.append code suffix), w')
      /\ String.length suffix = n
      /\ forallb isUpperAlnum (list_ascii_of_string suffix) = true
      /\ clock w' = clock w.
Proof.
  induction n as [|n IH]; intros i entropy code w Hi Hw.
  - exists EmptyString, w. simpl. unfold ret. now rewrite append_empty_r.
  - destruct (Math_random_spec w Hw) as (r & w1 & Hr & Hunit & Hw1 & Hc1).
    pose proof (randomIndex_range r Hunit) as Hidx.
    pose proof (finalIndex_char _ _ (seedIndex_nonneg entropy i Hi) Hidx) as Hchar.
    cbn [generateSecureCode_loop]. unfold bind at 1. rewrite Hr.
    rewrite characters_length in *.
    destruct (charAt characters _) as [|c [|? ?]] eqn:Hc; try discriminate.
    destruct (IH (i + 1) entropy (String.append code (String c EmptyString)) w1
                 ltac:(lia) Hw1) as (suffix & w' & Hrun & Hlen & Hall & Hc').
    exists (String c suffix), w'. rewrite Hrun, append_assoc. simpl.
    simpl in Hchar. rewrite Hchar, Hall, Hlen. repeat split; congruence.
Qed.

Lemma generateSecureCode_spec (w : World) :
  rng_ok w ->
  exists code w',
    generateSecureCode toString36 w = (Ok code, w')
    /\ isValidCode code = true
    /\ clock w' = clock w.
Proof.
  intros Hw. unfold generateSecureCode, bind, Date_now.
  destruct (Math_random_spec w Hw) as (r1 & w1 & Hr1 & _ & Hw1 & Hc1). rewrite Hr1.
  destruct (Math_random_spec w1 Hw1) as (r2 & w2 & Hr2 & _ & Hw2 & Hc2). rewrite Hr2.
  destruct (generateSecureCode_loop_spec 8 0
              (String.append (NilZero.string_of_int (Z.to_int (clock w)))
                             (String.append (toString36 r1) (toString36 r2)))
              EmptyString w2 ltac:(lia) Hw2)
    as (suffix & w' & Hrun & Hlen & Hall & Hc').
  change (String.append EmptyString suffix) with suffix in Hrun.
  exists suffix, w'. cbv beta zeta. rewrite Hrun.
  unfold isValidCode. rewrite Hlen, Hall. repeat split; congruence.
Qed.


End GeneratorFacts.


(** ** External calls and the fault script *)

Ltac wsimpl :=
  cbn [alarmsItem codesItem scheduled nextId clock tz android faults rng log
       set_alarmsItem set_codesItem set_scheduled set_clock set_faults set_rng emit
       fst snd hd tl].

Lemma set_faults_same (w : World) (fs : list bool) : faults w = fs -> set_faults fs w = w.
Proof. destruct w; simpl; intros ->; reflexivity. Qed.

Lemma external_quiet {A} (body : M A) (w : World) :
  faults w = [] -> external body w = body w.
Proof.
  intros H. unfold external. rewrite H. simpl. now rewrite set_faults_same.
Qed.

Lemma external_ok {A} (body : M A) (w : World) :
  hd false (faults w) = false ->
  external body w = body (set_faults (tl (faults w)) w).
Proof. intros H. unfold external. now rewrite H. Qed.

Lemma calls_succeed_quiet (n : nat) (w : World) : faults w = [] -> calls_succeed n w.
Proof. intros H k _. rewrite H. now destruct k. Qed.

Lemma calls_succeed_hd (n : nat) (w : World) :
  calls_succeed (S n) w -> hd false (faults w) = false.
Proof.
  intros H. specialize (H 0%nat ltac:(lia)). now destruct (faults w).
Qed.

Lemma calls_succeed_tl (n : nat) (w : World) :
  calls_succeed (S n) w -> calls_succeed n (set_faults (tl (faults w)) w).
Proof.
  intros H k Hk. specialize (H (S k) ltac:(lia)). wsimpl.
  destruct (faults w); [now destruct k | exact H].
Qed.

(** Whether or not the read fails, [loadDismissalCodes] returns a map. *)
Lemma loadDismissalCodes_run (w : World) :
  loadDismissalCodes w
  = (Ok (if hd false (faults w) then ∅ else codesItem w), set_faults (tl (faults w)) w).
Proof.
  unfold loadDismissalCodes, try_catch, AsyncStorage.getItem_codes, external.
  destruct (hd false (faults w)); reflexivity.
Qed.

Lemma loadAlarms_run (w : World) :
  loadAlarms w
  = (Ok (if hd false (faults w) then [] else alarmsItem w), set_faults (tl (faults w)) w).
Proof.
  unfold loadAlarms, try_catch, AsyncStorage.getItem_alarms, external.
  destruct (hd false (faults w)); reflexivity.
Qed.

(** ** Code records *)





(** ** Properties of the world kept by every computation *)

Create HintDb pres.

Lemma preserves_ret {A} (P : World -> Prop) (a : A) : preserves P (ret a).
Proof. intros w H. exact H. Qed.

Lemma preserves_throw {A} (P : World -> Prop) : preserves P (@throw A).
Proof. intros w H. exact H. Qed.

Lemma preserves_bind {A B} (P : World -> Prop) (m : M A) (k : A -> M B) :
  preserves P m -> (forall a, preserves P (k a)) -> preserves P (bind m k).
Proof.
  intros Hm Hk w H. unfold bind. specialize (Hm w H).
  destruct (m w) as [[a|] w1]; simpl in *; [now apply Hk | exact Hm].
Qed.

Lemma preserves_try_catch {A} (P : World -> Prop) (m handler : M A) :
  preserves P m -> preserves P handler -> preserves P (try_catch m handler).
Proof.
  intros Hm Hh w H. unfold try_catch. specialize (Hm w H).
  destruct (m w) as [[a|] w1]; simpl in *; [exact Hm | now apply Hh].
Qed.

Lemma preserves_get_world (P : World -> Prop) : preserves P get_world.
Proof. intros w H. exact H. Qed.

Lemma preserves_Date_now (P : World -> Prop) : preserves P Date_now.
Proof. intros w H. exact H. Qed.

#[export] Hint Resolve preserves_get_world preserves_Date_now : pres.

Section StableFacts.

Variable P : World -> Prop.
Hypothesis HP : Stable P.

Lemma preserves_external {A} (body : M A) :
  preserves P body -> preserves P (external body).
Proof.
  intros Hb w H. unfold external.
  pose proof (stable_faults P HP (tl (faults w)) w H) as H'.
  destruct (hd false (faults w)); [exact H' | now apply Hb].
Qed.

Lemma preserves_modify (f : World -> World) :
  (forall w, P w -> P (f w)) -> preserves P (modify f).
Proof. intros Hf w H. now apply Hf. Qed.

Lemma preserves_Alert_alert (a : AlertKind) : preserves P (Alert_alert a).
Proof. apply preserves_modify. apply (stable_emit P HP). Qed.

Lemma preserves_navigate (screen : string) : preserves P (navigate screen).
Proof. apply preserves_modify. apply (stable_emit P HP). Qed.

Lemma preserves_getItem_alarms : preserves P AsyncStorage.getItem_alarms.
Proof. apply preserves_external. intros w H. exact H. Qed.

Lemma preserves_getItem_codes : preserves P AsyncStorage.getItem_codes.
Proof. apply preserves_external. intros w H. exact H. Qed.

Lemma preserves_setItem_codes (codes : gmap string CodeData) :
  preserves P (AsyncStorage.setItem_codes codes).
Proof.
  apply preserves_external, preserves_modify. intros w H.
  now apply (stable_emit P HP), (stable_codes P HP).
Qed.

Lemma preserves_setItem_alarms (alarms : list Alarm) :
  (forall w, P w -> P (set_alarmsItem alarms w)) ->
  preserves P (AsyncStorage.setItem_alarms alarms).
Proof.
  intros Hset. apply preserves_external, preserves_modify. intros w H.
  now apply (stable_emit P HP), Hset.
Qed.

Lemma preserves_external_ret (u : unit) : preserves P (external (ret u)).
Proof. apply preserves_external, preserves_ret. Qed.

Lemma preserves_scheduleNotificationAsync (r : Request) :
  preserves P (Notifications.scheduleNotificationAsync r).
Proof.
  apply preserves_external. intros w H. simpl.
  now apply (stable_emit P HP), (stable_scheduled P HP).
Qed.

Lemma preserves_cancelScheduledNotificationAsync (h : NotificationId) :
  preserves P (Notifications.cancelScheduledNotificationAsync h).
Proof.
  apply preserves_external, preserves_modify. intros w H.
  now apply (stable_emit P HP), (stable_scheduled P HP).
Qed.

Lemma preserves_setupNotificationChannels : preserves P setupNotificationChannels.
Proof.
  intros w H. unfold setupNotificationChannels.
  destruct (android w); [| exact H].
  now apply (preserves_external_ret tt).
Qed.

Lemma preserves_scheduleAlarm (alarm : Alarm) : preserves P (scheduleAlarm alarm).
Proof.
  unfold scheduleAlarm.
  apply preserves_try_catch; [| apply preserves_throw].
  apply preserves_bind; [apply preserves_setupNotificationChannels | intros _].
  apply preserves_bind; [apply preserves_Date_now | intros now].
  apply preserves_bind; [apply preserves_get_world | intros w0].
  apply preserves_bind; [apply preserves_scheduleNotificationAsync | intros h].
  apply preserves_ret.
Qed.

Lemma preserves_cancelAlarm (h : option NotificationId) : preserves P (cancelAlarm h).
Proof.
  unfold cancelAlarm.
  apply preserves_try_catch; [| apply preserves_throw].
  destruct h; [apply preserves_cancelScheduledNotificationAsync | apply preserves_ret].
Qed.

Lemma preserves_loadAlarms : preserves P loadAlarms.
Proof.
  apply preserves_try_catch; [apply preserves_getItem_alarms | apply preserves_ret].
Qed.

Lemma preserves_saveAlarms (alarms : list Alarm) :
  (forall w, P w -> P (set_alarmsItem alarms w)) -> preserves P (saveAlarms alarms).
Proof.
  intros Hset.
  apply preserves_try_catch; [now apply preserves_setItem_alarms | apply preserves_throw].
Qed.

Lemma preserves_loadDismissalCodes : preserves P loadDismissalCodes.
Proof.
  apply preserves_try_catch; [apply preserves_getItem_codes | apply preserves_ret].
Qed.

Lemma preserves_removeDismissalCode (alarmId : string) :
  preserves P (removeDismissalCode alarmId).
Proof.
  unfold removeDismissalCode.
  apply preserves_try_catch; [| apply preserves_ret].
  apply preserves_bind; [apply preserves_loadDismissalCodes | intros codes].
  apply preserves_setItem_codes.
Qed.

Lemma preserves_saveDismissalCode (alarmId : string) (codeData : CodeData) :
  preserves P (saveDismissalCode alarmId codeData).
Proof.
  unfold saveDismissalCode.
  apply preserves_try_catch; [| apply preserves_throw].
  apply preserves_bind; [apply preserves_loadDismissalCodes | intros codes].
  apply preserves_bind; [apply preserves_Date_now | intros now].
  apply preserves_setItem_codes.
Qed.

Lemma preserves_incrementCodeAttempts (alarmId : string) :
  preserves P (incrementCodeAttempts alarmId).
Proof.
  unfold incrementCodeAttempts.
  apply preserves_try_catch; [| apply preserves_ret].
  apply preserves_bind; [apply preserves_loadDismissalCodes | intros codes].
  destruct (codes !! alarmId); [| apply preserves_ret].
  apply preserves_bind; [apply preserves_setItem_codes | intros _].
  apply preserves_ret.
Qed.

Lemma preserves_stopAlarm (s : Session) : preserves P (stopAlarm s).
Proof.
  unfold stopAlarm, Audio.pauseAsync, Audio.unloadAsync.
  apply preserves_try_catch; [| apply preserves_ret].
  apply preserves_bind; [| intros s'; apply preserves_ret].
  destruct (s_audioPlayer s); [| apply preserves_ret].
  apply preserves_bind; [apply preserves_external_ret | intros _].
  apply preserves_bind; [apply preserves_external_ret | intros _].
  apply preserves_ret.
Qed.

End StableFacts.

#[export] Hint Resolve
  preserves_Alert_alert preserves_navigate preserves_scheduleAlarm preserves_cancelAlarm
  preserves_loadAlarms preserves_saveAlarms preserves_loadDismissalCodes
  preserves_removeDismissalCode preserves_saveDismissalCode preserves_incrementCodeAttempts
  preserves_stopAlarm : pres.


Lemma bind_assoc {A B C} (m : M A) (f : A -> M B) (g : B -> M C) (w : World) :
  bind (bind m f) g w = bind m (fun a => bind (f a) g) w.
Proof. unfold bind. destruct (m w) as [[a|] w1]; reflexivity. Qed.

Lemma preserves_bind_assoc {A B C} (P : World -> Prop)
    (m : M A) (f : A -> M B) (g : B -> M C) :
  preserves P (bind m (fun a => bind (f a) g)) -> preserves P (bind (bind m f) g).
Proof. intros H w Hw. rewrite bind_assoc. now apply H. Qed.

Lemma preserves_bind_ret {A B} (P : World -> Prop) (a : A) (k : A -> M B) :
  preserves P (k a) -> preserves P (bind (ret a) k).
Proof. intros H w Hw. exact (H w Hw). Qed.

(** ** The schedule-handle invariant of the alarm store *)

Lemma store_inv_stable : Stable store_inv.
Proof. split; intros; assumption. Qed.

#[export] Hint Resolve store_inv_stable : pres.

Lemma store_inv_set (alarms : list Alarm) :
  Forall alarm_inv alarms -> forall w, store_inv w -> store_inv (set_alarmsItem alarms w).
Proof. intros H w _. exact H. Qed.

Lemma preserves_inv_saveAlarms (alarms : list Alarm) :
  Forall alarm_inv alarms -> preserves store_inv (saveAlarms alarms).
Proof.
  intros H. apply preserves_saveAlarms; [apply store_inv_stable | now apply store_inv_set].
Qed.

Lemma preserves_inv_loadAlarms {B} (k : list Alarm -> M B) :
  (forall alarms, Forall alarm_inv alarms -> preserves store_inv (k alarms)) ->
  preserves store_inv (bind loadAlarms k).
Proof.
  intros Hk w Hw. unfold bind. rewrite loadAlarms_run.
  apply Hk; [| exact Hw].
  destruct (hd false (faults w)); [constructor | exact Hw].
Qed.

Lemma assign_found_inv (alarmId : string) (g : Alarm -> Alarm) (alarms : list Alarm) :
  (forall a, alarm_inv (g a)) ->
  Forall alarm_inv alarms -> Forall alarm_inv (assign_found alarmId g alarms).
Proof.
  intros Hg. induction 1 as [|a l Ha Hl IH]; simpl; [constructor |].
  destruct (has_id alarmId a); constructor; auto.
Qed.

Lemma spread_inv (alarm : Alarm) (updates : AlarmPatch) :
  consistent_patch updates -> alarm_inv alarm -> alarm_inv (spread alarm updates).
Proof.
  unfold consistent_patch, alarm_inv, handle_set, spread. simpl.
  destruct (p_isActive updates) as [b|], (p_notificationId updates) as [[h|]|];
    simpl; intros Hc Ha; try contradiction; assumption.
Qed.

Lemma preserves_inv_addAlarm (alarm : AlarmInput) : preserves store_inv (addAlarm alarm).
Proof.
  unfold addAlarm.
  apply preserves_try_catch; [| apply preserves_throw].
  apply preserves_inv_loadAlarms. intros alarms Halarms.
  apply preserves_bind; [apply preserves_Date_now | intros now].
  apply preserves_bind; [apply preserves_scheduleAlarm, store_inv_stable | intros h].
  cbv zeta.
  apply preserves_bind; [| intros _; apply preserves_ret].
  apply preserves_inv_saveAlarms.
  apply Forall_app. split; [exact Halarms |].
  constructor; [reflexivity | constructor].
Qed.

Lemma preserves_inv_deleteAlarm (alarmId : string) : preserves store_inv (deleteAlarm alarmId).
Proof.
  unfold deleteAlarm.
  apply preserves_try_catch; [| apply preserves_throw].
  apply preserves_inv_loadAlarms. intros alarms Halarms. cbv zeta.
  apply preserves_bind; [| intros _].
  { destruct (List.find (has_id alarmId) alarms) as [a|]; [| apply preserves_ret].
    destruct (a_notificationId a); [| apply preserves_ret].
    apply preserves_cancelAlarm, store_inv_stable. }
  apply preserves_bind; [apply preserves_removeDismissalCode, store_inv_stable | intros _].
  apply preserves_inv_saveAlarms.
  clear -Halarms. induction Halarms as [|a l Ha Hl IH]; simpl; [constructor |].
  destruct (negb (has_id alarmId a)); [constructor |]; assumption.
Qed.

Lemma preserves_inv_updateAlarm (alarmId : string) (updates : AlarmPatch) :
  consistent_patch updates -> preserves store_inv (updateAlarm alarmId updates).
Proof.
  intros Hc. unfold updateAlarm.
  apply preserves_try_catch; [| apply preserves_throw].
  apply preserves_inv_loadAlarms. intros alarms Halarms. cbv zeta.
  apply preserves_inv_saveAlarms.
  induction Halarms as [|a l Ha Hl IH]; simpl; [constructor |].
  constructor; [| exact IH].
  destruct (has_id alarmId a); [now apply spread_inv | exact Ha].
Qed.

Lemma preserves_inv_toggleAlarm (alarmId : string) : preserves store_inv (toggleAlarm alarmId).
Proof.
  unfold toggleAlarm.
  apply preserves_try_catch; [| apply preserves_throw].
  apply preserves_inv_loadAlarms. intros alarms Halarms.
  destruct (List.find (has_id alarmId) alarms) as [a|]; [| apply preserves_ret].
  cbv zeta. destruct (negb (a_isActive a)).
  - apply preserves_bind_assoc.
    apply preserves_bind; [apply preserves_scheduleAlarm, store_inv_stable | intros h].
    apply preserves_bind_ret, preserves_inv_saveAlarms.
    apply assign_found_inv; [intros x; reflexivity | exact Halarms].
  - apply preserves_bind_assoc.
    apply preserves_bind; [| intros _].
    { destruct (a_notificationId a); [| apply preserves_ret].
      apply preserves_cancelAlarm, store_inv_stable. }
    apply preserves_bind_ret, preserves_inv_saveAlarms.
    apply assign_found_inv; [intros x; reflexivity | exact Halarms].
Qed.

(** ** Runs without faults *)

Lemma loadAlarms_quiet (w : World) :
  faults w = [] -> loadAlarms w = (Ok (alarmsItem w), w).
Proof. intros H. rewrite loadAlarms_run, H. simpl. now rewrite set_faults_same. Qed.

Lemma saveAlarms_quiet (alarms : list Alarm) (w : World) :
  faults w = [] ->
  saveAlarms alarms w = (Ok tt, emit (EvSetItem (VAlarms alarms)) (set_alarmsItem alarms w)).
Proof.
  intros H. unfold saveAlarms, try_catch, AsyncStorage.setItem_alarms.
  now rewrite external_quiet.
Qed.

Lemma loadDismissalCodes_quiet (w : World) :
  faults w = [] -> loadDismissalCodes w = (Ok (codesItem w), w).
Proof. intros H. rewrite loadDismissalCodes_run, H. simpl. now rewrite set_faults_same. Qed.

Lemma setItem_codes_quiet (codes : gmap string CodeData) (w : World) :
  faults w = [] ->
  AsyncStorage.setItem_codes codes w
  = (Ok tt, emit (EvSetItem (VCodes codes)) (set_codesItem codes w)).
Proof. intros H. unfold AsyncStorage.setItem_codes. now rewrite external_quiet. Qed.

Lemma removeDismissalCode_quiet (alarmId : string) (w : World) :
  faults w = [] ->
  removeDismissalCode alarmId w
  = (Ok tt, emit (EvSetItem (VCodes (delete alarmId (codesItem w))))
                 (set_codesItem (delete alarmId (codesItem w)) w)).
Proof.
  intros H. unfold removeDismissalCode, try_catch, bind.
  rewrite loadDismissalCodes_quiet by exact H.
  now rewrite setItem_codes_quiet.
Qed.

Lemma setupNotificationChannels_quiet (w : World) :
  faults w = [] -> setupNotificationChannels w = (Ok tt, w).
Proof.
  intros H. unfold setupNotificationChannels, Notifications.setNotificationChannelAsync.
  destruct (android w); [now rewrite external_quiet | reflexivity].
Qed.

Lemma scheduleAlarm_quiet (alarm : Alarm) (w : World) :
  faults w = [] ->
  scheduleAlarm alarm w = (Ok (Nid (nextId w)), after_schedule alarm w).
Proof.
  intros H. unfold scheduleAlarm, try_catch, bind.
  rewrite setupNotificationChannels_quiet by exact H.
  unfold Date_now, get_world, Notifications.scheduleNotificationAsync.
  now rewrite external_quiet.
Qed.

Lemma cancelAlarm_quiet (h : NotificationId) (w : World) :
  faults w = [] -> cancelAlarm (Some h) w = (Ok tt, after_cancel h w).
Proof.
  intros H. unfold cancelAlarm, try_catch, Notifications.cancelScheduledNotificationAsync.
  now rewrite external_quiet.
Qed.

Lemma updateAlarm_quiet (alarmId : string) (updates : AlarmPatch) (w : World) :
  faults w = [] ->
  let updatedAlarms :=
    List.map (fun alarm => if has_id alarmId alarm then spread alarm updates else alarm)
             (alarmsItem w) in
  updateAlarm alarmId updates w
  = (Ok tt, emit (EvSetItem (VAlarms updatedAlarms)) (set_alarmsItem updatedAlarms w)).
Proof.
  intros H. unfold updateAlarm, try_catch, bind.
  rewrite loadAlarms_quiet by exact H.
  now rewrite saveAlarms_quiet.
Qed.

Lemma stopAlarm_quiet (s : Session) (w : World) :
  faults w = [] -> stopAlarm s w = (Ok (stopped s), w).
Proof.
  intros H. unfold stopAlarm, stopped, try_catch, bind, Audio.pauseAsync, Audio.unloadAsync.
  destruct (s_audioPlayer s); [| reflexivity].
  rewrite external_quiet by exact H. unfold ret at 1. cbv beta iota.
  rewrite external_quiet by exact H. reflexivity.
Qed.

Lemma find_assign_found (alarmId : string) (g : Alarm -> Alarm) (alarms : list Alarm) (a : Alarm) :
  List.find (has_id alarmId) alarms = Some a ->
  has_id alarmId (g a) = true ->
  List.find (has_id alarmId) (assign_found alarmId g alarms) = Some (g a).
Proof.
  intros Hfind Hg. induction alarms as [|x l IH]; simpl in *; [discriminate |].
  destruct (has_id alarmId x) eqn:Hx.
  - injection Hfind as ->. simpl. now rewrite Hg.
  - simpl. rewrite Hx. now apply IH.
Qed.

Lemma not_scheduled_after_cancel (h : NotificationId) (w : World) :
  ~ In h (List.map fst (scheduled (after_cancel h w))).
Proof.
  unfold after_cancel. wsimpl. intros Hin.
  apply in_map_iff in Hin as [[h' r] [Heq Hin]]. simpl in Heq. subst h'.
  apply list_elem_of_In, list_elem_of_filter in Hin as [Hneq _]. simpl in Hneq.
  unfold nid_eqb in Hneq. rewrite Nat.eqb_refl in Hneq. exact Hneq.
Qed.

(** Toggling an inactive alarm on stores the handle the scheduler has just
    allocated; that handle had not been given out before. *)
Lemma toggleAlarm_on (alarmId : string) (a : Alarm) (w : World) :
  faults w = [] ->
  List.find (has_id alarmId) (alarmsItem w) = Some a ->
  a_isActive a = false ->
  exists w',
    toggleAlarm alarmId w = (Ok tt, w')
    /\ List.find (has_id alarmId) (alarmsItem w')
       = Some (set_isActive true (set_notificationId (Some (Nid (nextId w))) a))
    /\ In (Nid (nextId w)) (List.map fst (scheduled w'))
    /\ ~ handed_out w (Nid (nextId w))
    /\ handed_out w' (Nid (nextId w)).
Proof.
  intros Hq Hfind Hoff.
  unfold toggleAlarm, try_catch, bind.
  rewrite loadAlarms_quiet by exact Hq. rewrite Hfind, Hoff. cbn [negb]. cbv beta iota.
  rewrite scheduleAlarm_quiet by exact Hq. unfold ret at 1.
  rewrite saveAlarms_quiet by (wsimpl; exact Hq).
  eexists. split; [reflexivity |]. unfold after_schedule. wsimpl.
  split.
  { apply (find_assign_found alarmId
             (fun x => set_isActive true (set_notificationId (Some (Nid (nextId w))) x)));
      [exact Hfind |].
    apply find_some in Hfind as [_ Hid]. exact Hid. }
  split.
  { rewrite List.map_app. apply in_or_app. right. left. reflexivity. }
  unfold handed_out. simpl. split; lia.
Qed.

(** Toggling an active alarm off cancels its schedule and clears the
    handle. *)
Lemma toggleAlarm_off (alarmId : string) (a : Alarm) (h : NotificationId) (w : World) :
  faults w = [] ->
  List.find (has_id alarmId) (alarmsItem w) = Some a ->
  a_isActive a = true ->
  a_notificationId a = Some h ->
  exists w',
    toggleAlarm alarmId w = (Ok tt, w')
    /\ List.find (has_id alarmId) (alarmsItem w')
       = Some (set_isActive false (set_notificationId None a))
    /\ In (EvCancel h) (log w')
    /\ ~ In h (List.map fst (scheduled w')).
Proof.
  intros Hq Hfind Hon Hh.
  unfold toggleAlarm, try_catch, bind.
  rewrite loadAlarms_quiet by exact Hq. rewrite Hfind, Hon, Hh. cbn [negb]. cbv beta iota.
  rewrite cancelAlarm_quiet by exact Hq. unfold ret at 1.
  rewrite saveAlarms_quiet by (wsimpl; exact Hq).
  eexists. split; [reflexivity |]. wsimpl.
  change (log (after_cancel h w)) with (log w ++ [EvCancel h]).
  split.
  { apply (find_assign_found alarmId (fun x => set_isActive false (set_notificationId None x)));
      [exact Hfind |].
    apply find_some in Hfind as [_ Hid]. exact Hid. }
  split.
  { apply in_or_app. left. apply in_or_app. right. left. reflexivity. }
  apply (not_scheduled_after_cancel h w).
Qed.

(** C3 (as stated) fails: [updateAlarm] merges any patch into the record,
    so a patch that clears the flag alone leaves an inactive alarm with a
    schedule handle. *)
Lemma updateAlarm_breaks_invariant :
  store_inv demo_world
  /\ fst (updateAlarm "1" deactivate_only demo_world) = Ok tt
  /\ ~ store_inv (snd (updateAlarm "1" deactivate_only demo_world)).
Proof.
  split; [repeat constructor |].
  rewrite updateAlarm_quiet by reflexivity.
  split; [reflexivity |].
  unfold store_inv. simpl. intros H.
  inversion H as [|? ? Ha _]. discriminate Ha.
Qed.

(** The earlier store revision has no handle at all: its [toggleAlarm]
    turns an inactive alarm on without scheduling anything. *)
Lemma flag_only_toggle_breaks_invariant :
  let w := set_alarmsItem [set_isActive false (set_notificationId None demo_alarm)] demo_world in
  store_inv w /\ ~ store_inv (snd (FlagOnlyStorage.toggleAlarm "1" w)).
Proof.
  split; [repeat constructor |].
  unfold FlagOnlyStorage.toggleAlarm, try_catch, bind.
  rewrite loadAlarms_quiet by reflexivity.
  rewrite saveAlarms_quiet by reflexivity.
  unfold store_inv. simpl. intros H.
  inversion H as [|? ? Ha _]. discriminate Ha.
Qed.

(** C3 (amended). If [isActive == (notificationId != null)] holds for
    every stored alarm, it still holds after [addAlarm], [deleteAlarm] and
    [toggleAlarm], whichever of their external calls fail, and after
    [updateAlarm] when the patch sets the flag and the handle together and
    alike or sets neither. Without faults, toggling an inactive alarm on
    stores the handle the scheduler has just allocated, which had not been
    given out before, and toggling an active alarm off cancels its schedule
    and stores a null handle. *)
Theorem schedule_handle_invariant (w : World) :
  store_inv w ->
  (forall alarm, store_inv (snd (addAlarm alarm w)))
  /\ (forall alarmId, store_inv (snd (deleteAlarm alarmId w)))
  /\ (forall alarmId, store_inv (snd (toggleAlarm alarmId w)))
  /\ (forall alarmId updates,
        consistent_patch updates -> store_inv (snd (updateAlarm alarmId updates w)))
  /\ (forall alarmId a,
        faults w = [] ->
        List.find (has_id alarmId) (alarmsItem w) = Some a ->
        a_isActive a = false ->
        exists w',
          toggleAlarm alarmId w = (Ok tt, w')
          /\ List.find (has_id alarmId) (alarmsItem w')
             = Some (set_isActive true (set_notificationId (Some (Nid (nextId w))) a))
          /\ In (Nid (nextId w)) (List.map fst (scheduled w'))
          /\ ~ handed_out w (Nid (nextId w))
          /\ handed_out w' (Nid (nextId w)))
  /\ (forall alarmId a,
        faults w = [] ->
        List.find (has_id alarmId) (alarmsItem w) = Some a ->
        a_isActive a = true ->
        exists h w',
          a_notificationId a = Some h
          /\ toggleAlarm alarmId w = (Ok tt, w')
          /\ List.find (has_id alarmId) (alarmsItem w')
             = Some (set_isActive false (set_notificationId None a))
          /\ In (EvCancel h) (log w')
          /\ ~ In h (List.map fst (scheduled w'))).
Proof.
  intros Hinv.
  split; [intros alarm; now apply preserves_inv_addAlarm |].
  split; [intros alarmId; now apply preserves_inv_deleteAlarm |].
  split; [intros alarmId; now apply preserves_inv_toggleAlarm |].
  split; [intros alarmId updates Hc; now apply preserves_inv_updateAlarm |].
  split; [intros alarmId a; apply toggleAlarm_on |].
  intros alarmId a Hq Hfind Hon.
  assert (Ha : alarm_inv a).
  { apply find_some in Hfind as [Hin _].
    unfold store_inv in Hinv. rewrite Forall_forall in Hinv.
    apply Hinv, list_elem_of_In, Hin. }
  unfold alarm_inv, handle_set in Ha. rewrite Hon in Ha.
  destruct (a_notificationId a) as [h|] eqn:Hh; [| discriminate].
  destruct (toggleAlarm_off alarmId a h w Hq Hfind Hon Hh) as (w' & H1 & H2 & H3 & H4).
  exists h, w'. auto.
Qed.

Lemma schedule_handle_invariant_witness :
  store_inv demo_world
  /\ store_inv (snd (toggleAlarm "1" demo_world))
  /\ store_inv (snd (deleteAlarm "1" demo_world)).
Proof.
  assert (H : store_inv demo_world) by (repeat constructor).
  split; [exact H |].
  split; apply (schedule_handle_invariant demo_world H).
Defined.

(** ** The timing validator *)

(** Differences of whole minutes: [diff <= 1.5] is [diff <= 1]. *)
Lemma tolerance_whole_minutes (diff : Z) : Qle_bool (inject_Z diff) 1.5%Q = (diff <=? 1).
Proof.
  unfold Qle_bool. simpl.
  destruct (Z.leb_spec (diff * 10) 15), (Z.leb_spec diff 1); try reflexivity; lia.
Qed.

Lemma getAlarm_run (alarmId : string) (w : World) :
  hd false (faults w) = false ->
  getAlarm alarmId w
  = (Ok (List.find (has_id alarmId) (alarmsItem w)), set_faults (tl (faults w)) w).
Proof.
  intros H. unfold getAlarm, try_catch, bind. rewrite loadAlarms_run, H. reflexivity.
Qed.

Lemma validateAlarmTiming_once (alarmId : string) (a : Alarm) (w : World) :
  calls_succeed 1 w ->
  List.find (has_id alarmId) (alarmsItem w) = Some a ->
  a_isActive a = true ->
  a_frequency a = "once" ->
  fst (validateAlarmTiming alarmId w) = Ok true.
Proof.
  intros Hup Hfind Hon Hfreq. apply calls_succeed_hd in Hup.
  unfold validateAlarmTiming, try_catch, bind.
  rewrite getAlarm_run by exact Hup. rewrite Hfind, Hon, Hfreq. reflexivity.
Qed.

Lemma validateAlarmTiming_daily (alarmId : string) (a : Alarm) (w : World) :
  calls_succeed 1 w ->
  List.find (has_id alarmId) (alarmsItem w) = Some a ->
  a_isActive a = true ->
  a_frequency a = "daily" ->
  fst (validateAlarmTiming alarmId w)
  = Ok (Z.abs (minutesOfDay (tz w) (clock w) - minutesOfDay (tz w) (a_time a)) <=? 1).
Proof.
  intros Hup Hfind Hon Hfreq. apply calls_succeed_hd in Hup.
  unfold validateAlarmTiming, try_catch, bind.
  rewrite getAlarm_run by exact Hup. rewrite Hfind, Hon, Hfreq.
  cbn [negb String.eqb Ascii.eqb Bool.eqb andb]. unfold Date_now, get_world. cbv beta iota zeta.
  wsimpl. unfold ret. wsimpl. now rewrite tolerance_whole_minutes.
Qed.

(** C2 (as stated) fails: an active one-time alarm is reported due one hour
    after its time, outside every tolerance of at most 2 minutes. *)
Lemma once_alarm_due_an_hour_late :
  List.find (has_id "1") (alarmsItem an_hour_late) = Some demo_alarm
  /\ a_frequency demo_alarm = "once"
  /\ a_isActive demo_alarm = true
  /\ fst (validateAlarmTiming "1" an_hour_late) = Ok true
  /\ ~ (Z.abs (clock an_hour_late - a_time demo_alarm) <= 2 * JSDate.msPerMinute).
Proof.
  repeat split; try reflexivity.
  vm_compute. intros H. apply H. reflexivity.
Qed.

(** C2 (amended). For every stored alarm with frequency ['once'] and
    [isActive] true, [validateAlarmTiming] returns true whatever the
    current time is: the one-time branch compares no times (the read of
    the store succeeding). *)
Theorem validateAlarmTiming_once_always_due (alarmId : string) (a : Alarm) (w : World) :
  calls_succeed 1 w ->
  List.find (has_id alarmId) (alarmsItem w) = Some a ->
  a_isActive a = true ->
  a_frequency a = "once" ->
  forall now, fst (validateAlarmTiming alarmId (set_clock now w)) = Ok true.
Proof.
  intros Hup Hfind Hon Hfreq now.
  now apply (validateAlarmTiming_once alarmId a (set_clock now w)).
Qed.

Lemma validateAlarmTiming_once_always_due_witness :
  fst (validateAlarmTiming "1" (set_clock 1700000000000 demo_world)) = Ok true.
Proof.
  apply (validateAlarmTiming_once_always_due "1" demo_alarm demo_world).
  - apply calls_succeed_quiet. reflexivity.
  - reflexivity.
  - reflexivity.
  - reflexivity.
Defined.

(** C5 (as stated) fails: at 06:58 the daily 07:00 alarm is 2 minutes
    away, more than the 1.5 minutes the validator tolerates. *)
Lemma daily_0700_not_due_at_0658 :
  JSDate.getHours 0 (a_time daily_alarm) = 7
  /\ JSDate.getMinutes 0 (a_time daily_alarm) = 0
  /\ JSDate.getHours 0 (clock (daily_world_at 6 58)) = 6
  /\ JSDate.getMinutes 0 (clock (daily_world_at 6 58)) = 58
  /\ fst (validateAlarmTiming "7" (daily_world_at 6 58)) = Ok false.
Proof. repeat split; vm_compute; reflexivity. Qed.

(** C5 (amended). For an active daily alarm whose time of day is 07:00,
    the validator evaluated at 06:59 returns due, and evaluated at 06:58
    or at 06:55 returns not due: whole minutes are compared against a
    tolerance of 1.5 minutes. *)
Theorem validateAlarmTiming_daily_0700 (alarmId : string) (a : Alarm) (w : World) :
  calls_succeed 1 w ->
  List.find (has_id alarmId) (alarmsItem w) = Some a ->
  a_isActive a = true ->
  a_frequency a = "daily" ->
  JSDate.getHours (tz w) (a_time a) = 7 ->
  JSDate.getMinutes (tz w) (a_time a) = 0 ->
  JSDate.getHours (tz w) (clock w) = 6 ->
  (JSDate.getMinutes (tz w) (clock w) = 59 -> fst (validateAlarmTiming alarmId w) = Ok true)
  /\ (JSDate.getMinutes (tz w) (clock w) = 58 -> fst (validateAlarmTiming alarmId w) = Ok false)
  /\ (JSDate.getMinutes (tz w) (clock w) = 55 -> fst (validateAlarmTiming alarmId w) = Ok false).
Proof.
  intros Hup Hfind Hon Hfreq Hah Ham Hnh.
  rewrite (validateAlarmTiming_daily alarmId a w Hup Hfind Hon Hfreq).
  unfold minutesOfDay. rewrite Hah, Ham, Hnh.
  repeat split; intros ->; reflexivity.
Qed.

Lemma validateAlarmTiming_daily_0700_witness :
  fst (validateAlarmTiming "7" (daily_world_at 6 59)) = Ok true.
Proof.
  apply (validateAlarmTiming_daily_0700 "7" daily_alarm (daily_world_at 6 59)).
  - apply calls_succeed_quiet. reflexivity.
  - reflexivity.
  - reflexivity.
  - reflexivity.
  - reflexivity.
  - reflexivity.
  - reflexivity.
  - reflexivity.
Defined.

(** ** The scheduler *)


(** C6: switching the stale one-time alarm back on schedules its single
    fire one day after its time, which is one day before the current
    time. *)
Lemma stale_once_alarm_scheduled_in_the_past :
  exists w',
    toggleAlarm "1" two_days_later = (Ok tt, w')
    /\ scheduled w' = [(Nid 1, mkRequest "1" 5 (TDate (1000 + JSDate.msPerDay)))]
    /\ 1000 + JSDate.msPerDay < clock w'.
Proof. eexists. split; [vm_compute; reflexivity |]. split; reflexivity. Qed.

(** ** The dismissal session: order of effects *)

Lemma log_from_stable (l0 : list Event) : Stable (log_from l0).
Proof.
  split; intros; try assumption.
  destruct H as [evs H]. exists (evs ++ [e]). simpl. now rewrite H, app_assoc.
Qed.

Lemma log_from_set_alarms (l0 : list Event) (alarms : list Alarm) (w : World) :
  log_from l0 w -> log_from l0 (set_alarmsItem alarms w).
Proof. intros H. exact H. Qed.

Lemma preserves_log_updateAlarm (l0 : list Event) (alarmId : string) (updates : AlarmPatch) :
  preserves (log_from l0) (updateAlarm alarmId updates).
Proof.
  unfold updateAlarm.
  apply preserves_try_catch; [| apply preserves_throw].
  apply preserves_bind; [apply preserves_loadAlarms, log_from_stable | intros alarms].
  apply preserves_saveAlarms; [apply log_from_stable | apply log_from_set_alarms].
Qed.

#[export] Hint Resolve log_from_stable preserves_log_updateAlarm : pres.




(** ** The dismissal session: states *)

Lemma phase_ringing (w : World) (s : Session) :
  phase w s = Ringing <->
  reported AlertAlarmDismissed w = false
  /\ reported AlertAlarmTimeout w = false
  /\ s_vibrating s = true
  /\ s_timer s = true.
Proof.
  unfold phase.
  destruct (reported AlertAlarmDismissed w), (reported AlertAlarmTimeout w),
    (s_vibrating s), (s_timer s); simpl; split; intros H; try discriminate;
    try reflexivity; repeat split; destruct H as (? & ? & ? & ?); discriminate.
Qed.

Lemma reported_emit (a : AlertKind) (e : Event) (w : World) :
  reported a (emit e w) = reported a w || is_alert a e.
Proof.
  unfold reported. simpl. rewrite existsb_app. simpl. now rewrite orb_false_r.
Qed.

Lemma incrementCodeAttempts_quiet (alarmId : string) (record : CodeData) (w : World) :
  faults w = [] ->
  codesItem w !! alarmId = Some record ->
  let codes1 :=
    <[alarmId := with_attempts (default 0 (c_attempts record) + 1) record]> (codesItem w) in
  incrementCodeAttempts alarmId w
  = (Ok (default 0 (c_attempts record) + 1),
     emit (EvSetItem (VCodes codes1)) (set_codesItem codes1 w)).
Proof.
  intros Hq Hrec. unfold incrementCodeAttempts, try_catch, bind.
  rewrite loadDismissalCodes_quiet by exact Hq. rewrite Hrec.
  now rewrite setItem_codes_quiet.
Qed.

(** Past the cap the handler returns before it looks at the input. *)
Lemma handleSubmit_blocked (s : Session) (w : World) (record : CodeData) :
  faults w = [] ->
  codesItem w !! s_alarmId s = Some record ->
  5 < default 0 (c_attempts record) + 1 ->
  handleSubmit s w
  = (Ok (setAttempts (default 0 (c_attempts record) + 1) s),
     emit (EvAlert AlertMaximumAttemptsExceeded) (counted (s_alarmId s) record w)).
Proof.
  intros Hq Hrec Hcap. unfold handleSubmit. unfold bind at 1.
  rewrite (incrementCodeAttempts_quiet _ record) by assumption. cbv zeta.
  apply Z.gtb_lt in Hcap. rewrite Hcap. reflexivity.
Qed.

Lemma handleSubmit_mismatch (s : Session) (w : World) (record codeData : CodeData) :
  faults w = [] ->
  codesItem w !! s_alarmId s = Some record ->
  default 0 (c_attempts record) + 1 <= 5 ->
  s_dismissalCodeData s = Some codeData ->
  toUpperCase (trim (s_userInput s)) <> c_code codeData ->
  exists alert,
    handleSubmit s w
    = (Ok (setUserInput EmptyString (setAttempts (default 0 (c_attempts record) + 1) s)),
       emit (EvAlert alert) (counted (s_alarmId s) record w))
    /\ (alert = AlertTooManyFailedAttempts
        \/ alert = AlertIncorrectCode (5 - (default 0 (c_attempts record) + 1))).
Proof.
  intros Hq Hrec Hcap Hcode Hne. unfold handleSubmit. unfold bind at 1.
  rewrite (incrementCodeAttempts_quiet _ record) by assumption. cbv zeta.
  destruct (Z.gtb_spec (default 0 (c_attempts record) + 1) 5) as [Hgt | _]; [lia |].
  cbn [s_dismissalCodeData setAttempts s_userInput]. rewrite Hcode.
  apply String.eqb_neq in Hne. rewrite Hne.
  destruct (default 0 (c_attempts record) + 1 >=? 5);
    eexists; (split; [reflexivity |]); [left | right]; reflexivity.
Qed.

Lemma deactivate_once_quiet (alarmId : string) (alarm : option Alarm) (w : World) :
  faults w = [] ->
  exists w',
    deactivate_once alarmId alarm w = (Ok tt, w')
    /\ faults w' = []
    /\ codesItem w' = codesItem w
    /\ forall a, reported a w' = reported a w.
Proof.
  intros Hq. unfold deactivate_once.
  destruct alarm as [alarm|]; [| exists w; repeat split; assumption].
  destruct (String.eqb (a_frequency alarm) "once"); [| exists w; repeat split; assumption].
  unfold bind.
  destruct (a_notificationId alarm) as [h|].
  - rewrite cancelAlarm_quiet by exact Hq.
    rewrite updateAlarm_quiet by exact Hq. cbv zeta.
    eexists. split; [reflexivity |]. repeat split; [exact Hq |].
    intros a. unfold after_cancel, reported. wsimpl.
    rewrite !existsb_app. simpl. now rewrite !orb_false_r.
  - unfold ret at 1. rewrite updateAlarm_quiet by exact Hq. cbv zeta.
    eexists. split; [reflexivity |]. repeat split; [exact Hq |].
    intros a. unfold reported. wsimpl.
    rewrite !existsb_app. simpl. now rewrite !orb_false_r.
Qed.

Lemma handleSubmit_match (s : Session) (w : World) (record codeData : CodeData) :
  faults w = [] ->
  codesItem w !! s_alarmId s = Some record ->
  default 0 (c_attempts record) + 1 <= 5 ->
  s_dismissalCodeData s = Some codeData ->
  toUpperCase (trim (s_userInput s)) = c_code codeData ->
  exists w',
    handleSubmit s w
    = (Ok (stopped (setAttempts (default 0 (c_attempts record) + 1) s)), w')
    /\ reported AlertAlarmDismissed w' = true
    /\ codesItem w' !! s_alarmId s = None.
Proof.
  intros Hq Hrec Hcap Hcode Heq. unfold handleSubmit. unfold bind at 1.
  rewrite (incrementCodeAttempts_quiet _ record) by assumption. cbv zeta.
  destruct (Z.gtb_spec (default 0 (c_attempts record) + 1) 5) as [Hgt | _]; [lia |].
  cbn [s_dismissalCodeData setAttempts s_userInput s_alarmId]. rewrite Hcode, Heq.
  rewrite String.eqb_refl.
  unfold bind at 1. rewrite stopAlarm_quiet by exact Hq.
  unfold bind at 1. rewrite removeDismissalCode_quiet by exact Hq.
  match goal with
  | |- context [bind ?m _ ?w0] =>
      change m with (deactivate_once (s_alarmId s) (s_alarm (stopped (setAttempts
                       (default 0 (c_attempts record) + 1) s))));
      destruct (deactivate_once_quiet (s_alarmId s)
                  (s_alarm (stopped (setAttempts (default 0 (c_attempts record) + 1) s))) w0)
        as (w2 & Hrun & Hq2 & Hcodes2 & Hrep2); [exact Hq |]
  end.
  unfold bind at 1. rewrite Hrun.
  eexists. split; [reflexivity |]. split.
  - rewrite reported_emit. simpl. apply orb_true_r.
  - wsimpl. rewrite Hcodes2. wsimpl. apply lookup_delete_eq.
Qed.

(** C1 (as stated) fails: after five wrong submissions the session is
    still ringing with [attempts] at 5, and the submission of the correct
    code that follows is the sixth attempt: the handler reports that the
    maximum is exceeded and the session stays ringing. *)
Lemma scenarioC_correct_code_after_cap_is_blocked :
  phase_of scenarioC_started = Some Ringing
  /\ stored_attempts "1" scenarioC_started = Some 0
  /\ phase_of scenarioC_five_wrong = Some Ringing
  /\ stored_attempts "1" scenarioC_five_wrong = Some 5
  /\ toUpperCase (trim (shown_code scenarioC_started)) = shown_code scenarioC_five_wrong
  /\ isValidCode (shown_code scenarioC_five_wrong) = true
  /\ phase_of scenarioC_then_correct = Some Ringing
  /\ phase_of scenarioC_then_correct <> Some Success
  /\ List.last (log (snd scenarioC_then_correct)) (EvNavigate EmptyString)
     = EvAlert AlertMaximumAttemptsExceeded.
Proof. repeat split; try (vm_compute; reflexivity). vm_compute. discriminate. Qed.

(** C1 (amended). In a ringing session whose code record is stored, and
    without faults: a submission that is attempt number 6 or more is
    answered with "Maximum Attempts Exceeded" whatever the input is, and
    leaves the session ringing with the attempt counted; a submission that
    is attempt number 5 or less succeeds when the trimmed, uppercased input
    equals the code (the ringing stops, the code record is deleted, the
    session is in Success), and otherwise leaves the session ringing with
    the attempt counted. No submission ends the session other than by
    success. *)
Theorem handleSubmit_attempt_cap
    (s : Session) (w : World) (record codeData : CodeData) :
  faults w = [] ->
  phase w s = Ringing ->
  codesItem w !! s_alarmId s = Some record ->
  s_dismissalCodeData s = Some codeData ->
  (5 < next_attempt record ->
   exists s' w',
     handleSubmit s w = (Ok s', w')
     /\ phase w' s' = Ringing
     /\ s_attempts s' = next_attempt record
     /\ codesItem w' !! s_alarmId s = Some (with_attempts (next_attempt record) record)
     /\ List.last (log w') (EvNavigate EmptyString) = EvAlert AlertMaximumAttemptsExceeded)
  /\ (next_attempt record <= 5 ->
      toUpperCase (trim (s_userInput s)) = c_code codeData ->
      exists s' w',
        handleSubmit s w = (Ok s', w')
        /\ phase w' s' = Success
        /\ s_vibrating s' = false
        /\ s_isPlaying s' = false
        /\ codesItem w' !! s_alarmId s = None)
  /\ (next_attempt record <= 5 ->
      toUpperCase (trim (s_userInput s)) <> c_code codeData ->
      exists s' w',
        handleSubmit s w = (Ok s', w')
        /\ phase w' s' = Ringing
        /\ s_attempts s' = next_attempt record
        /\ codesItem w' !! s_alarmId s = Some (with_attempts (next_attempt record) record)).
Proof.
  intros Hq Hphase Hrec Hcode.
  apply phase_ringing in Hphase as (Hd & Ht & Hv & Htimer).
  unfold next_attempt. repeat split.
  - intros Hcap. rewrite (handleSubmit_blocked s w record Hq Hrec Hcap).
    eexists _, _. split; [reflexivity |]. repeat split.
    + apply phase_ringing. unfold counted, reported in *. wsimpl.
      rewrite !existsb_app, Hd, Ht. simpl. auto.
    + unfold counted. wsimpl. apply lookup_insert_eq.
    + unfold counted. wsimpl. now rewrite List.last_last.
  - intros Hcap Heq.
    destruct (handleSubmit_match s w record codeData Hq Hrec Hcap Hcode Heq)
      as (w' & Hrun & Hrep & Hgone).
    eexists _, w'. split; [exact Hrun |]. repeat split.
    + unfold phase. now rewrite Hrep.
    + exact Hgone.
  - intros Hcap Hne.
    destruct (handleSubmit_mismatch s w record codeData Hq Hrec Hcap Hcode Hne)
      as (alert & Hrun & Halert).
    eexists _, _. split; [exact Hrun |]. repeat split.
    + apply phase_ringing. unfold counted, reported in *. wsimpl.
      rewrite !existsb_app, Hd, Ht.
      destruct Halert as [-> | ->]; simpl; auto.
    + unfold counted. wsimpl. apply lookup_insert_eq.
Qed.

Lemma handleSubmit_attempt_cap_witness :
  exists s' w',
    handleSubmit (setUserInput " ab12cd34 " ringing_session) ringing_world = (Ok s', w')
    /\ phase w' s' = Success
    /\ s_vibrating s' = false
    /\ s_isPlaying s' = false
    /\ codesItem w' !! "1" = None.
Proof.
  apply (handleSubmit_attempt_cap (setUserInput " ab12cd34 " ringing_session) ringing_world
           demo_code demo_code).
  - reflexivity.
  - reflexivity.
  - vm_compute. reflexivity.
  - reflexivity.
  - vm_compute. discriminate.
  - reflexivity.
Defined.

(** ** The countdown *)

Lemma setTimeRemaining_same (s : Session) : setTimeRemaining (s_timeRemaining s) s = s.
Proof. now destruct s. Qed.

Lemma stopped_setTimeRemaining (t : Z) (s : Session) :
  setTimeRemaining 0 (stopped (setTimeRemaining t s)) = setTimeRemaining 0 (stopped s).
Proof. unfold stopped. simpl. now destruct (s_audioPlayer s). Qed.

Lemma tick_running (s : Session) (w : World) :
  s_timer s = true ->
  1 < s_timeRemaining s ->
  tick s w = (Ok (setTimeRemaining (s_timeRemaining s - 1) s), w).
Proof.
  intros Ht Hr. unfold tick. rewrite Ht.
  destruct (Z.leb_spec (s_timeRemaining s) 1); [lia | reflexivity].
Qed.

Lemma tick_final (s : Session) (w : World) :
  faults w = [] ->
  s_timer s = true ->
  s_timeRemaining s <= 1 ->
  tick s w = (Ok (setTimeRemaining 0 (stopped s)), emit (EvAlert AlertAlarmTimeout) w).
Proof.
  intros Hq Ht Hr. unfold tick. rewrite Ht.
  destruct (Z.leb_spec (s_timeRemaining s) 1); [| lia].
  unfold handleTimeout, bind. now rewrite stopAlarm_quiet.
Qed.

Lemma countdown_running (k : nat) :
  forall (s : Session) (w : World),
    s_timer s = true ->
    Z.of_nat k < s_timeRemaining s ->
    countdown k s w = (Ok (setTimeRemaining (s_timeRemaining s - Z.of_nat k) s), w).
Proof.
  induction k as [|k IH]; intros s w Ht Hr.
  - simpl. rewrite Z.sub_0_r, setTimeRemaining_same. reflexivity.
  - cbn [countdown]. unfold bind. rewrite tick_running by (assumption || lia).
    rewrite IH by (simpl; assumption || lia).
    replace (s_timeRemaining s - Z.of_nat (S k)) with (s_timeRemaining s - 1 - Z.of_nat k)
      by lia.
    reflexivity.
Qed.

Lemma countdown_expires (n : nat) :
  forall (s : Session) (w : World),
    faults w = [] ->
    s_timer s = true ->
    s_timeRemaining s = Z.of_nat (S n) ->
    countdown (S n) s w
    = (Ok (setTimeRemaining 0 (stopped s)), emit (EvAlert AlertAlarmTimeout) w).
Proof.
  induction n as [|n IH]; intros s w Hq Ht Hr.
  - cbn [countdown]. unfold bind. rewrite tick_final by (assumption || lia). reflexivity.
  - change (countdown (S (S n)) s w) with (bind (tick s) (countdown (S n)) w).
    unfold bind. rewrite tick_running by (assumption || lia).
    rewrite IH by (simpl; assumption || lia).
    now rewrite stopped_setTimeRemaining.
Qed.

Lemma handleTimeout_onPress_quiet (s : Session) (w : World) :
  faults w = [] ->
  handleTimeout_onPress s w
  = (Ok s, emit (EvNavigate "AlarmList")
             (emit (EvSetItem (VCodes (delete (s_alarmId s) (codesItem w))))
                   (set_codesItem (delete (s_alarmId s) (codesItem w)) w))).
Proof.
  intros Hq. unfold handleTimeout_onPress, bind.
  now rewrite removeDismissalCode_quiet.
Qed.

(** C4 (as stated) fails: after the timeout of a ringing session, alert
    acknowledged, a one-time alarm is still active and still holds its
    schedule handle, and for a weekly alarm the scheduler has been asked
    nothing: its schedule is neither cancelled nor created anew. *)
Lemma timeout_applies_no_policy :
  (phase ringing_world last_second = Ringing
   /\ phase_of (tick last_second ringing_world) = Some TimedOut
   /\ alarmsItem (snd (timed_out last_second ringing_world)) = [demo_alarm]
   /\ a_frequency demo_alarm = "once"
   /\ a_isActive demo_alarm = true
   /\ a_notificationId demo_alarm = Some (Nid 0))
  /\ (phase weekly_world weekly_last_second = Ringing
      /\ phase_of (timed_out weekly_last_second weekly_world) = Some TimedOut
      /\ existsb touches_schedule (log (snd (timed_out weekly_last_second weekly_world))) = false
      /\ scheduled (snd (timed_out weekly_last_second weekly_world)) = scheduled weekly_world
      /\ nextId (snd (timed_out weekly_last_second weekly_world)) = nextId weekly_world).
Proof. repeat split; vm_compute; reflexivity. Qed.

(** C4 (amended). In a ringing session with [n + 1] seconds left and
    without faults, the session keeps ringing during the first [n] seconds
    and the next firing of the timer takes it to TimedOut: the audio and
    the vibration are stopped and the timeout is reported. When the alert
    is acknowledged the code record of the alarm is deleted. An alarm that
    is not one-time keeps its record and its schedule as they were: it
    stays active with the same handle, and nothing is cancelled or
    scheduled for it. *)
Theorem countdown_timeout (n : nat) (s : Session) (w : World) :
  faults w = [] ->
  phase w s = Ringing ->
  s_timeRemaining s = Z.of_nat (S n) ->
  (forall k, (k <= n)%nat ->
     exists s', countdown k s w = (Ok s', w) /\ phase w s' = Ringing)
  /\ exists s1 w1,
       countdown (S n) s w = (Ok s1, w1)
       /\ phase w1 s1 = TimedOut
       /\ s_isPlaying s1 = false
       /\ s_vibrating s1 = false
       /\ s_audioPlayer s1 = false
       /\ s_timeRemaining s1 = 0
       /\ exists s2 w2,
            handleTimeout_onPress s1 w1 = (Ok s2, w2)
            /\ phase w2 s2 = TimedOut
            /\ codesItem w2 !! s_alarmId s = None
            /\ forall a,
                 In a (alarmsItem w) ->
                 a_frequency a <> "once" ->
                 In a (alarmsItem w2)
                 /\ forall h r,
                      r_alarmId r = a_id a ->
                      (In (h, r) (scheduled w2) <-> In (h, r) (scheduled w)).
Proof.
  intros Hq Hphase Hr.
  apply phase_ringing in Hphase as (Hd & Ht & Hv & Htimer).
  split.
  - intros k Hk. eexists. split.
    + apply countdown_running; [exact Htimer | lia].
    + apply phase_ringing. repeat split; assumption.
  - eexists _, _. split; [now apply countdown_expires |].
    assert (Hto : phase (emit (EvAlert AlertAlarmTimeout) w) (setTimeRemaining 0 (stopped s))
                  = TimedOut).
    { unfold phase. rewrite !reported_emit, Hd, Ht. reflexivity. }
    split; [exact Hto |].
    split; [reflexivity |]. split; [reflexivity |].
    split; [unfold stopped; destruct (s_audioPlayer s) eqn:E; simpl; [reflexivity | exact E] |].
    split; [reflexivity |].
    eexists _, _. split; [now apply handleTimeout_onPress_quiet |].
    split.
    { unfold phase, reported in *. wsimpl. rewrite !existsb_app, Hd, Ht. reflexivity. }
    split.
    { wsimpl. unfold stopped. simpl. destruct (s_audioPlayer s); apply lookup_delete_eq. }
    intros a Hin Hfreq. split; [exact Hin |]. intros h r _. reflexivity.
Qed.

Lemma countdown_timeout_witness :
  exists s1 w1,
    countdown 300 ringing_session ringing_world = (Ok s1, w1)
    /\ phase w1 s1 = TimedOut
    /\ s_isPlaying s1 = false
    /\ s_vibrating s1 = false
    /\ s_audioPlayer s1 = false
    /\ s_timeRemaining s1 = 0
    /\ exists s2 w2,
         handleTimeout_onPress s1 w1 = (Ok s2, w2)
         /\ phase w2 s2 = TimedOut
         /\ codesItem w2 !! s_alarmId ringing_session = None
         /\ forall a,
              In a (alarmsItem ringing_world) ->
              a_frequency a <> "once" ->
              In a (alarmsItem w2)
              /\ forall h r,
                   r_alarmId r = a_id a ->
                   (In (h, r) (scheduled w2) <-> In (h, r) (scheduled ringing_world)).
Proof.
  apply (countdown_timeout 299 ringing_session ringing_world).
  - reflexivity.
  - reflexivity.
  - reflexivity.
Defined.

(** * Further properties of the services *)

(** ** AlarmStorage: alarms *)

Lemma alarms_are_stable (alarms : list Alarm) : Stable (alarms_are alarms).
Proof. split; intros; assumption. Qed.

#[export] Hint Resolve alarms_are_stable : pres.

Lemma find_app_fresh (alarmId : string) (alarms : list Alarm) (a : Alarm) :
  (forall x, In x alarms -> a_id x <> alarmId) ->
  a_id a = alarmId ->
  List.find (has_id alarmId) (alarms ++ [a]) = Some a.
Proof.
  intros Hfresh Hid. induction alarms as [|x l IH]; simpl.
  - unfold has_id. rewrite Hid, String.eqb_refl. reflexivity.
  - assert (Hx : has_id alarmId x = false).
    { unfold has_id. apply String.eqb_neq, Hfresh. now left. }
    rewrite Hx. apply IH. intros y Hy. apply Hfresh. now right.
Qed.

(** X1. Without faults [addAlarm] returns the new alarm, made of the given
    data, active, with the handle the scheduler has just allocated and the
    current time as its id; it is appended to the stored alarms, its
    notification is pending, and when no stored alarm had that id
    [getAlarm] on the id returns it. *)
Theorem addAlarm_stores_alarm (alarm : AlarmInput) (w : World) :
  faults w = [] ->
  exists newAlarm w',
    addAlarm alarm w = (Ok newAlarm, w')
    /\ newAlarm
       = mkAlarm (NilZero.string_of_int (Z.to_int (clock w))) (i_time alarm) (i_label alarm)
                 (i_frequency alarm) (i_duration alarm) true (Some (Nid (nextId w))) (clock w)
    /\ alarmsItem w' = alarmsItem w ++ [newAlarm]
    /\ scheduled w' = scheduled w ++ [(Nid (nextId w), request_of w newAlarm)]
    /\ ~ handed_out w (Nid (nextId w))
    /\ ((forall x, In x (alarmsItem w) -> a_id x <> a_id newAlarm) ->
        fst (getAlarm (a_id newAlarm) w') = Ok (Some newAlarm)).
Proof.
  intros Hq. unfold addAlarm, try_catch, bind.
  rewrite loadAlarms_quiet by exact Hq. unfold Date_now.
  rewrite scheduleAlarm_quiet by exact Hq.
  rewrite saveAlarms_quiet by exact Hq.
  eexists _, _. split; [reflexivity |].
  split; [reflexivity |]. split; [reflexivity |]. split; [reflexivity |].
  split; [unfold handed_out; simpl; lia |].
  intros Hfresh. unfold getAlarm, try_catch, bind.
  rewrite loadAlarms_quiet by exact Hq. unfold ret. cbn [fst]. f_equal.
  apply find_app_fresh; [exact Hfresh | reflexivity].
Qed.

Lemma addAlarm_stores_alarm_witness :
  exists newAlarm w',
    addAlarm (mkAlarmInput 9000 "gym" "daily" 10) demo_world = (Ok newAlarm, w')
    /\ newAlarm = mkAlarm "500" 9000 "gym" "daily" 10 true (Some (Nid 1)) 500
    /\ alarmsItem w' = alarmsItem demo_world ++ [newAlarm]
    /\ scheduled w' = scheduled demo_world ++ [(Nid 1, request_of demo_world newAlarm)]
    /\ ~ handed_out demo_world (Nid 1)
    /\ ((forall x, In x (alarmsItem demo_world) -> a_id x <> a_id newAlarm) ->
        fst (getAlarm (a_id newAlarm) w') = Ok (Some newAlarm)).
Proof.
  apply (addAlarm_stores_alarm (mkAlarmInput 9000 "gym" "daily" 10) demo_world).
  reflexivity.
Defined.

Lemma saveAlarms_throw (alarms : list Alarm) (w w' : World) :
  saveAlarms alarms w = (Throw, w') -> alarmsItem w' = alarmsItem w.
Proof.
  unfold saveAlarms, try_catch, AsyncStorage.setItem_alarms, external, modify, throw.
  destruct (hd false (faults w)); [| discriminate].
  intros [= <-]. reflexivity.
Qed.

(** X2. Whenever [addAlarm] throws, whichever call failed, the stored
    alarms are left exactly as they were. *)
Theorem addAlarm_throw_keeps_store (alarm : AlarmInput) (w w' : World) :
  addAlarm alarm w = (Throw, w') -> alarmsItem w' = alarmsItem w.
Proof.
  unfold addAlarm, try_catch, bind. rewrite loadAlarms_run. unfold Date_now. wsimpl.
  match goal with
  | |- context [scheduleAlarm ?a ?w1] =>
      pose proof (preserves_scheduleAlarm _ (alarms_are_stable (alarmsItem w)) a w1 eq_refl)
        as Hs;
      destruct (scheduleAlarm a w1) as [[h|] w2]
  end; unfold alarms_are in Hs; simpl in Hs.
  - match goal with
    | |- context [saveAlarms ?l w2] => destruct (saveAlarms l w2) as [[u|] w3] eqn:Hsave
    end; [discriminate |].
    unfold throw. intros [= <-]. apply saveAlarms_throw in Hsave. congruence.
  - unfold throw. intros [= <-]. exact Hs.
Qed.

Lemma addAlarm_throw_keeps_store_witness :
  alarmsItem (snd (addAlarm (mkAlarmInput 9000 "gym" "daily" 10)
                            (set_faults [false; false; false; true] demo_world)))
  = alarmsItem (set_faults [false; false; false; true] demo_world).
Proof.
  apply (addAlarm_throw_keeps_store (mkAlarmInput 9000 "gym" "daily" 10)).
  vm_compute. reflexivity.
Defined.

Lemma calls_succeed_weaken (n m : nat) (w : World) :
  (n <= m)%nat -> calls_succeed m w -> calls_succeed n w.
Proof. intros Hnm H k Hk. apply H. lia. Qed.

Lemma calls_succeed_same_faults (n : nat) (w w' : World) :
  faults w' = faults w -> calls_succeed n w -> calls_succeed n w'.
Proof. intros Hf H k Hk. rewrite Hf. now apply H. Qed.

(** When its two platform calls succeed, [scheduleAlarm] returns the next
    handle and touches nothing but the platform and the fault script. *)
Lemma scheduleAlarm_succeeds (n : nat) (alarm : Alarm) (w : World) :
  calls_succeed (S (S n)) w ->
  exists w',
    scheduleAlarm alarm w = (Ok (Nid (nextId w)), w')
    /\ alarmsItem w' = alarmsItem w
    /\ codesItem w' = codesItem w
    /\ clock w' = clock w
    /\ scheduled w' = scheduled w ++ [(Nid (nextId w), request_of w alarm)]
    /\ nextId w' = S (nextId w)
    /\ calls_succeed n w'.
Proof.
  intros Hup.
  pose proof (calls_succeed_hd _ _ Hup) as H1.
  pose proof (calls_succeed_tl _ _ Hup) as Hup1.
  pose proof (calls_succeed_hd _ _ Hup1) as H2.
  pose proof (calls_succeed_tl _ _ Hup1) as Hup2.
  unfold scheduleAlarm, try_catch, bind, setupNotificationChannels,
    Notifications.setNotificationChannelAsync.
  destruct (android w) eqn:Hand.
  - rewrite external_ok by exact H1. unfold ret at 1. unfold Date_now, get_world.
    unfold Notifications.scheduleNotificationAsync. rewrite external_ok by exact H2.
    eexists. split; [reflexivity |]. repeat split. exact Hup2.
  - unfold Date_now, get_world, Notifications.scheduleNotificationAsync.
    rewrite external_ok by exact H1.
    eexists. split; [reflexivity |]. repeat split.
    apply (calls_succeed_weaken n (S n)); [lia | exact Hup1].
Qed.

Lemma saveAlarms_succeeds (n : nat) (alarms : list Alarm) (w : World) :
  calls_succeed (S n) w ->
  exists w',
    saveAlarms alarms w = (Ok tt, w')
    /\ alarmsItem w' = alarms
    /\ codesItem w' = codesItem w
    /\ scheduled w' = scheduled w
    /\ calls_succeed n w'.
Proof.
  intros Hup. pose proof (calls_succeed_hd _ _ Hup) as H1.
  unfold saveAlarms, try_catch, AsyncStorage.setItem_alarms.
  rewrite external_ok by exact H1.
  eexists. split; [reflexivity |]. repeat split.
  exact (calls_succeed_tl _ _ Hup).
Qed.

(** X3. [loadAlarms] answers a failed read with the empty array, and
    [addAlarm] saves what it loaded plus the new alarm: when the read of
    the stored alarms fails and the calls after it succeed, [addAlarm]
    returns normally and the store holds the new alarm alone, whatever it
    held before. *)
Theorem addAlarm_after_failed_read (alarm : AlarmInput) (w : World) :
  hd false (faults w) = true ->
  calls_succeed 3 (set_faults (tl (faults w)) w) ->
  exists newAlarm w',
    addAlarm alarm w = (Ok newAlarm, w')
    /\ alarmsItem w' = [newAlarm]
    /\ a_isActive newAlarm = true
    /\ a_notificationId newAlarm = Some (Nid (nextId w)).
Proof.
  intros Hfail Hup. unfold addAlarm, try_catch, bind.
  rewrite loadAlarms_run, Hfail. unfold Date_now.
  match goal with
  | |- context [scheduleAlarm ?a ?w1] =>
      destruct (scheduleAlarm_succeeds 1 a w1 Hup) as (w2 & Hrun & _ & _ & _ & _ & _ & Hup2)
  end.
  rewrite Hrun.
  match goal with
  | |- context [saveAlarms ?l w2] =>
      destruct (saveAlarms_succeeds 0 l w2 Hup2) as (w3 & Hsave & Hal & _)
  end.
  rewrite Hsave. eexists _, _. split; [reflexivity |].
  split; [exact Hal |]. split; reflexivity.
Qed.

Lemma addAlarm_after_failed_read_witness :
  exists newAlarm w',
    addAlarm (mkAlarmInput 9000 "gym" "daily" 10) (set_faults [true] demo_world)
    = (Ok newAlarm, w')
    /\ alarmsItem w' = [newAlarm]
    /\ a_isActive newAlarm = true
    /\ a_notificationId newAlarm = Some (Nid (nextId (set_faults [true] demo_world))).
Proof.
  apply (addAlarm_after_failed_read (mkAlarmInput 9000 "gym" "daily" 10)
           (set_faults [true] demo_world)).
  - reflexivity.
  - apply calls_succeed_quiet. reflexivity.
Defined.

(** ** AlarmStorage: deletion, update, toggle *)

Lemma find_filter_out (alarmId : string) (alarms : list Alarm) :
  List.find (has_id alarmId) (List.filter (fun a => negb (has_id alarmId a)) alarms) = None.
Proof.
  induction alarms as [|x l IH]; simpl; [reflexivity |].
  destruct (has_id alarmId x) eqn:Hx; simpl; [exact IH |].
  now rewrite Hx.
Qed.

(** X4. Without faults [deleteAlarm] removes every stored alarm with the
    given id and keeps the others in their order, cancels the schedule of
    the alarm it found, and removes the code record of the id; a later
    [getAlarm] on the id returns nothing. *)
Theorem deleteAlarm_removes (alarmId : string) (w : World) :
  faults w = [] ->
  exists w',
    deleteAlarm alarmId w = (Ok tt, w')
    /\ alarmsItem w' = List.filter (fun a => negb (has_id alarmId a)) (alarmsItem w)
    /\ codesItem w' = delete alarmId (codesItem w)
    /\ fst (getAlarm alarmId w') = Ok None
    /\ (forall a h,
          List.find (has_id alarmId) (alarmsItem w) = Some a ->
          a_notificationId a = Some h ->
          In (EvCancel h) (log w') /\ ~ In h (List.map fst (scheduled w'))).
Proof.
  intros Hq. unfold deleteAlarm, try_catch, bind.
  rewrite loadAlarms_quiet by exact Hq.
  destruct (List.find (has_id alarmId) (alarmsItem w)) as [a|] eqn:Hfind.
  - destruct (a_notificationId a) as [h|] eqn:Hh.
    + rewrite cancelAlarm_quiet by exact Hq.
      rewrite removeDismissalCode_quiet by exact Hq.
      rewrite saveAlarms_quiet by exact Hq.
      eexists. split; [reflexivity |]. split; [reflexivity |]. split; [reflexivity |].
      split.
      { unfold getAlarm, try_catch, bind. rewrite loadAlarms_quiet by exact Hq.
        unfold ret. cbn [fst]. f_equal. wsimpl. apply find_filter_out. }
      intros a' h' [= <-] Hh'. rewrite Hh in Hh'. injection Hh' as <-. split.
      * wsimpl. change (log (after_cancel h w)) with (log w ++ [EvCancel h]).
        apply in_or_app. left. apply in_or_app. left. apply in_or_app. right. now left.
      * apply (not_scheduled_after_cancel h w).
    + unfold ret at 1. rewrite removeDismissalCode_quiet by exact Hq.
      rewrite saveAlarms_quiet by exact Hq.
      eexists. split; [reflexivity |]. split; [reflexivity |]. split; [reflexivity |].
      split.
      { unfold getAlarm, try_catch, bind. rewrite loadAlarms_quiet by exact Hq.
        unfold ret. cbn [fst]. f_equal. wsimpl. apply find_filter_out. }
      intros a' h' [= <-] Hh'. congruence.
  - unfold ret at 1. rewrite removeDismissalCode_quiet by exact Hq.
    rewrite saveAlarms_quiet by exact Hq.
    eexists. split; [reflexivity |]. split; [reflexivity |]. split; [reflexivity |].
    split.
    { unfold getAlarm, try_catch, bind. rewrite loadAlarms_quiet by exact Hq.
      unfold ret. cbn [fst]. f_equal. wsimpl. apply find_filter_out. }
    intros a' h' Hfalse. discriminate.
Qed.

Lemma deleteAlarm_removes_witness :
  exists w',
    deleteAlarm "1" ringing_world = (Ok tt, w')
    /\ alarmsItem w' = List.filter (fun a => negb (has_id "1" a)) (alarmsItem ringing_world)
    /\ codesItem w' = delete "1" (codesItem ringing_world)
    /\ fst (getAlarm "1" w') = Ok None
    /\ (forall a h,
          List.find (has_id "1") (alarmsItem ringing_world) = Some a ->
          a_notificationId a = Some h ->
          In (EvCancel h) (log w') /\ ~ In h (List.map fst (scheduled w'))).
Proof. apply (deleteAlarm_removes "1" ringing_world). reflexivity. Defined.

Lemma has_id_spread (alarmId : string) (x : Alarm) (updates : AlarmPatch) :
  p_id updates = None -> has_id alarmId (spread x updates) = has_id alarmId x.
Proof. intros H. unfold has_id, spread. simpl. now rewrite H. Qed.

Lemma find_map_spread (alarmId other : string) (updates : AlarmPatch) (alarms : list Alarm) :
  p_id updates = None ->
  List.find (has_id other)
    (List.map (fun x => if has_id alarmId x then spread x updates else x) alarms)
  = match List.find (has_id other) alarms with
    | Some a => Some (if has_id alarmId a then spread a updates else a)
    | None => None
    end.
Proof.
  intros Hp. induction alarms as [|x l IH]; simpl; [reflexivity |].
  destruct (has_id alarmId x) eqn:Hx.
  - rewrite has_id_spread by exact Hp.
    destruct (has_id other x); [now rewrite Hx | exact IH].
  - destruct (has_id other x); [now rewrite Hx | exact IH].
Qed.

Lemma has_id_other (alarmId other : string) (a : Alarm) :
  other <> alarmId -> has_id other a = true -> has_id alarmId a = false.
Proof.
  unfold has_id. intros Hne Ho. apply String.eqb_eq in Ho. apply String.eqb_neq. congruence.
Qed.

(** X5. A read that follows an update sees it: without faults, after
    [updateAlarm alarmId updates] with a patch that leaves the id alone,
    [getAlarm alarmId] returns the alarm it returned before with the patch
    merged over it, [getAlarm] on any other id returns what it returned
    before, and the number of stored alarms is unchanged. *)
Theorem updateAlarm_then_getAlarm (alarmId : string) (updates : AlarmPatch) (w : World) :
  faults w = [] ->
  p_id updates = None ->
  exists w',
    updateAlarm alarmId updates w = (Ok tt, w')
    /\ fst (getAlarm alarmId w')
       = Ok (option_map (fun a => spread a updates) (List.find (has_id alarmId) (alarmsItem w)))
    /\ (forall other, other <> alarmId -> fst (getAlarm other w') = fst (getAlarm other w))
    /\ length (alarmsItem w') = length (alarmsItem w).
Proof.
  intros Hq Hp. rewrite updateAlarm_quiet by exact Hq. cbv zeta.
  eexists. split; [reflexivity |]. split; [| split].
  - unfold getAlarm, try_catch, bind. rewrite loadAlarms_quiet by exact Hq.
    unfold ret. cbn [fst]. wsimpl. rewrite find_map_spread by exact Hp.
    destruct (List.find (has_id alarmId) (alarmsItem w)) as [a|] eqn:Hfind; [| reflexivity].
    apply find_some in Hfind as [_ Hid]. now rewrite Hid.
  - intros other Hne. unfold getAlarm, try_catch, bind.
    rewrite !loadAlarms_quiet by exact Hq.
    unfold ret. cbn [fst]. wsimpl. rewrite find_map_spread by exact Hp.
    destruct (List.find (has_id other) (alarmsItem w)) as [a|] eqn:Hfind; [| reflexivity].
    apply find_some in Hfind as [_ Hid].
    now rewrite (has_id_other alarmId other a Hne Hid).
  - wsimpl. apply List.length_map.
Qed.

Lemma updateAlarm_then_getAlarm_witness :
  exists w',
    updateAlarm "1" deactivate_only demo_world = (Ok tt, w')
    /\ fst (getAlarm "1" w')
       = Ok (option_map (fun a => spread a deactivate_only)
                        (List.find (has_id "1") (alarmsItem demo_world)))
    /\ (forall other, other <> "1" -> fst (getAlarm other w') = fst (getAlarm other demo_world))
    /\ length (alarmsItem w') = length (alarmsItem demo_world).
Proof.
  apply (updateAlarm_then_getAlarm "1" deactivate_only demo_world); reflexivity.
Defined.

Lemma find_none_of_fresh (alarmId : string) (alarms : list Alarm) :
  (forall a, In a alarms -> a_id a <> alarmId) -> List.find (has_id alarmId) alarms = None.
Proof.
  intros H. induction alarms as [|x l IH]; simpl; [reflexivity |].
  assert (Hx : has_id alarmId x = false).
  { unfold has_id. apply String.eqb_neq, H. now left. }
  rewrite Hx. apply IH. intros a Ha. apply H. now right.
Qed.

(** X6. [toggleAlarm] on an id that no stored alarm has returns normally
    and does nothing: it writes nothing, asks the scheduler nothing and
    logs nothing, whatever the fault script is; only the read of the
    store has taken place. *)
Theorem toggleAlarm_unknown_id (alarmId : string) (w : World) :
  (forall a, In a (alarmsItem w) -> a_id a <> alarmId) ->
  toggleAlarm alarmId w = (Ok tt, set_faults (tl (faults w)) w).
Proof.
  intros Hfresh. unfold toggleAlarm, try_catch, bind. rewrite loadAlarms_run.
  assert (Hfind : List.find (has_id alarmId)
                    (if hd false (faults w) then [] else alarmsItem w) = None).
  { destruct (hd false (faults w)); [reflexivity | now apply find_none_of_fresh]. }
  rewrite Hfind. reflexivity.
Qed.

Lemma toggleAlarm_unknown_id_witness :
  toggleAlarm "2" demo_world = (Ok tt, set_faults (tl (faults demo_world)) demo_world).
Proof.
  apply (toggleAlarm_unknown_id "2" demo_world).
  intros a [<- | []]. discriminate.
Defined.

Lemma toggleAlarm_on_quiet (alarmId : string) (a : Alarm) (w : World) :
  faults w = [] ->
  List.find (has_id alarmId) (alarmsItem w) = Some a ->
  a_isActive a = false ->
  let alarms' :=
    assign_found alarmId
      (fun x => set_isActive true (set_notificationId (Some (Nid (nextId w))) x))
      (alarmsItem w) in
  toggleAlarm alarmId w
  = (Ok tt, emit (EvSetItem (VAlarms alarms'))
                 (set_alarmsItem alarms' (after_schedule (set_isActive true a) w))).
Proof.
  intros Hq Hfind Hoff. unfold toggleAlarm, try_catch, bind.
  rewrite loadAlarms_quiet by exact Hq. rewrite Hfind, Hoff. cbn [negb]. cbv beta iota.
  rewrite scheduleAlarm_quiet by exact Hq. unfold ret at 1.
  rewrite saveAlarms_quiet by exact Hq. reflexivity.
Qed.

Lemma toggleAlarm_off_quiet (alarmId : string) (a : Alarm) (h : NotificationId) (w : World) :
  faults w = [] ->
  List.find (has_id alarmId) (alarmsItem w) = Some a ->
  a_isActive a = true ->
  a_notificationId a = Some h ->
  let alarms' :=
    assign_found alarmId (fun x => set_isActive false (set_notificationId None x))
                 (alarmsItem w) in
  toggleAlarm alarmId w
  = (Ok tt, emit (EvSetItem (VAlarms alarms')) (set_alarmsItem alarms' (after_cancel h w))).
Proof.
  intros Hq Hfind Hon Hh. unfold toggleAlarm, try_catch, bind.
  rewrite loadAlarms_quiet by exact Hq. rewrite Hfind, Hon, Hh. cbn [negb]. cbv beta iota.
  rewrite cancelAlarm_quiet by exact Hq. unfold ret at 1.
  rewrite saveAlarms_quiet by exact Hq. reflexivity.
Qed.

Lemma has_id_set (alarmId : string) (b : bool) (h : option NotificationId) (a : Alarm) :
  has_id alarmId (set_isActive b (set_notificationId h a)) = has_id alarmId a.
Proof. reflexivity. Qed.

Lemma filter_keeps_others (h h' : NotificationId) (r : Request)
    (l : list (NotificationId * Request)) :
  nid_num h' <> nid_num h ->
  In (h', r) (filter (fun p => negb (nid_eqb (fst p) h)) l) <-> In (h', r) l.
Proof.
  intros Hne. rewrite <- !list_elem_of_In, list_elem_of_filter. simpl.
  unfold nid_eqb. apply Nat.eqb_neq in Hne. rewrite Hne. simpl. tauto.
Qed.

(** X7. Toggling twice, without faults. An active alarm with handle [h]
    comes back active, all its other fields as before, with the handle
    the scheduler allocated at the second toggle, which is pending, while
    [h] has been cancelled. An inactive alarm without handle comes back
    exactly as it was, and the schedule made in between is cancelled. *)
Theorem toggleAlarm_twice (alarmId : string) (a : Alarm) (w : World) :
  faults w = [] ->
  List.find (has_id alarmId) (alarmsItem w) = Some a ->
  alarm_inv a ->
  exists w1 w2,
    toggleAlarm alarmId w = (Ok tt, w1)
    /\ toggleAlarm alarmId w1 = (Ok tt, w2)
    /\ (a_isActive a = true ->
        exists h,
          a_notificationId a = Some h
          /\ List.find (has_id alarmId) (alarmsItem w2)
             = Some (set_notificationId (Some (Nid (nextId w))) a)
          /\ In (Nid (nextId w)) (List.map fst (scheduled w2))
          /\ ~ In h (List.map fst (scheduled w1)))
    /\ (a_isActive a = false ->
        List.find (has_id alarmId) (alarmsItem w2) = Some a
        /\ ~ In (Nid (nextId w)) (List.map fst (scheduled w2))).
Proof.
  intros Hq Hfind Hinv.
  pose proof (find_some _ _ Hfind) as [_ Hid].
  unfold alarm_inv, handle_set in Hinv.
  destruct (a_isActive a) eqn:Hact.
  - destruct (a_notificationId a) as [h|] eqn:Hh; [| discriminate].
    pose proof (toggleAlarm_off_quiet alarmId a h w Hq Hfind Hact Hh) as H1.
    cbv zeta in H1.
    set (l1 := assign_found alarmId (fun x => set_isActive false (set_notificationId None x))
                 (alarmsItem w)) in *.
    set (w1 := emit (EvSetItem (VAlarms l1)) (set_alarmsItem l1 (after_cancel h w))) in *.
    assert (Hfind1 : List.find (has_id alarmId) (alarmsItem w1)
                     = Some (set_isActive false (set_notificationId None a))).
    { apply (find_assign_found alarmId
               (fun x => set_isActive false (set_notificationId None x))); assumption. }
    pose proof (toggleAlarm_on_quiet alarmId _ w1 Hq Hfind1 eq_refl) as H2.
    cbv zeta in H2.
    eexists _, _. split; [exact H1 |]. split; [exact H2 |]. split; [| discriminate].
    intros _. exists h. split; [reflexivity |]. split; [| split].
    + refine (eq_trans
                (find_assign_found alarmId
                   (fun x => set_isActive true (set_notificationId (Some (Nid (nextId w))) x))
                   (alarmsItem w1) _ Hfind1 Hid) _).
      f_equal. destruct a; simpl in *. now subst.
    + unfold after_schedule. wsimpl. rewrite List.map_app.
      apply in_or_app. right. now left.
    + apply (not_scheduled_after_cancel h w).
  - destruct (a_notificationId a) as [h|] eqn:Hh; [discriminate |].
    pose proof (toggleAlarm_on_quiet alarmId a w Hq Hfind Hact) as H1.
    cbv zeta in H1.
    set (l1 := assign_found alarmId
                 (fun x => set_isActive true (set_notificationId (Some (Nid (nextId w))) x))
                 (alarmsItem w)) in *.
    set (w1 := emit (EvSetItem (VAlarms l1))
                    (set_alarmsItem l1 (after_schedule (set_isActive true a) w))) in *.
    assert (Hfind1 : List.find (has_id alarmId) (alarmsItem w1)
                     = Some (set_isActive true
                               (set_notificationId (Some (Nid (nextId w))) a))).
    { apply (find_assign_found alarmId
               (fun x => set_isActive true (set_notificationId (Some (Nid (nextId w))) x)));
        assumption. }
    pose proof (toggleAlarm_off_quiet alarmId _ (Nid (nextId w)) w1 Hq Hfind1 eq_refl eq_refl)
      as H2.
    cbv zeta in H2.
    eexists _, _. split; [exact H1 |]. split; [exact H2 |]. split; [discriminate |].
    intros _. split.
    + refine (eq_trans
                (find_assign_found alarmId
                   (fun x => set_isActive false (set_notificationId None x))
                   (alarmsItem w1) _ Hfind1 Hid) _).
      f_equal. destruct a; simpl in *. now subst.
    + apply (not_scheduled_after_cancel (Nid (nextId w)) w1).
Qed.

Lemma toggleAlarm_twice_witness :
  exists w1 w2,
    toggleAlarm "1" demo_world = (Ok tt, w1)
    /\ toggleAlarm "1" w1 = (Ok tt, w2)
    /\ (a_isActive demo_alarm = true ->
        exists h,
          a_notificationId demo_alarm = Some h
          /\ List.find (has_id "1") (alarmsItem w2)
             = Some (set_notificationId (Some (Nid (nextId demo_world))) demo_alarm)
          /\ In (Nid (nextId demo_world)) (List.map fst (scheduled w2))
          /\ ~ In h (List.map fst (scheduled w1)))
    /\ (a_isActive demo_alarm = false ->
        List.find (has_id "1") (alarmsItem w2) = Some demo_alarm
        /\ ~ In (Nid (nextId demo_world)) (List.map fst (scheduled w2))).
Proof.
  apply (toggleAlarm_twice "1" demo_alarm demo_world); reflexivity.
Defined.

(** ** AlarmStorage: code records *)

Lemma saveDismissalCode_quiet (alarmId : string) (codeData : CodeData) (w : World) :
  faults w = [] ->
  let codes :=
    <[alarmId := mkCodeData (c_code codeData) (c_timestamp codeData) (c_expiresAt codeData)
                            (Some (clock w)) (Some 0)]> (codesItem w) in
  saveDismissalCode alarmId codeData w
  = (Ok tt, emit (EvSetItem (VCodes codes)) (set_codesItem codes w)).
Proof.
  intros Hq. unfold saveDismissalCode, try_catch, bind.
  rewrite loadDismissalCodes_quiet by exact Hq. unfold Date_now.
  now rewrite setItem_codes_quiet.
Qed.

(** X8. Round trip of a code record, without faults: after
    [saveDismissalCode alarmId codeData], [getDismissalCode alarmId]
    returns the code, timestamp and expiry of [codeData] with [attempts]
    0 and the time of the save as [createdAt], and the records of the
    other alarms are untouched; after [removeDismissalCode alarmId] it
    returns [null], again leaving the other records alone. *)
Theorem code_record_round_trip (alarmId : string) (codeData : CodeData) (w : World) :
  faults w = [] ->
  exists w1 w2,
    saveDismissalCode alarmId codeData w = (Ok tt, w1)
    /\ fst (getDismissalCode alarmId w1)
       = Ok (Some (mkCodeData (c_code codeData) (c_timestamp codeData) (c_expiresAt codeData)
                              (Some (clock w)) (Some 0)))
    /\ removeDismissalCode alarmId w1 = (Ok tt, w2)
    /\ fst (getDismissalCode alarmId w2) = Ok None
    /\ (forall other,
          other <> alarmId ->
          codesItem w1 !! other = codesItem w !! other
          /\ codesItem w2 !! other = codesItem w !! other).
Proof.
  intros Hq.
  unfold saveDismissalCode, try_catch, bind.
  rewrite loadDismissalCodes_quiet by exact Hq. unfold Date_now.
  rewrite setItem_codes_quiet by exact Hq.
  eexists _, _. split; [reflexivity |].
  rewrite removeDismissalCode_quiet by exact Hq.
  split.
  { unfold getDismissalCode, try_catch, bind.
    rewrite loadDismissalCodes_quiet by exact Hq. unfold ret. cbn [fst]. wsimpl.
    now rewrite lookup_insert_eq. }
  split; [reflexivity |].
  split.
  { unfold getDismissalCode, try_catch, bind.
    rewrite loadDismissalCodes_quiet by exact Hq. unfold ret. cbn [fst]. wsimpl.
    now rewrite lookup_delete_eq. }
  intros other Hne. wsimpl. split.
  - now apply lookup_insert_ne.
  - rewrite lookup_delete_ne by congruence. now apply lookup_insert_ne.
Qed.

Lemma code_record_round_trip_witness :
  exists w1 w2,
    saveDismissalCode "1" demo_code demo_world = (Ok tt, w1)
    /\ fst (getDismissalCode "1" w1)
       = Ok (Some (mkCodeData (c_code demo_code) (c_timestamp demo_code)
                              (c_expiresAt demo_code) (Some (clock demo_world)) (Some 0)))
    /\ removeDismissalCode "1" w1 = (Ok tt, w2)
    /\ fst (getDismissalCode "1" w2) = Ok None
    /\ (forall other,
          other <> "1" ->
          codesItem w1 !! other = codesItem demo_world !! other
          /\ codesItem w2 !! other = codesItem demo_world !! other).
Proof. apply (code_record_round_trip "1" demo_code demo_world). reflexivity. Defined.

(** X9. [loadDismissalCodes] answers a failed read with the empty
    object, and [removeDismissalCode] writes back what it loaded: when
    the read fails and the write succeeds, the code records of all alarms
    are lost, not only the one removed. *)
Theorem removeDismissalCode_after_failed_read (alarmId : string) (w : World) :
  hd false (faults w) = true ->
  hd false (tl (faults w)) = false ->
  exists w', removeDismissalCode alarmId w = (Ok tt, w') /\ codesItem w' = ∅.
Proof.
  intros H1 H2. unfold removeDismissalCode, try_catch, bind.
  rewrite loadDismissalCodes_run, H1.
  unfold AsyncStorage.setItem_codes, external, modify, ret. wsimpl. rewrite H2.
  eexists. split; [reflexivity |]. wsimpl. apply delete_empty.
Qed.

Lemma removeDismissalCode_after_failed_read_witness :
  exists w',
    removeDismissalCode "9" (set_faults [true] ringing_world) = (Ok tt, w')
    /\ codesItem w' = ∅.
Proof.
  apply (removeDismissalCode_after_failed_read "9" (set_faults [true] ringing_world));
    reflexivity.
Defined.

Lemma with_attempts_twice (n m : Z) (record : CodeData) :
  with_attempts n (with_attempts m record) = with_attempts n record.
Proof. reflexivity. Qed.

Lemma increments_quiet (k : nat) :
  forall (alarmId : string) (record : CodeData) (w : World),
    faults w = [] ->
    codesItem w !! alarmId = Some record ->
    exists w',
      increments (S k) alarmId w = (Ok (default 0 (c_attempts record) + Z.of_nat (S k)), w')
      /\ faults w' = []
      /\ alarmsItem w' = alarmsItem w
      /\ codesItem w'
         = <[alarmId := with_attempts (default 0 (c_attempts record) + Z.of_nat (S k)) record]>
             (codesItem w).
Proof.
  induction k as [|k IH]; intros alarmId record w Hq Hrec.
  - cbn [increments]. unfold bind, ret.
    rewrite (incrementCodeAttempts_quiet alarmId record w Hq Hrec). cbv zeta.
    eexists. split; [reflexivity |]. repeat split. exact Hq.
  - destruct (IH alarmId record w Hq Hrec) as (w1 & Hrun & Hq1 & Hal1 & Hc1).
    change (increments (S (S k)) alarmId w)
      with (bind (increments (S k) alarmId) (fun _ => incrementCodeAttempts alarmId) w).
    unfold bind. rewrite Hrun.
    assert (Hrec1 : codesItem w1 !! alarmId
                    = Some (with_attempts (default 0 (c_attempts record) + Z.of_nat (S k))
                                          record)).
    { rewrite Hc1. apply lookup_insert_eq. }
    rewrite (incrementCodeAttempts_quiet alarmId _ w1 Hq1 Hrec1). cbv zeta.
    eexists. split.
    { f_equal. f_equal. simpl default. lia. }
    split; [exact Hq1 |]. split; [exact Hal1 |].
    wsimpl. rewrite Hc1, insert_insert_eq. rewrite with_attempts_twice.
    do 2 f_equal. simpl default. lia.
Qed.

(** X10. Attempts add up: without faults, after [saveDismissalCode] the
    [k]-th call of [incrementCodeAttempts] for the alarm returns [k], and
    the stored record then has [attempts] equal to [k] and the code that
    was saved. *)
Theorem increments_after_save (k : nat) (alarmId : string) (codeData : CodeData) (w : World) :
  faults w = [] ->
  exists w1 w2 record,
    saveDismissalCode alarmId codeData w = (Ok tt, w1)
    /\ increments (S k) alarmId w1 = (Ok (Z.of_nat (S k)), w2)
    /\ codesItem w2 !! alarmId = Some record
    /\ c_attempts record = Some (Z.of_nat (S k))
    /\ c_code record = c_code codeData.
Proof.
  intros Hq.
  pose proof (saveDismissalCode_quiet alarmId codeData w Hq) as Hsave. cbv zeta in Hsave.
  match type of Hsave with _ = (_, ?w1) =>
    destruct (increments_quiet k alarmId
                (mkCodeData (c_code codeData) (c_timestamp codeData) (c_expiresAt codeData)
                            (Some (clock w)) (Some 0))
                w1 Hq (lookup_insert_eq _ _ _))
      as (w2 & Hrun & _ & _ & Hc2);
    exists w1, w2
  end.
  eexists. split; [exact Hsave |].
  split; [exact Hrun |].
  split; [rewrite Hc2; apply lookup_insert_eq |].
  split; reflexivity.
Qed.

Lemma increments_after_save_witness :
  exists w1 w2 record,
    saveDismissalCode "1" demo_code demo_world = (Ok tt, w1)
    /\ increments 5 "1" w1 = (Ok 5, w2)
    /\ codesItem w2 !! "1" = Some record
    /\ c_attempts record = Some 5
    /\ c_code record = c_code demo_code.
Proof. apply (increments_after_save 4 "1" demo_code demo_world). reflexivity. Defined.

Lemma getAlarm_total (alarmId : string) (w : World) :
  getAlarm alarmId w
  = (Ok (if hd false (faults w) then None
         else List.find (has_id alarmId) (alarmsItem w)),
     set_faults (tl (faults w)) w).
Proof.
  unfold getAlarm, try_catch, bind. rewrite loadAlarms_run.
  destruct (hd false (faults w)); reflexivity.
Qed.

(** ** NotificationService: the timing validator *)

(** X11. The validator fails closed: whatever the fault script is it
    returns normally, having only read the store, and it answers true
    only if the read succeeded and found an active alarm with the given
    id whose frequency is one of ['once'], ['daily'], ['weekly']. *)
Theorem validateAlarmTiming_fails_closed (alarmId : string) (w : World) :
  exists due,
    validateAlarmTiming alarmId w = (Ok due, set_faults (tl (faults w)) w)
    /\ (due = true ->
        hd false (faults w) = false
        /\ exists a,
             List.find (has_id alarmId) (alarmsItem w) = Some a
             /\ a_isActive a = true
             /\ (a_frequency a = "once" \/ a_frequency a = "daily"
                 \/ a_frequency a = "weekly")).
Proof.
  unfold validateAlarmTiming, try_catch, bind.
  rewrite getAlarm_total.
  destruct (hd false (faults w)).
  - eexists. split; [reflexivity | discriminate].
  - destruct (List.find (has_id alarmId) (alarmsItem w)) as [a|] eqn:Hfind.
    + destruct (a_isActive a) eqn:Hon; cbn [negb].
      * unfold Date_now, get_world. cbv beta iota zeta.
        destruct (String.eqb (a_frequency a) "once") eqn:H1.
        { eexists. split; [reflexivity |]. intros _. split; [reflexivity |].
          exists a. apply String.eqb_eq in H1. auto. }
        destruct (String.eqb (a_frequency a) "daily") eqn:H2.
        { eexists. split; [reflexivity |]. intros _. split; [reflexivity |].
          exists a. apply String.eqb_eq in H2. auto. }
        destruct (String.eqb (a_frequency a) "weekly") eqn:H3.
        { eexists. split; [reflexivity |]. intros _. split; [reflexivity |].
          exists a. apply String.eqb_eq in H3. auto. }
        eexists. split; [reflexivity | discriminate].
      * eexists. split; [reflexivity | discriminate].
    + eexists. split; [reflexivity | discriminate].
Qed.

(** X12. For an active weekly alarm (the read of the store succeeding)
    the validator answers true exactly when the current weekday is the
    weekday of the alarm's time and the minutes of the day of the two
    differ by at most 1: whole minutes are compared with 1.5. *)
Theorem validateAlarmTiming_weekly (alarmId : string) (a : Alarm) (w : World) :
  calls_succeed 1 w ->
  List.find (has_id alarmId) (alarmsItem w) = Some a ->
  a_isActive a = true ->
  a_frequency a = "weekly" ->
  fst (validateAlarmTiming alarmId w)
  = Ok ((JSDate.getDay (tz w) (clock w) =? JSDate.getDay (tz w) (a_time a))
        && (Z.abs (minutesOfDay (tz w) (clock w) - minutesOfDay (tz w) (a_time a)) <=? 1)).
Proof.
  intros Hup Hfind Hon Hfreq. apply calls_succeed_hd in Hup.
  unfold validateAlarmTiming, try_catch, bind.
  rewrite getAlarm_run by exact Hup. rewrite Hfind, Hon, Hfreq.
  cbn [negb String.eqb Ascii.eqb Bool.eqb andb]. unfold Date_now, get_world. cbv beta iota zeta.
  wsimpl. unfold ret. wsimpl. now rewrite tolerance_whole_minutes.
Qed.

Lemma validateAlarmTiming_weekly_witness :
  fst (validateAlarmTiming "1" weekly_world)
  = Ok ((JSDate.getDay (tz weekly_world) (clock weekly_world)
         =? JSDate.getDay (tz weekly_world) (a_time weekly_alarm))
        && (Z.abs (minutesOfDay (tz weekly_world) (clock weekly_world)
                   - minutesOfDay (tz weekly_world) (a_time weekly_alarm)) <=? 1)).
Proof.
  apply (validateAlarmTiming_weekly "1" weekly_alarm weekly_world).
  - apply calls_succeed_quiet. reflexivity.
  - reflexivity.
  - reflexivity.
  - reflexivity.
Defined.

(** X13. The minutes of the day are compared without wrapping at
    midnight: for an active daily alarm, when the current time and the
    alarm's time are the last and the first minute of the day (either way
    round), one minute apart on the clock, the notification is not due. *)
Theorem validateAlarmTiming_daily_no_wrap (alarmId : string) (a : Alarm) (w : World) :
  calls_succeed 1 w ->
  List.find (has_id alarmId) (alarmsItem w) = Some a ->
  a_isActive a = true ->
  a_frequency a = "daily" ->
  24 * 60 - 1 <= Z.abs (minutesOfDay (tz w) (clock w) - minutesOfDay (tz w) (a_time a)) ->
  fst (validateAlarmTiming alarmId w) = Ok false.
Proof.
  intros Hup Hfind Hon Hfreq Hfar.
  rewrite (validateAlarmTiming_daily alarmId a w Hup Hfind Hon Hfreq).
  f_equal. apply Z.leb_gt. lia.
Qed.

Lemma validateAlarmTiming_daily_no_wrap_witness :
  fst (validateAlarmTiming "7"
         (set_clock (23 * JSDate.msPerHour + 59 * JSDate.msPerMinute)
            (set_alarmsItem
               [mkAlarm "7" JSDate.msPerDay "wake" "daily" 5 true (Some (Nid 0)) 0]
               (daily_world_at 0 0))))
  = Ok false.
Proof.
  apply (validateAlarmTiming_daily_no_wrap "7"
           (mkAlarm "7" JSDate.msPerDay "wake" "daily" 5 true (Some (Nid 0)) 0)).
  - apply calls_succeed_quiet. reflexivity.
  - reflexivity.
  - reflexivity.
  - reflexivity.
  - vm_compute. discriminate.
Defined.

(** ** NotificationService: scheduling *)









(** X16. When [scheduleAlarm] throws, whichever call failed, nothing has
    been scheduled: the pending notifications, the handle counter and the
    stores are as they were. *)
Theorem scheduleAlarm_throw_schedules_nothing (alarm : Alarm) (w w' : World) :
  scheduleAlarm alarm w = (Throw, w') ->
  scheduled w' = scheduled w
  /\ nextId w' = nextId w
  /\ alarmsItem w' = alarmsItem w
  /\ codesItem w' = codesItem w.
Proof.
  unfold scheduleAlarm, try_catch, bind, setupNotificationChannels,
    Notifications.setNotificationChannelAsync, Date_now, get_world,
    Notifications.scheduleNotificationAsync, external, ret, throw.
  destruct (android w); wsimpl.
  - destruct (hd false (faults w)); wsimpl.
    + intros [= <-]. repeat split.
    + destruct (hd false (tl (faults w))); [| discriminate].
      intros [= <-]. repeat split.
  - destruct (hd false (faults w)); [| discriminate].
    intros [= <-]. repeat split.
Qed.

Lemma scheduleAlarm_throw_schedules_nothing_witness :
  scheduled (snd (scheduleAlarm demo_alarm (set_faults [false; true] demo_world)))
  = scheduled (set_faults [false; true] demo_world)
  /\ nextId (snd (scheduleAlarm demo_alarm (set_faults [false; true] demo_world)))
     = nextId (set_faults [false; true] demo_world)
  /\ alarmsItem (snd (scheduleAlarm demo_alarm (set_faults [false; true] demo_world)))
     = alarmsItem (set_faults [false; true] demo_world)
  /\ codesItem (snd (scheduleAlarm demo_alarm (set_faults [false; true] demo_world)))
     = codesItem (set_faults [false; true] demo_world).
Proof.
  apply (scheduleAlarm_throw_schedules_nothing demo_alarm
           (set_faults [false; true] demo_world)).
  vm_compute. reflexivity.
Defined.

Lemma filter_drops_new (n : nat) (r : Request) (l : list (NotificationId * Request)) :
  (forall h r', In (h, r') l -> (nid_num h < n)%nat) ->
  filter (fun p => negb (nid_eqb (fst p) (Nid n))) (l ++ [(Nid n, r)]) = l.
Proof.
  intros Hwf. induction l as [|[h r'] l IH].
  - cbn. unfold nid_eqb. cbn. rewrite Nat.eqb_refl. reflexivity.
  - cbn [app]. rewrite filter_cons. cbn [fst].
    assert (Hlt : (nid_num h < n)%nat) by (apply (Hwf h r'); now left).
    unfold nid_eqb at 1. cbn [nid_num].
    destruct (decide _) as [_ | Hno].
    + f_equal. apply IH. intros h0 r0 Hin. apply (Hwf h0 r0). now right.
    + exfalso. apply Hno. apply negb_prop_intro. intros Heq.
      apply Is_true_eq_true, Nat.eqb_eq in Heq. lia.
Qed.

(** X17. Scheduling then cancelling is a round trip: without faults, when
    every pending notification carries a handle already given out,
    [cancelAlarm] on the handle [scheduleAlarm] has just returned leaves
    the pending notifications exactly as they were before the two calls,
    while the handle stays used up. *)
Theorem schedule_then_cancel (alarm : Alarm) (w : World) :
  faults w = [] ->
  platform_wf w ->
  exists h w1 w2,
    scheduleAlarm alarm w = (Ok h, w1)
    /\ cancelAlarm (Some h) w1 = (Ok tt, w2)
    /\ scheduled w2 = scheduled w
    /\ nextId w2 = S (nextId w)
    /\ platform_wf w2.
Proof.
  intros Hq Hwf.
  rewrite scheduleAlarm_quiet by exact Hq.
  eexists _, _, _. split; [reflexivity |].
  rewrite cancelAlarm_quiet by exact Hq.
  split; [reflexivity |].
  assert (Hs : scheduled (after_cancel (Nid (nextId w)) (after_schedule alarm w)) = scheduled w).
  { unfold after_cancel, after_schedule. wsimpl.
    apply filter_drops_new. intros h r' Hin. exact (Hwf h r' Hin). }
  split; [exact Hs |]. split; [reflexivity |].
  intros h r Hin. rewrite Hs in Hin. specialize (Hwf h r Hin).
  unfold handed_out in *. simpl. lia.
Qed.

Lemma schedule_then_cancel_witness :
  exists h w1 w2,
    scheduleAlarm demo_alarm demo_world = (Ok h, w1)
    /\ cancelAlarm (Some h) w1 = (Ok tt, w2)
    /\ scheduled w2 = scheduled demo_world
    /\ nextId w2 = S (nextId demo_world)
    /\ platform_wf w2.
Proof.
  apply (schedule_then_cancel demo_alarm demo_world).
  - reflexivity.
  - intros h r [[= <- <-] | []]. unfold handed_out. simpl. lia.
Defined.

(** ** NotificationService: the notification listeners *)

Lemma validateAlarmTiming_total (alarmId : string) (w : World) :
  exists due, validateAlarmTiming alarmId w = (Ok due, set_faults (tl (faults w)) w).
Proof.
  unfold validateAlarmTiming, try_catch, bind. rewrite getAlarm_total.
  destruct (hd false (faults w)); [eexists; reflexivity |].
  destruct (List.find _ _) as [a|]; [| eexists; reflexivity].
  destruct (a_isActive a); cbn [negb]; [| eexists; reflexivity].
  unfold Date_now, get_world. cbv beta iota zeta.
  repeat (destruct (String.eqb _ _); [eexists; reflexivity |]).
  eexists; reflexivity.
Qed.

Lemma navigations_navigate (w : World) :
  navigations (emit (EvNavigate "DismissAlarm") w) = S (navigations w).
Proof.
  unfold navigations. wsimpl. rewrite List.filter_app, List.length_app. simpl. lia.
Qed.

Lemma fold_delete_lookup (alarmId : string) (due : list (Z * string)) :
  forall m : gmap string string,
    (forall t, ~ In (t, alarmId) due) ->
    fold_left (fun m t => delete (snd t) m) due m !! alarmId = m !! alarmId.
Proof.
  induction due as [|[t x] due IH]; intros m H; simpl; [reflexivity |].
  rewrite IH.
  - apply lookup_delete_ne. intros ->. apply (H t). now left.
  - intros t' Hin. apply (H t'). now right.
Qed.

Lemma elapsed_nonneg (acts : list Action) : 0 <= elapsed acts.
Proof. induction acts as [|[l a|k|ms] acts IH]; simpl; lia. Qed.

Lemma enter_step (alarmId : string) (l : Listener) (deadline : Z) (d : Dispatcher) (w : World) :
  dispatcher_inv alarmId deadline d ->
  deadline < clock w + 5000 ->
  exists d',
    loop_step (Notify l (Some alarmId)) d w = (Ok d', w)
    /\ dispatcher_inv alarmId deadline d'
    /\ allowance alarmId d' = allowance alarmId d.
Proof.
  intros [Htimers Hawait] Hdeadline.
  unfold loop_step.
  assert (Hsame : onNotificationReceived (Some alarmId) d w
                  = onNotificationResponse (Some alarmId) d w).
  { unfold onNotificationReceived, onNotificationResponse, bind, Date_now.
    destruct (String.eqb alarmId EmptyString); [reflexivity |].
    destruct (navigationInFlight d !! alarmId); reflexivity. }
  assert (Hrun : (match l with
                  | Foreground => onNotificationReceived (Some alarmId) d
                  | Tapped => onNotificationResponse (Some alarmId) d
                  end) w = onNotificationResponse (Some alarmId) d w).
  { destruct l; [exact Hsame | reflexivity]. }
  unfold bind at 1. rewrite Hrun. clear Hrun Hsame.
  unfold onNotificationResponse.
  destruct (String.eqb alarmId EmptyString).
  { exists d. repeat split; assumption. }
  destruct (navigationInFlight d !! alarmId) as [key|] eqn:Hlook.
  { exists d. repeat split; assumption. }
  destruct Hawait as [Hnone | [_ Hflight]].
  2:{ unfold in_flight in Hflight. rewrite Hlook in Hflight. discriminate. }
  eexists. split; [unfold bind, Date_now, setTimeout_delete, ret; simpl; reflexivity |].
  split.
  - split.
    + simpl. intros t Hin. apply in_app_or in Hin as [Hin | [Heq | []]].
      * now apply Htimers.
      * injection Heq as <-. exact Hdeadline.
    + right. simpl. rewrite Hnone. split; [now exists l |].
      unfold in_flight. simpl. now rewrite lookup_insert_eq.
  - unfold allowance, in_flight. simpl. rewrite Hnone, Hlook. reflexivity.
Qed.

Lemma resume_step (alarmId : string) (k : nat) (deadline : Z) (d : Dispatcher) (w : World) :
  dispatcher_inv alarmId deadline d ->
  exists d' w',
    loop_step (Resume k) d w = (Ok d', w')
    /\ dispatcher_inv alarmId deadline d'
    /\ clock w' = clock w
    /\ (navigations w' + allowance alarmId d' <= navigations w + allowance alarmId d)%nat.
Proof.
  intros [Htimers Hawait]. unfold loop_step.
  destruct Hawait as [Hnone | [[l Hone] Hflight]].
  - rewrite Hnone. destruct k; simpl; exists d, w;
      (split; [reflexivity |]); (split; [split; [assumption | now left] |]);
      (split; [reflexivity | lia]).
  - rewrite Hone. destruct k as [|k].
    + simpl. unfold listener_resume, bind.
      destruct (validateAlarmTiming_total alarmId w) as [due ->].
      destruct due.
      * eexists _, _. split; [reflexivity |].
        split; [split; [exact Htimers | now left] |].
        split; [reflexivity |].
        rewrite navigations_navigate.
        unfold allowance. simpl. rewrite Hone.
        change (in_flight alarmId (set_awaiting [] d)) with (in_flight alarmId d).
        rewrite Hflight. unfold navigations. wsimpl. lia.
      * eexists _, _. split; [reflexivity |].
        split; [split; [exact Htimers | now left] |].
        split; [reflexivity |].
        unfold allowance, in_flight. simpl. rewrite Hone, lookup_delete_eq.
        unfold navigations. wsimpl. lia.
    + simpl. destruct k; simpl; exists d, w;
        (split; [reflexivity |]);
        (split; [split; [assumption | right; split; [now exists l | assumption]] |]);
        (split; [reflexivity | lia]).
Qed.

Lemma elapse_step (alarmId : string) (ms : N) (deadline : Z) (d : Dispatcher) (w : World) :
  dispatcher_inv alarmId deadline d ->
  clock w + Z.of_N ms <= deadline ->
  exists d' w',
    loop_step (Elapse ms) d w = (Ok d', w')
    /\ dispatcher_inv alarmId deadline d'
    /\ clock w' = clock w + Z.of_N ms
    /\ navigations w' = navigations w
    /\ allowance alarmId d' = allowance alarmId d.
Proof.
  intros [Htimers Hawait] Hdeadline.
  eexists _, _. split; [reflexivity |].
  assert (Hlook : forall m : gmap string string,
             fold_left (fun m t => delete (snd t) m)
               (List.filter (fun t => fst t <=? clock w + Z.of_N ms) (timeouts d)) m
             !! alarmId = m !! alarmId).
  { intros m. apply fold_delete_lookup. intros t Hin.
    apply List.filter_In in Hin as [Hin Hdue]. simpl in Hdue.
    apply Z.leb_le in Hdue. specialize (Htimers t Hin). lia. }
  split; [| split; [reflexivity | split; [reflexivity |]]].
  - split.
    + simpl. intros t Hin. apply List.filter_In in Hin as [Hin _]. now apply Htimers.
    + simpl. destruct Hawait as [Hnone | [Hone Hflight]]; [now left | right].
      split; [exact Hone |]. unfold in_flight in *. simpl. now rewrite Hlook.
  - unfold allowance, in_flight. simpl. now rewrite Hlook.
Qed.

Lemma loop_bound (alarmId : string) (acts : list Action) :
  forall (d : Dispatcher) (w : World),
    Forall (about alarmId) acts ->
    elapsed acts < 5000 ->
    dispatcher_inv alarmId (clock w + elapsed acts) d ->
    exists d' w',
      loop acts d w = (Ok d', w')
      /\ (navigations w' <= navigations w + allowance alarmId d)%nat.
Proof.
  induction acts as [|a acts IH]; intros d w Habout Htime Hinv.
  - exists d, w. split; [reflexivity | lia].
  - inversion Habout as [|? ? Ha Hrest]; subst.
    pose proof (elapsed_nonneg acts) as Hpos.
    destruct a as [l [alarmId'|]|k|ms]; cbn [loop elapsed] in *.
    + simpl in Ha. subst alarmId'.
      destruct (enter_step alarmId l _ d w Hinv ltac:(lia)) as (d1 & Hrun & Hinv1 & Hallow).
      unfold bind at 1. rewrite Hrun.
      destruct (IH d1 w Hrest Htime Hinv1) as (d' & w' & Hloop & Hnav).
      exists d', w'. split; [exact Hloop | lia].
    + destruct (IH d w Hrest Htime Hinv) as (d' & w' & Hloop & Hnav).
      exists d', w'. split; [destruct l; exact Hloop | exact Hnav].
    + destruct (resume_step alarmId k _ d w Hinv) as (d1 & w1 & Hrun & Hinv1 & Hclock & Hnav1).
      unfold bind at 1. rewrite Hrun. rewrite <- Hclock in Hinv1.
      destruct (IH d1 w1 Hrest Htime Hinv1) as (d' & w' & Hloop & Hnav).
      exists d', w'. split; [exact Hloop | lia].
    + destruct (elapse_step alarmId ms _ d w Hinv ltac:(lia))
        as (d1 & w1 & Hrun & Hinv1 & Hclock & Hnav1 & Hallow).
      unfold bind at 1. rewrite Hrun.
      replace (clock w + (Z.of_N ms + elapsed acts)) with (clock w1 + elapsed acts) in Hinv1
        by lia.
      destruct (IH d1 w1 Hrest ltac:(lia) Hinv1) as (d' & w' & Hloop & Hnav).
      exists d', w'. split; [exact Hloop | lia].
Qed.

(** X18. Notifications for the same alarm are deduplicated: starting with
    no listener call suspended and no timer pending for the alarm, however
    the notifications for that alarm reach the two listeners, however
    their validations settle in between and whatever the store answers,
    as long as less than 5000 ms pass in all the dismissal screen is
    opened at most once, and no listener throws. *)
Theorem navigation_deduplicated (alarmId : string) (acts : list Action)
    (d : Dispatcher) (w : World) :
  Forall (about alarmId) acts ->
  elapsed acts < 5000 ->
  awaiting d = [] ->
  no_timer_for alarmId d ->
  exists d' w',
    loop acts d w = (Ok d', w')
    /\ (navigations w' <= navigations w + 1)%nat.
Proof.
  intros Habout Htime Hawait Htimers.
  destruct (loop_bound alarmId acts d w Habout Htime) as (d' & w' & Hloop & Hnav).
  { split; [| now left]. intros t Hin. now apply Htimers in Hin. }
  exists d', w'. split; [exact Hloop |].
  unfold allowance in Hnav. rewrite Hawait in Hnav.
  destruct (in_flight alarmId d); lia.
Qed.

Lemma navigation_deduplicated_witness :
  exists d' w',
    loop [Notify Foreground (Some "1"); Notify Tapped (Some "1"); Resume 0;
          Elapse 3000; Notify Tapped (Some "1"); Resume 0] idle demo_world
    = (Ok d', w')
    /\ (navigations w' <= navigations demo_world + 1)%nat.
Proof.
  apply (navigation_deduplicated "1").
  - repeat constructor.
  - reflexivity.
  - reflexivity.
  - intros t [].
Defined.

Lemma validateAlarmTiming_daily_quiet (alarmId : string) (a : Alarm) (w : World) :
  faults w = [] ->
  List.find (has_id alarmId) (alarmsItem w) = Some a ->
  a_isActive a = true ->
  a_frequency a = "daily" ->
  validateAlarmTiming alarmId w
  = (Ok (Z.abs (minutesOfDay (tz w) (clock w) - minutesOfDay (tz w) (a_time a)) <=? 1), w).
Proof.
  intros Hq Hfind Hon Hfreq.
  pose proof (validateAlarmTiming_daily alarmId a w
                (calls_succeed_quiet 1 w Hq) Hfind Hon Hfreq) as Hfst.
  destruct (validateAlarmTiming_total alarmId w) as [due Hrun].
  rewrite Hrun in *. simpl in Hfst. rewrite Hfst.
  f_equal. apply set_faults_same. now rewrite Hq.
Qed.

Lemma notify_fresh (alarmId : string) (l : Listener) (d : Dispatcher) (w : World) :
  alarmId <> EmptyString ->
  in_flight alarmId d = false ->
  loop_step (Notify l (Some alarmId)) d w
  = (Ok (mkDispatcher (<[alarmId := navigationKey_of alarmId (clock w)]> (navigationInFlight d))
                      (timeouts d ++ [(clock w + 5000, alarmId)])
                      (awaiting d ++ [(l, alarmId)])),
     w).
Proof.
  intros Hid Hfree. apply String.eqb_neq in Hid.
  unfold in_flight in Hfree.
  destruct (navigationInFlight d !! alarmId) eqn:Hlook; [discriminate |].
  destruct l; unfold loop_step, onNotificationReceived, onNotificationResponse, bind, Date_now;
    rewrite Hid; cbv beta iota; rewrite Hlook; reflexivity.
Qed.

Lemma resume_one (alarmId : string) (l : Listener) (due : bool) (d : Dispatcher) (w : World) :
  awaiting d = [(l, alarmId)] ->
  validateAlarmTiming alarmId w = (Ok due, w) ->
  loop_step (Resume 0) d w
  = if due then (Ok (set_awaiting [] d), emit (EvNavigate "DismissAlarm") w)
    else (Ok (set_navigationInFlight (delete alarmId (navigationInFlight d)) (set_awaiting [] d)),
          w).
Proof.
  intros Hone Hrun. unfold loop_step. rewrite Hone. simpl.
  unfold listener_resume, bind. rewrite Hrun. destruct due; reflexivity.
Qed.

(** X19. The timers are not cancelled when a marker is deleted early, and
    a timer deletes whatever marker its alarm has. So the timer left by a
    notification that was found not due ends the window of a later marker
    early: with a daily alarm that is not due at a first notification but
    due [ms] milliseconds later and still due 5000 ms after the first,
    a notification at each of these three times opens the dismissal screen
    twice, the two openings being [5000 - ms] milliseconds apart. *)
Theorem leftover_timer_ends_window_early (alarmId : string) (a : Alarm) (ms : N) (w : World) :
  alarmId <> EmptyString ->
  faults w = [] ->
  List.find (has_id alarmId) (alarmsItem w) = Some a ->
  a_isActive a = true ->
  a_frequency a = "daily" ->
  (0 < ms < 5000)%N ->
  1 < Z.abs (minutesOfDay (tz w) (clock w) - minutesOfDay (tz w) (a_time a)) ->
  Z.abs (minutesOfDay (tz w) (clock w + Z.of_N ms) - minutesOfDay (tz w) (a_time a)) <= 1 ->
  Z.abs (minutesOfDay (tz w) (clock w + 5000) - minutesOfDay (tz w) (a_time a)) <= 1 ->
  exists d' w',
    loop [Notify Foreground (Some alarmId); Resume 0;
          Elapse ms;
          Notify Foreground (Some alarmId); Resume 0;
          Elapse (5000 - ms);
          Notify Tapped (Some alarmId); Resume 0] idle w
    = (Ok d', w')
    /\ navigations w' = (navigations w + 2)%nat
    /\ clock w' = clock w + 5000.
Proof.
  intros Hid Hq Hfind Hon Hfreq Hms Hfar Hnear1 Hnear2.
  apply Z.leb_gt in Hfar. apply Z.leb_le in Hnear1, Hnear2.
  pose proof (validateAlarmTiming_daily_quiet alarmId a w Hq Hfind Hon Hfreq) as Hv0.
  pose proof (validateAlarmTiming_daily_quiet alarmId a (set_clock (clock w + Z.of_N ms) w)
                Hq Hfind Hon Hfreq) as Hv1.
  pose proof (validateAlarmTiming_daily_quiet alarmId a
                (set_clock (clock w + 5000)
                   (emit (EvNavigate "DismissAlarm") (set_clock (clock w + Z.of_N ms) w)))
                Hq Hfind Hon Hfreq) as Hv2.
  revert Hv0 Hv1 Hv2. wsimpl. rewrite Hfar, Hnear1, Hnear2. intros Hv0 Hv1 Hv2.
  cbn [loop].
  (* the first notification: not due, the marker is deleted, the timer stays *)
  unfold bind at 1. rewrite notify_fresh by (exact Hid || reflexivity).
  cbn [timeouts navigationInFlight awaiting idle app].
  unfold bind at 1. erewrite resume_one; [| reflexivity | exact Hv0].
  (* [ms] later: due, the screen is opened *)
  unfold bind at 1.
  change (loop_step (Elapse ms) ?d w) with (runTimeouts d (set_clock (clock w + Z.of_N ms) w)).
  unfold runTimeouts at 1, bind at 1, Date_now at 1, ret at 1.
  cbn [timeouts navigationInFlight awaiting set_awaiting set_navigationInFlight idle app
       List.filter fst snd].
  wsimpl.
  replace (clock w + 5000 <=? clock w + Z.of_N ms) with false by (symmetry; apply Z.leb_gt; lia).
  cbn [negb fold_left].
  unfold bind at 1. rewrite notify_fresh;
    [| exact Hid | unfold in_flight; cbn [navigationInFlight]; now rewrite lookup_delete_eq].
  cbn [timeouts navigationInFlight awaiting app]. wsimpl.
  unfold bind at 1. erewrite resume_one; [| reflexivity | exact Hv1].
  (* 5000 ms after the first notification its timer deletes the new marker *)
  unfold bind at 1.
  change (loop_step (Elapse (5000 - ms)) ?d ?w0)
    with (runTimeouts d (set_clock (clock w0 + Z.of_N (5000 - ms)) w0)).
  unfold runTimeouts at 1, bind at 1, Date_now at 1, ret at 1.
  cbn [timeouts navigationInFlight awaiting set_awaiting set_navigationInFlight app
       List.filter fst snd].
  wsimpl.
  replace (clock w + Z.of_N ms + Z.of_N (5000 - ms)) with (clock w + 5000) by lia.
  rewrite Z.leb_refl.
  replace (clock w + Z.of_N ms + 5000 <=? clock w + 5000) with false
    by (symmetry; apply Z.leb_gt; lia).
  cbn [negb fold_left snd].
  unfold bind at 1. rewrite notify_fresh;
    [| exact Hid | unfold in_flight; cbn [navigationInFlight]; now rewrite lookup_delete_eq].
  cbn [timeouts navigationInFlight awaiting app]. wsimpl.
  unfold bind at 1. erewrite resume_one; [| reflexivity | exact Hv2].
  eexists _, _. split; [reflexivity |].
  split; [| reflexivity].
  unfold navigations. wsimpl. rewrite !List.filter_app, !List.length_app. simpl. lia.
Qed.

Lemma leftover_timer_ends_window_early_witness :
  exists d' w',
    loop [Notify Foreground (Some "7"); Resume 0;
          Elapse 2000;
          Notify Foreground (Some "7"); Resume 0;
          Elapse (5000 - 2000);
          Notify Tapped (Some "7"); Resume 0] idle
         (set_clock (6 * JSDate.msPerHour + 58 * JSDate.msPerMinute + 58000)
                    (daily_world_at 0 0))
    = (Ok d', w')
    /\ navigations w'
       = (navigations (set_clock (6 * JSDate.msPerHour + 58 * JSDate.msPerMinute + 58000)
                                 (daily_world_at 0 0)) + 2)%nat
    /\ clock w'
       = clock (set_clock (6 * JSDate.msPerHour + 58 * JSDate.msPerMinute + 58000)
                          (daily_world_at 0 0)) + 5000.
Proof.
  apply (leftover_timer_ends_window_early "7" daily_alarm 2000).
  - discriminate.
  - reflexivity.
  - reflexivity.
  - reflexivity.
  - reflexivity.
  - split; reflexivity.
  - vm_compute. reflexivity.
  - vm_compute. discriminate.
  - vm_compute. discriminate.
Defined.

(** ** MistralService: the backend path *)

Lemma generateDismissalCode_run (toString36 : Q -> string) (w : World) :
  rng_ok w ->
  exists codeData w',
    generateDismissalCode toString36 w = (Ok codeData, w')
    /\ isValidCode (c_code codeData) = true
    /\ c_expiresAt codeData = c_timestamp codeData + 600000
    /\ clock w' = clock w + 1500.
Proof.
  intros Hw.
  destruct (generateSecureCode_spec toString36 w Hw) as (code & w1 & Hrun & Hvalid & Hclock).
  unfold generateDismissalCode, try_catch, bind. rewrite Hrun. simpl.
  eexists _, _. split; [reflexivity |]. simpl.
  split; [exact Hvalid |]. split; [reflexivity | now rewrite Hclock].
Qed.

(** X20. [generateCodeWithBackend] never throws and always answers with a
    code that [isValidCode] accepts, whatever the backend replies. The
    body of the reply is handed on only if the response is ok and carries
    it, and then nothing is generated locally; in every other case
    (rejected request, error status, unreadable body, missing or malformed
    fields) the answer is a local code generated 1500 ms later that
    expires 10 minutes after its timestamp. *)
Theorem generateCodeWithBackend_valid (toString36 : Q -> string) (reply : FetchOutcome)
    (alarmId : string) (w : World) :
  rng_ok w ->
  exists g w' code,
    generateCodeWithBackend toString36 reply alarmId w = (Ok g, w')
    /\ generated_code g = Some code
    /\ isValidCode code = true
    /\ match g with
       | FromBackend data => reply = FetchResponse true (Some data) /\ w' = w
       | FromLocal codeData =>
           c_expiresAt codeData = c_timestamp codeData + 600000
           /\ clock w' = clock w + 1500
       end.
Proof.
  intros Hw.
  destruct (generateDismissalCode_run toString36 w Hw)
    as (codeData & w1 & Hrun & Hvalid & Hexp & Hclock).
  assert (Hlocal :
            (let! codeData := generateDismissalCode toString36 in ret (FromLocal codeData)) w
            = (Ok (FromLocal codeData), w1)).
  { unfold bind. now rewrite Hrun. }
  unfold generateCodeWithBackend, try_catch, bind at 1, getUserToken, ret at 1.
  destruct reply as [|ok [data|]].
  - unfold throw at 1. rewrite Hlocal. exists (FromLocal codeData), w1, (c_code codeData). auto.
  - destruct ok; cbn [negb].
    + destruct (invalid_response data) eqn:Hbad.
      * unfold throw at 1. rewrite Hlocal.
        exists (FromLocal codeData), w1, (c_code codeData). auto.
      * unfold invalid_response in Hbad.
        destruct (b_code data) as [code|] eqn:Hcode; [| discriminate].
        apply orb_false_elim in Hbad as [_ Hvalid'].
        apply negb_false_iff in Hvalid'.
        exists (FromBackend data), w, code. simpl. auto.
    + unfold throw at 1. rewrite Hlocal.
      exists (FromLocal codeData), w1, (c_code codeData). auto.
  - destruct ok; cbn [negb]; unfold throw at 1; rewrite Hlocal;
      exists (FromLocal codeData), w1, (c_code codeData); auto.
Qed.

Lemma generateCodeWithBackend_valid_witness :
  exists g w' code,
    generateCodeWithBackend (fun _ => "0.i")
      (FetchResponse true (Some (mkBackendData (Some "abc12345") (Some 600000)))) "1"
      (set_rng [1 # 2; 35 # 36] demo_world)
    = (Ok g, w')
    /\ generated_code g = Some code
    /\ isValidCode code = true
    /\ match g with
       | FromBackend data =>
           FetchResponse true (Some (mkBackendData (Some "abc12345") (Some 600000)))
           = FetchResponse true (Some data)
           /\ w' = set_rng [1 # 2; 35 # 36] demo_world
       | FromLocal codeData =>
           c_expiresAt codeData = c_timestamp codeData + 600000
           /\ clock w' = clock (set_rng [1 # 2; 35 # 36] demo_world) + 1500
       end.
Proof.
  apply (generateCodeWithBackend_valid (fun _ => "0.i")).
  repeat constructor; discriminate.
Defined.

Lemma isUpperAlnum_alphabet (c : ascii) :
  isUpperAlnum c = true <-> In c (list_ascii_of_string characters).
Proof.
  assert (H : isUpperAlnum c = existsb (Ascii.eqb c) (list_ascii_of_string characters)).
  { destruct c as [[] [] [] [] [] [] [] []]; vm_compute; reflexivity. }
  rewrite H, existsb_exists. split.
  - intros (x & Hin & Heq). apply Ascii.eqb_eq in Heq. now subst.
  - intros Hin. exists c. split; [exact Hin | apply Ascii.eqb_refl].
Qed.

Lemma isValidCode_alphabet (code : string) :
  isValidCode code = true
  <-> String.length code = 8%nat
      /\ Forall (fun c => In c (list_ascii_of_string characters)) (list_ascii_of_string code).
Proof.
  unfold isValidCode. rewrite andb_true_iff, Nat.eqb_eq, forallb_forall, List.Forall_forall.
  split; intros [Hlen Hall]; (split; [exact Hlen |]); intros c Hin;
    apply isUpperAlnum_alphabet, Hall, Hin.
Qed.

(** X21. The backend's reply is the answer exactly when its code is
    made of 8 characters of the alphabet the local generator draws from
    and its expiry is present and not zero (the response being ok). *)
Theorem generateCodeWithBackend_accepts (toString36 : Q -> string) (data : BackendData)
    (alarmId : string) (w : World) :
  fst (generateCodeWithBackend toString36 (FetchResponse true (Some data)) alarmId w)
  = Ok (FromBackend data)
  <-> exists code e,
        b_code data = Some code
        /\ b_expiresAt data = Some e
        /\ e <> 0
        /\ String.length code = 8%nat
        /\ Forall (fun c => In c (list_ascii_of_string characters)) (list_ascii_of_string code).
Proof.
  unfold generateCodeWithBackend, try_catch, bind at 1, getUserToken, ret at 1. cbn [negb].
  destruct (invalid_response data) eqn:Hbad.
  - split.
    + unfold throw at 1, bind.
      destruct (generateDismissalCode toString36 w) as [[codeData|] w1]; discriminate.
    + intros (code & e & Hcode & He & Hnz & Hvalid). exfalso.
      apply isValidCode_alphabet in Hvalid.
      unfold invalid_response in Hbad. rewrite Hcode, He, Hvalid in Hbad.
      apply Z.eqb_neq in Hnz. rewrite Hnz in Hbad.
      destruct code; [discriminate Hvalid | discriminate Hbad].
  - split; [intros _ | reflexivity].
    unfold invalid_response in Hbad.
    destruct (b_code data) as [code|]; [| discriminate].
    apply orb_false_elim in Hbad as [Hbad Hvalid].
    apply orb_false_elim in Hbad as [_ He].
    apply negb_false_iff in Hvalid.
    destruct (b_expiresAt data) as [e|]; [| discriminate].
    exists code, e. apply Z.eqb_neq in He. apply isValidCode_alphabet in Hvalid.
    tauto.
Qed.

(** ** CreateAlarmScreen *)

Lemma scheduleAlarm_ok (alarm : Alarm) (h : NotificationId) (w w' : World) :
  scheduleAlarm alarm w = (Ok h, w') ->
  (exists r, In (h, r) (scheduled w')) /\ alarmsItem w' = alarmsItem w.
Proof.
  unfold scheduleAlarm, try_catch, bind, setupNotificationChannels,
    Notifications.setNotificationChannelAsync, Date_now, get_world,
    Notifications.scheduleNotificationAsync, external, ret, throw.
  destruct (android w); wsimpl.
  - destruct (hd false (faults w)); wsimpl; [discriminate |].
    destruct (hd false (tl (faults w))); [discriminate |].
    intros [= <- <-]. wsimpl. split; [| reflexivity].
    eexists. apply in_or_app. right. left. reflexivity.
  - destruct (hd false (faults w)); [discriminate |].
    intros [= <- <-]. wsimpl. split; [| reflexivity].
    eexists. apply in_or_app. right. left. reflexivity.
Qed.

Lemma saveAlarms_ok (alarms : list Alarm) (w w' : World) :
  saveAlarms alarms w = (Ok tt, w') ->
  alarmsItem w' = alarms /\ scheduled w' = scheduled w.
Proof.
  unfold saveAlarms, try_catch, AsyncStorage.setItem_alarms, external, modify, throw.
  destruct (hd false (faults w)); [discriminate |].
  intros [= <-]. split; reflexivity.
Qed.

Lemma addAlarm_ok (alarm : AlarmInput) (a : Alarm) (w w' : World) :
  addAlarm alarm w = (Ok a, w') ->
  a_time a = i_time alarm
  /\ a_label a = i_label alarm
  /\ a_frequency a = i_frequency alarm
  /\ a_duration a = i_duration alarm
  /\ a_isActive a = true
  /\ (exists alarms, alarmsItem w' = alarms ++ [a])
  /\ (exists h r, a_notificationId a = Some h /\ In (h, r) (scheduled w')).
Proof.
  unfold addAlarm, try_catch, bind at 1.
  destruct (loadAlarms w) as [[alarms|] w1]; [| discriminate].
  unfold bind at 1, Date_now at 1. unfold bind at 1.
  match goal with
  | |- context [scheduleAlarm ?x w1] => destruct (scheduleAlarm x w1) as [[h|] w2] eqn:Hsched
  end; [| discriminate].
  unfold bind at 1.
  match goal with
  | |- context [saveAlarms ?l w2] => destruct (saveAlarms l w2) as [[[]|] w3] eqn:Hsave
  end; [| discriminate].
  unfold ret. intros [= <- <-].
  apply scheduleAlarm_ok in Hsched as [[r Hin] _].
  apply saveAlarms_ok in Hsave as [Hal Hsch].
  repeat (split; [reflexivity |]).
  split; [eexists; exact Hal |].
  exists h, r. split; [reflexivity | now rewrite Hsch].
Qed.

Lemma setCustomRingtone_store (alarmId ringtoneUri : string) (w : World) :
  alarmsItem (snd (setCustomRingtone alarmId ringtoneUri w)) = alarmsItem w
  /\ scheduled (snd (setCustomRingtone alarmId ringtoneUri w)) = scheduled w.
Proof.
  unfold setCustomRingtone, try_catch, bind, external, ret, throw. wsimpl.
  destruct (hd false (faults w)); wsimpl;
    destruct (hd false (tl (faults w))); split; reflexivity.
Qed.

Lemma validateForm_true (form : AlarmForm) (n : Z) (w : World) :
  trim (f_label form) <> EmptyString ->
  parseInt (f_duration form) = Some n ->
  1 <= n <= 60 ->
  validateForm form w = (Ok true, w).
Proof.
  intros Hlabel Hparse Hn. unfold validateForm.
  apply String.eqb_neq in Hlabel. rewrite Hlabel, Hparse.
  replace (n <? 1) with false by (symmetry; apply Z.ltb_ge; lia).
  replace (n >? 60) with false by (symmetry; rewrite Z.gtb_ltb; apply Z.ltb_ge; lia).
  reflexivity.
Qed.

(** What [validateForm] answers, and that a refusal shows one alert and
    does nothing else. *)
Lemma validateForm_run (form : AlarmForm) (w : World) :
  (validateForm form w = (Ok false, emit (EvAlert AlertError) w))
  \/ (validateForm form w = (Ok true, w)
      /\ trim (f_label form) <> EmptyString
      /\ exists n, parseInt (f_duration form) = Some n /\ 1 <= n <= 60).
Proof.
  unfold validateForm.
  destruct (String.eqb (trim (f_label form)) EmptyString) eqn:Hlabel; [now left |].
  destruct (parseInt (f_duration form)) as [n|]; [| now left].
  destruct (n <? 1) eqn:Hlo; [now left |].
  destruct (n >? 60) eqn:Hhi; [now left |].
  right. split; [reflexivity |]. split; [now apply String.eqb_neq |].
  exists n. split; [reflexivity |].
  apply Z.ltb_ge in Hlo. rewrite Z.gtb_ltb in Hhi. apply Z.ltb_ge in Hhi. lia.
Qed.

(** X22. [saveAlarm] never throws, and what it reports is backed by the
    store: a rejected form shows one alert and calls nothing; when the
    alarm is reported created, it is the last stored alarm, active, with
    a pending notification, the trimmed non-empty label of the form and a
    whole duration between 1 and 60; every failure ends with the error
    alert. *)
Theorem saveAlarm_outcome (form : AlarmForm) (w : World) :
  exists outcome w',
    saveAlarm form w = (Ok outcome, w')
    /\ match outcome with
       | Rejected => w' = emit (EvAlert AlertError) w
       | Created a =>
           1 <= a_duration a <= 60
           /\ a_label a = trim (f_label form)
           /\ a_label a <> EmptyString
           /\ a_time a = f_time form
           /\ a_frequency a = f_frequency form
           /\ a_isActive a = true
           /\ (exists alarms, alarmsItem w' = alarms ++ [a])
           /\ (exists h r, a_notificationId a = Some h /\ In (h, r) (scheduled w'))
       | Failed => exists w1, w' = emit (EvAlert AlertError) w1
       end.
Proof.
  unfold saveAlarm, bind at 1.
  destruct (validateForm_run form w) as [-> | (-> & Hlabel & n & Hparse & Hn)].
  { eexists _, _. split; [reflexivity | reflexivity]. }
  cbn [negb]. unfold try_catch, bind at 1. rewrite Hparse.
  change (default 0 (Some n)) with n.
  match goal with
  | |- context [addAlarm ?x w] => destruct (addAlarm x w) as [[a|] w1] eqn:Hadd
  end.
  - apply addAlarm_ok in Hadd
      as (Htime & Hlab & Hfreq & Hdur & Hon & [alarms Hal] & (h & r & Hh & Hin)).
    cbn [i_time i_label i_frequency i_duration] in *. cbv beta iota.
    destruct (f_customRingtone form) as [uri|].
    + unfold bind at 1.
      pose proof (setCustomRingtone_store (a_id a) uri w1) as [Hs1 Hs2].
      destruct (setCustomRingtone (a_id a) uri w1) as [[[]|] w2].
      * eexists _, _. split; [reflexivity |]. simpl in Hs1, Hs2. cbv beta iota.
        rewrite Hdur, Hlab, Hs1, Hs2. repeat split; try assumption; try lia.
        -- now exists alarms.
        -- now exists h, r.
      * eexists _, _. split; [reflexivity |]. now eexists.
    + eexists _, _. split; [reflexivity |]. cbv beta iota.
      rewrite Hdur, Hlab. repeat split; try assumption; try lia.
      * now exists alarms.
      * now exists h, r.
  - eexists _, _. split; [reflexivity |]. now eexists.
Qed.

(** X23. The error alert of [saveAlarm] does not mean that nothing was
    created: when the form is valid and [addAlarm] succeeds but saving the
    custom ringtone throws, the outcome is the failure alert while the new
    alarm stays stored, active, with its notification pending. *)
Theorem saveAlarm_failed_ringtone_keeps_alarm (form : AlarmForm) (n : Z) (uri : string)
    (a : Alarm) (w w1 : World) :
  trim (f_label form) <> EmptyString ->
  parseInt (f_duration form) = Some n ->
  1 <= n <= 60 ->
  f_customRingtone form = Some uri ->
  addAlarm (mkAlarmInput (f_time form) (trim (f_label form)) (f_frequency form) n) w
  = (Ok a, w1) ->
  fst (setCustomRingtone (a_id a) uri w1) = Throw ->
  exists w',
    saveAlarm form w = (Ok Failed, w')
    /\ (exists alarms, alarmsItem w' = alarms ++ [a])
    /\ a_isActive a = true
    /\ (exists h r, a_notificationId a = Some h /\ In (h, r) (scheduled w')).
Proof.
  intros Hlabel Hparse Hn Huri Hadd Hring.
  unfold saveAlarm, bind at 1.
  rewrite (validateForm_true form n w Hlabel Hparse Hn).
  cbn [negb]. unfold try_catch, bind at 1. rewrite Hparse.
  change (default 0 (Some n)) with n. rewrite Hadd, Huri.
  unfold bind at 1.
  pose proof (setCustomRingtone_store (a_id a) uri w1) as [Hs1 Hs2].
  destruct (setCustomRingtone (a_id a) uri w1) as [[[]|] w2]; [discriminate |].
  apply addAlarm_ok in Hadd as (_ & _ & _ & _ & Hon & [alarms Hal] & (h & r & Hh & Hin)).
  eexists. split; [reflexivity |]. simpl in Hs1, Hs2.
  unfold bind, Alert_alert, modify, ret. wsimpl. rewrite Hs1, Hs2.
  split; [now exists alarms |]. split; [exact Hon |]. now exists h, r.
Qed.

Lemma saveAlarm_failed_ringtone_keeps_alarm_witness :
  exists w',
    saveAlarm (mkAlarmForm 9000 " gym " "daily" "10" (Some "file:///ring.mp3"))
              (set_faults [false; false; false; false; false; true] demo_world)
    = (Ok Failed, w')
    /\ (exists alarms,
          alarmsItem w'
          = alarms ++ [mkAlarm "500" 9000 "gym" "daily" 10 true (Some (Nid 1)) 500])
    /\ a_isActive (mkAlarm "500" 9000 "gym" "daily" 10 true (Some (Nid 1)) 500) = true
    /\ (exists h r,
          a_notificationId (mkAlarm "500" 9000 "gym" "daily" 10 true (Some (Nid 1)) 500)
          = Some h
          /\ In (h, r) (scheduled w')).
Proof.
  apply (saveAlarm_failed_ringtone_keeps_alarm
           (mkAlarmForm 9000 " gym " "daily" "10" (Some "file:///ring.mp3")) 10
           "file:///ring.mp3" _
           (set_faults [false; false; false; false; false; true] demo_world)
           (snd (addAlarm (mkAlarmInput 9000 "gym" "daily" 10)
                          (set_faults [false; false; false; false; false; true] demo_world)))).
  - discriminate.
  - reflexivity.
  - lia.
  - reflexivity.
  - reflexivity.
  - reflexivity.
Defined.

(** ** DismissAlarmScreen *)

(** X24. [stopAlarm] never throws and always clears the playing flag, but
    it does not always stop the alarm: when a sound is loaded and pausing
    or unloading it fails, the handler only clears the flag, so the
    vibration is not cancelled and the sound stays loaded; in every other
    case the sound is released and the vibration cancelled. *)
Theorem stopAlarm_failure_keeps_vibrating (s : Session) (w : World) :
  exists s' w',
    stopAlarm s w = (Ok s', w')
    /\ s_isPlaying s' = false
    /\ if s_audioPlayer s && (hd false (faults w) || hd false (tl (faults w)))
       then s_vibrating s' = s_vibrating s /\ s_audioPlayer s' = true /\ s_timer s' = s_timer s
       else s_vibrating s' = false /\ s_audioPlayer s' = false /\ s_timer s' = s_timer s.
Proof.
  unfold stopAlarm, try_catch, bind, Audio.pauseAsync, Audio.unloadAsync, external, ret.
  destruct (s_audioPlayer s) eqn:Hplayer; cbn [andb].
  - destruct (hd false (faults w)); cbn [orb].
    + eexists _, _. split; [reflexivity |]. split; [reflexivity |].
      split; [reflexivity |]. split; [exact Hplayer | reflexivity].
    + wsimpl. destruct (hd false (tl (faults w))).
      * eexists _, _. split; [reflexivity |]. split; [reflexivity |].
        split; [reflexivity |]. split; [exact Hplayer | reflexivity].
      * eexists _, _. split; [reflexivity |]. split; [reflexivity |].
        split; [reflexivity |]. split; reflexivity.
  - eexists _, _. split; [reflexivity |]. split; [reflexivity |].
    split; [reflexivity |]. split; [exact Hplayer | reflexivity].
Qed.

Lemma upperChar_alnum (c : ascii) : isUpperAlnum c = true -> upperChar c = c.
Proof. destruct c as [[] [] [] [] [] [] [] []]; vm_compute; intros H; (reflexivity || discriminate H). Qed.

Lemma isWhiteSpace_alnum (c : ascii) : isUpperAlnum c = true -> isWhiteSpace c = false.
Proof. destruct c as [[] [] [] [] [] [] [] []]; vm_compute; intros H; (reflexivity || discriminate H). Qed.

Lemma toUpperCase_alnum (code : string) :
  forallb isUpperAlnum (list_ascii_of_string code) = true -> toUpperCase code = code.
Proof.
  induction code as [|c code IH]; simpl; [reflexivity |].
  intros H. apply andb_prop in H as [Hc Hrest].
  now rewrite upperChar_alnum, IH.
Qed.

Lemma trimEnd_alnum (code : string) :
  forallb isUpperAlnum (list_ascii_of_string code) = true -> trimEnd code = code.
Proof.
  induction code as [|c code IH]; simpl; [reflexivity |].
  intros H. apply andb_prop in H as [Hc Hrest].
  rewrite IH by exact Hrest. destruct code; [| reflexivity].
  now rewrite isWhiteSpace_alnum.
Qed.

Lemma trim_alnum (code : string) :
  forallb isUpperAlnum (list_ascii_of_string code) = true -> trim code = code.
Proof.
  intros H. unfold trim.
  assert (Hs : trimStart code = code).
  { destruct code as [|c code]; [reflexivity |]. simpl in *.
    apply andb_prop in H as [Hc _]. now rewrite isWhiteSpace_alnum. }
  rewrite Hs. now apply trimEnd_alnum.
Qed.

(** A valid code typed as it is shown passes the comparison of
    [handleSubmit]. *)
Lemma normalize_valid (code : string) :
  isValidCode code = true -> toUpperCase (trim code) = code.
Proof.
  unfold isValidCode. intros H. apply andb_prop in H as [_ H].
  rewrite trim_alnum by exact H. now apply toUpperCase_alnum.
Qed.

Lemma Math_random_faults (w : World) : faults (snd (Math_random w)) = faults w.
Proof. unfold Math_random. destruct (rng w); reflexivity. Qed.

Lemma Math_random_store (w : World) :
  codesItem (snd (Math_random w)) = codesItem w
  /\ alarmsItem (snd (Math_random w)) = alarmsItem w
  /\ log (snd (Math_random w)) = log w.
Proof. unfold Math_random. destruct (rng w); repeat split. Qed.

Section GeneratorFrame.

Variable toString36 : Q -> string.

Lemma generateSecureCode_loop_frame (n : nat) :
  forall (i : Z) (entropy code : string) (w : World),
    let w' := snd (generateSecureCode_loop n i entropy code w) in
    faults w' = faults w /\ codesItem w' = codesItem w
    /\ alarmsItem w' = alarmsItem w /\ log w' = log w.
Proof.
  induction n as [|n IH]; intros i entropy code w; [repeat split |].
  cbv zeta. cbn [generateSecureCode_loop]. unfold bind.
  pose proof (Math_random_faults w) as Hf.
  pose proof (Math_random_store w) as (Hc & Ha & Hl).
  destruct (Math_random w) as [[r|] w1]; cbn [snd] in Hf, Hc, Ha, Hl.
  - match goal with
    | |- context [generateSecureCode_loop n ?i' ?e' ?c' w1] =>
        pose proof (IH i' e' c' w1) as IH'
    end.
    cbv zeta in IH'. destruct IH' as (Hf' & Hc' & Ha' & Hl').
    rewrite Hf', Hc', Ha', Hl'. repeat split; assumption.
  - cbn [snd]. repeat split; assumption.
Qed.

Lemma generateDismissalCode_frame (w : World) :
  let w' := snd (generateDismissalCode toString36 w) in
  faults w' = faults w /\ codesItem w' = codesItem w
  /\ alarmsItem w' = alarmsItem w /\ log w' = log w.
Proof.
  cbv zeta. unfold generateDismissalCode, generateSecureCode, try_catch, bind, Date_now.
  pose proof (Math_random_faults w) as Hf1.
  pose proof (Math_random_store w) as (Hc1 & Ha1 & Hl1).
  destruct (Math_random w) as [[r1|] w1]; cbn [snd] in Hf1, Hc1, Ha1, Hl1;
    [| unfold throw; cbn [snd]; repeat split; assumption].
  pose proof (Math_random_faults w1) as Hf2.
  pose proof (Math_random_store w1) as (Hc2 & Ha2 & Hl2).
  destruct (Math_random w1) as [[r2|] w2]; cbn [snd] in Hf2, Hc2, Ha2, Hl2;
    [| unfold throw; cbn [snd]; repeat split; congruence].
  match goal with
  | |- context [generateSecureCode_loop 8 ?i ?e ?c w2] =>
      pose proof (generateSecureCode_loop_frame 8 i e c w2) as Hloop;
      cbv zeta in Hloop;
      destruct (generateSecureCode_loop 8 i e c w2) as [[code|] w3]
  end; cbn [snd] in Hloop; destruct Hloop as (Hf3 & Hc3 & Ha3 & Hl3).
  - unfold sleep, modify, ret. cbn [snd]. wsimpl. repeat split; congruence.
  - unfold throw. cbn [snd]. repeat split; congruence.
Qed.

End GeneratorFrame.

(** X25. Asking for a new code lifts the attempt cap without touching the
    countdown: without faults, whatever number of attempts the stored
    record has reached, [regenerateCode] stores a record with a fresh
    valid code and [attempts] 0, shows that code with the attempts at 0
    and leaves the vibration, the timer and the time remaining as they
    were; typing the new code then dismisses the alarm. *)
Theorem regenerateCode_lifts_cap (toString36 : Q -> string) (s : Session) (w : World) :
  faults w = [] ->
  rng_ok w ->
  exists s1 w1 codeData record,
    regenerateCode toString36 s w = (Ok s1, w1)
    /\ s_dismissalCodeData s1 = Some codeData
    /\ isValidCode (c_code codeData) = true
    /\ s_attempts s1 = 0
    /\ codesItem w1 !! s_alarmId s = Some record
    /\ c_code record = c_code codeData
    /\ c_attempts record = Some 0
    /\ s_vibrating s1 = s_vibrating s
    /\ s_timer s1 = s_timer s
    /\ s_timeRemaining s1 = s_timeRemaining s
    /\ exists s2 w2,
         handleSubmit (setUserInput (c_code codeData) s1) w1 = (Ok s2, w2)
         /\ reported AlertAlarmDismissed w2 = true
         /\ s_vibrating s2 = false.
Proof.
  intros Hq Hrng.
  destruct (generateDismissalCode_run toString36 w Hrng)
    as (codeData & w0 & Hgen & Hvalid & _ & _).
  pose proof (generateDismissalCode_frame toString36 w) as Hframe.
  cbv zeta in Hframe. rewrite Hgen in Hframe. cbn [snd] in Hframe.
  destruct Hframe as (Hf0 & _ & _ & _). rewrite Hq in Hf0.
  unfold regenerateCode, try_catch, bind at 1, bind at 1.
  cbn [s_alarmId setUserInput setIsGeneratingCode]. rewrite Hgen.
  unfold bind at 1. rewrite saveDismissalCode_quiet by exact Hf0. cbv zeta.
  unfold bind at 1, Alert_alert, modify, ret.
  eexists _, _, codeData, _. split; [reflexivity |].
  split; [reflexivity |]. split; [exact Hvalid |]. split; [reflexivity |].
  split; [wsimpl; apply lookup_insert_eq |].
  split; [reflexivity |]. split; [reflexivity |].
  split; [reflexivity |]. split; [reflexivity |]. split; [reflexivity |].
  match goal with
  | |- context [handleSubmit ?s1 ?w1] =>
      destruct (handleSubmit_match s1 w1
                  (mkCodeData (c_code codeData) (c_timestamp codeData) (c_expiresAt codeData)
                              (Some (clock w0)) (Some 0))
                  codeData) as (w2 & Hsub & Hrep & _)
  end.
  - exact Hf0.
  - wsimpl. apply lookup_insert_eq.
  - simpl. lia.
  - reflexivity.
  - cbn [s_userInput setUserInput]. now apply normalize_valid.
  - eexists _, w2. split; [exact Hsub |]. split; [exact Hrep | reflexivity].
Qed.

Lemma regenerateCode_lifts_cap_witness :
  exists s1 w1 codeData record,
    regenerateCode (fun _ => "0.i") ringing_session
                   (set_rng [1 # 2; 35 # 36]
                      (set_codesItem (<["1" := with_attempts 9 demo_code]> (codesItem demo_world))
                                     demo_world))
    = (Ok s1, w1)
    /\ s_dismissalCodeData s1 = Some codeData
    /\ isValidCode (c_code codeData) = true
    /\ s_attempts s1 = 0
    /\ codesItem w1 !! s_alarmId ringing_session = Some record
    /\ c_code record = c_code codeData
    /\ c_attempts record = Some 0
    /\ s_vibrating s1 = s_vibrating ringing_session
    /\ s_timer s1 = s_timer ringing_session
    /\ s_timeRemaining s1 = s_timeRemaining ringing_session
    /\ exists s2 w2,
         handleSubmit (setUserInput (c_code codeData) s1) w1 = (Ok s2, w2)
         /\ reported AlertAlarmDismissed w2 = true
         /\ s_vibrating s2 = false.
Proof.
  apply (regenerateCode_lifts_cap (fun _ => "0.i")).
  - reflexivity.
  - repeat constructor; discriminate.
Defined.

Lemma getDismissalCode_total (alarmId : string) (w : World) :
  getDismissalCode alarmId w
  = (Ok (if hd false (faults w) then None else codesItem w !! alarmId),
     set_faults (tl (faults w)) w).
Proof.
  unfold getDismissalCode, try_catch, bind. rewrite loadDismissalCodes_run.
  destruct (hd false (faults w)); [now rewrite lookup_empty | reflexivity].
Qed.

Lemma playAlarmSound_quiet (s : Session) (w : World) :
  faults w = [] ->
  playAlarmSound s w
  = (Ok (setIsPlaying true
           (setAudioPlayer true (if s_audioPlayer s then setAudioPlayer false s else s))), w).
Proof.
  intros Hq.
  unfold playAlarmSound, playAudio, getCustomRingtone, try_catch, bind,
    Audio.setAudioModeAsync, Audio.unloadAsync, Audio.createAsync, external, ret.
  destruct w; cbn in Hq; subst. destruct (s_audioPlayer s); reflexivity.
Qed.

(** [playAlarmSound] never throws, and touches only the playing flag and
    the loaded sound. *)
Lemma playAlarmSound_total (s : Session) (w : World) :
  exists s' w',
    playAlarmSound s w = (Ok s', w')
    /\ log w' = log w
    /\ s_dismissalCodeData s' = s_dismissalCodeData s
    /\ s_attempts s' = s_attempts s
    /\ s_vibrating s' = s_vibrating s
    /\ s_timer s' = s_timer s.
Proof.
  unfold playAlarmSound, playAudio, getCustomRingtone, try_catch, bind,
    Audio.setAudioModeAsync, Audio.unloadAsync, Audio.createAsync, external, ret.
  destruct (hd false (faults w)); wsimpl;
    [eexists _, _; split; [reflexivity |]; repeat split |].
  destruct (hd false (tl (faults w))); wsimpl;
    (destruct (s_audioPlayer s); wsimpl;
     [destruct (hd false (tl (tl (faults w)))); wsimpl;
      (destruct (hd false (tl (tl (tl (faults w))))); wsimpl;
       eexists _, _; (split; [reflexivity |]); repeat split)
     | destruct (hd false (tl (tl (faults w)))); wsimpl;
       eexists _, _; (split; [reflexivity |]); repeat split]).
Qed.

(** X26. Opening the dismissal screen again does not reset the attempts
    while the code lasts: without faults, when the stored code of the
    alarm has not expired, [initializeAlarmDismissal] writes nothing and
    generates nothing, shows the stored code with the stored number of
    attempts and starts the vibration and the countdown; the countdown
    starts at the alarm's duration in seconds (5 minutes for a duration
    of 0), or stays as it is when the alarm is not found. *)
Theorem initializeAlarmDismissal_reuses_code (toString36 : Q -> string) (s : Session)
    (record : CodeData) (w : World) :
  faults w = [] ->
  codesItem w !! s_alarmId s = Some record ->
  clock w <= c_expiresAt record ->
  exists s',
    initializeAlarmDismissal toString36 s w = (Ok s', w)
    /\ s_dismissalCodeData s' = Some record
    /\ s_attempts s' = default 0 (c_attempts record)
    /\ s_vibrating s' = true
    /\ s_timer s' = true
    /\ s_isGeneratingCode s' = false
    /\ s_timeRemaining s'
       = match List.find (has_id (s_alarmId s)) (alarmsItem w) with
         | Some a => (if a_duration a =? 0 then 5 else a_duration a) * 60
         | None => s_timeRemaining s
         end.
Proof.
  intros Hq Hrec Hfresh.
  assert (Hhd : hd false (faults w) = false) by now rewrite Hq.
  assert (Hsame : set_faults (tl (faults w)) w = w) by (apply set_faults_same; now rewrite Hq).
  unfold initializeAlarmDismissal, try_catch, bind at 1, bind at 1.
  rewrite getAlarm_total, Hhd, Hsame. cbv zeta.
  unfold bind at 1.
  assert (Hid : forall a, s_alarmId (setTimeRemaining a s) = s_alarmId s) by reflexivity.
  destruct (List.find (has_id (s_alarmId s)) (alarmsItem w)) as [a|];
    cbn [s_alarmId setTimeRemaining setAlarm];
    rewrite getDismissalCode_total, Hhd, Hsame, Hrec;
    unfold bind at 1, Date_now at 1; unfold isCodeExpired;
    (replace (clock w >? c_expiresAt record) with false
       by (symmetry; rewrite Z.gtb_ltb; apply Z.ltb_ge; lia));
    unfold bind at 1, ret at 1; unfold bind at 1;
    rewrite playAlarmSound_quiet by exact Hq;
    eexists; (split; [reflexivity |]);
    repeat split; simpl; destruct (s_audioPlayer s); reflexivity.
Qed.

Lemma initializeAlarmDismissal_reuses_code_witness :
  exists s',
    initializeAlarmDismissal (fun _ => "0.i") (mount "1")
      (set_codesItem (<["1" := with_attempts 9 demo_code]> (codesItem demo_world)) demo_world)
    = (Ok s',
       set_codesItem (<["1" := with_attempts 9 demo_code]> (codesItem demo_world)) demo_world)
    /\ s_dismissalCodeData s' = Some (with_attempts 9 demo_code)
    /\ s_attempts s' = default 0 (c_attempts (with_attempts 9 demo_code))
    /\ s_vibrating s' = true
    /\ s_timer s' = true
    /\ s_isGeneratingCode s' = false
    /\ s_timeRemaining s'
       = match List.find (has_id (s_alarmId (mount "1")))
                 (alarmsItem (set_codesItem (<["1" := with_attempts 9 demo_code]>
                                               (codesItem demo_world)) demo_world)) with
         | Some a => (if a_duration a =? 0 then 5 else a_duration a) * 60
         | None => s_timeRemaining (mount "1")
         end.
Proof.
  apply (initializeAlarmDismissal_reuses_code (fun _ => "0.i") (mount "1")
           (with_attempts 9 demo_code)).
  - reflexivity.
  - reflexivity.
  - vm_compute. discriminate.
Defined.

(** X27. An expired code takes its attempts with it: without faults, when
    the alarm has no stored code or the stored one has expired (however
    many attempts it has counted), [initializeAlarmDismissal] generates a
    valid code, stores it with [attempts] 0 and an expiry 10 minutes
    after its generation, shows it with the attempts at 0 and starts the
    vibration and the countdown. *)
Theorem initializeAlarmDismissal_fresh_code (toString36 : Q -> string) (s : Session)
    (w : World) :
  faults w = [] ->
  rng_ok w ->
  match codesItem w !! s_alarmId s with
  | Some record => c_expiresAt record < clock w
  | None => True
  end ->
  exists s' w' codeData record',
    initializeAlarmDismissal toString36 s w = (Ok s', w')
    /\ s_dismissalCodeData s' = Some codeData
    /\ isValidCode (c_code codeData) = true
    /\ s_attempts s' = 0
    /\ codesItem w' !! s_alarmId s = Some record'
    /\ c_code record' = c_code codeData
    /\ c_attempts record' = Some 0
    /\ c_expiresAt record' = clock w + 1500 + 600000
    /\ s_vibrating s' = true
    /\ s_timer s' = true.
Proof.
  intros Hq Hrng Hold.
  assert (Hhd : hd false (faults w) = false) by now rewrite Hq.
  assert (Hsame : set_faults (tl (faults w)) w = w) by (apply set_faults_same; now rewrite Hq).
  destruct (generateDismissalCode_run toString36 w Hrng)
    as (codeData & w0 & Hgen & Hvalid & Hexp & Hclock).
  pose proof (generateDismissalCode_frame toString36 w) as Hframe.
  cbv zeta in Hframe. rewrite Hgen in Hframe. cbn [snd] in Hframe.
  destruct Hframe as (Hf0 & _ & _ & _). rewrite Hq in Hf0.
  assert (Hts : c_timestamp codeData = clock w0 /\ c_attempts codeData = None).
  { revert Hgen. unfold generateDismissalCode, try_catch, bind, sleep, modify, Date_now, ret.
    destruct (generateSecureCode toString36 w) as [[code|] w1]; [| discriminate].
    intros [= <- <-]. split; reflexivity. }
  destruct Hts as [Hts Hnone].
  assert (Hgenerate :
            (let! c := generateDismissalCode toString36 in
             let! _ := saveDismissalCode (s_alarmId s) c in
             ret c) w
            = (Ok codeData,
               let codes :=
                 <[s_alarmId s := mkCodeData (c_code codeData) (c_timestamp codeData)
                                             (c_expiresAt codeData) (Some (clock w0)) (Some 0)]>
                   (codesItem w0) in
               emit (EvSetItem (VCodes codes)) (set_codesItem codes w0))).
  { unfold bind at 1. rewrite Hgen. unfold bind at 1.
    rewrite saveDismissalCode_quiet by exact Hf0. reflexivity. }
  unfold initializeAlarmDismissal, try_catch, bind at 1, bind at 1.
  rewrite getAlarm_total, Hhd, Hsame. cbv zeta.
  unfold bind at 1.
  destruct (List.find (has_id (s_alarmId s)) (alarmsItem w)) as [a|];
    cbn [s_alarmId setTimeRemaining setAlarm];
    rewrite getDismissalCode_total, Hhd, Hsame;
    unfold bind at 1, Date_now at 1;
    (destruct (codesItem w !! s_alarmId s) as [record|];
     [unfold isCodeExpired;
      replace (clock w >? c_expiresAt record) with true
        by (symmetry; rewrite Z.gtb_ltb; apply Z.ltb_lt; exact Hold) |]);
    unfold bind at 1; rewrite Hgenerate; cbv zeta;
    unfold bind at 1;
    (rewrite playAlarmSound_quiet by (wsimpl; exact Hf0));
    unfold ret;
    eexists _, _, codeData, _; (split; [reflexivity |]);
    (split; [simpl; destruct (s_audioPlayer s); reflexivity |]);
    (split; [exact Hvalid |]);
    (split; [simpl; rewrite Hnone; destruct (s_audioPlayer s); reflexivity |]);
    (split; [wsimpl; apply lookup_insert_eq |]);
    (split; [reflexivity |]); (split; [reflexivity |]);
    (split; [cbn [c_expiresAt]; lia |]);
    split; simpl; destruct (s_audioPlayer s); reflexivity.
Qed.

Lemma initializeAlarmDismissal_fresh_code_witness :
  exists s' w' codeData record',
    initializeAlarmDismissal (fun _ => "0.i") (mount "1")
      (set_clock 700000
         (set_rng [1 # 2; 35 # 36]
            (set_codesItem (<["1" := with_attempts 9 demo_code]> (codesItem demo_world))
                           demo_world)))
    = (Ok s', w')
    /\ s_dismissalCodeData s' = Some codeData
    /\ isValidCode (c_code codeData) = true
    /\ s_attempts s' = 0
    /\ codesItem w' !! s_alarmId (mount "1") = Some record'
    /\ c_code record' = c_code codeData
    /\ c_attempts record' = Some 0
    /\ c_expiresAt record'
       = clock (set_clock 700000
                  (set_rng [1 # 2; 35 # 36]
                     (set_codesItem (<["1" := with_attempts 9 demo_code]> (codesItem demo_world))
                                    demo_world))) + 1500 + 600000
    /\ s_vibrating s' = true
    /\ s_timer s' = true.
Proof.
  apply (initializeAlarmDismissal_fresh_code (fun _ => "0.i") (mount "1")).
  - reflexivity.
  - repeat constructor; discriminate.
  - vm_compute. reflexivity.
Defined.

Lemma incrementCodeAttempts_failed_read (alarmId : string) (w : World) :
  hd false (faults w) = true ->
  incrementCodeAttempts alarmId w = (Ok 0, set_faults (tl (faults w)) w).
Proof.
  intros Hfail. unfold incrementCodeAttempts, try_catch, bind.
  rewrite loadDismissalCodes_run, Hfail. now rewrite lookup_empty.
Qed.

(** X28. The attempt cap fails open: when the read of the code records
    fails on a submission (the calls after it succeeding), the attempt is
    counted as number 0, so that, whatever number of attempts is stored
    (also beyond the cap), the code on the screen dismisses the alarm and
    the attempts shown fall back to 0. *)
Theorem handleSubmit_fails_open (s : Session) (w : World) (codeData : CodeData) :
  hd false (faults w) = true ->
  tl (faults w) = [] ->
  s_dismissalCodeData s = Some codeData ->
  toUpperCase (trim (s_userInput s)) = c_code codeData ->
  exists s' w',
    handleSubmit s w = (Ok s', w')
    /\ reported AlertAlarmDismissed w' = true
    /\ reported AlertMaximumAttemptsExceeded w' = reported AlertMaximumAttemptsExceeded w
    /\ s_attempts s' = 0
    /\ s_vibrating s' = false
    /\ codesItem w' !! s_alarmId s = None.
Proof.
  intros Hfail Hrest Hcode Heq. unfold handleSubmit. unfold bind at 1.
  rewrite incrementCodeAttempts_failed_read by exact Hfail. cbv zeta.
  change (0 >? 5) with false. cbv iota.
  cbn [s_dismissalCodeData setAttempts s_userInput s_alarmId]. rewrite Hcode, Heq.
  rewrite String.eqb_refl.
  assert (Hq : faults (set_faults (tl (faults w)) w) = []) by exact Hrest.
  unfold bind at 1. rewrite stopAlarm_quiet by exact Hq.
  unfold bind at 1. rewrite removeDismissalCode_quiet by exact Hq.
  match goal with
  | |- context [bind ?m _ ?w0] =>
      change m with (deactivate_once (s_alarmId s) (s_alarm (stopped (setAttempts 0 s))));
      destruct (deactivate_once_quiet (s_alarmId s)
                  (s_alarm (stopped (setAttempts 0 s))) w0)
        as (w2 & Hrun & Hq2 & Hcodes2 & Hrep2); [exact Hq |]
  end.
  unfold bind at 1. rewrite Hrun.
  eexists _, _. split; [reflexivity |]. split; [| split; [| split; [| split]]].
  - rewrite reported_emit. simpl. apply orb_true_r.
  - rewrite reported_emit, Hrep2. simpl. rewrite orb_false_r.
    unfold reported. wsimpl. rewrite existsb_app. simpl. now rewrite orb_false_r.
  - simpl. destruct (s_audioPlayer s); reflexivity.
  - reflexivity.
  - wsimpl. rewrite Hcodes2. wsimpl. apply lookup_delete_eq.
Qed.

Lemma handleSubmit_fails_open_witness :
  exists s' w',
    handleSubmit (setUserInput "ab12cd34" ringing_session)
                 (set_faults [true]
                    (set_codesItem (<["1" := with_attempts 9 demo_code]> (codesItem demo_world))
                                   demo_world))
    = (Ok s', w')
    /\ reported AlertAlarmDismissed w' = true
    /\ reported AlertMaximumAttemptsExceeded w'
       = reported AlertMaximumAttemptsExceeded
           (set_faults [true]
              (set_codesItem (<["1" := with_attempts 9 demo_code]> (codesItem demo_world))
                             demo_world))
    /\ s_attempts s' = 0
    /\ s_vibrating s' = false
    /\ codesItem w' !! s_alarmId (setUserInput "ab12cd34" ringing_session) = None.
Proof.
  apply (handleSubmit_fails_open (setUserInput "ab12cd34" ringing_session) _ demo_code).
  - reflexivity.
  - reflexivity.
  - reflexivity.
  - reflexivity.
Defined.

(** X29. What a correct code does to the alarm depends on the frequency
    the screen has loaded. Without faults and within the cap: for a
    one-time alarm with a schedule handle the pending notification of that
    handle is cancelled and every stored alarm with the id of the session
    is switched off and loses its handle, the other alarms being left as
    they are; for any other frequency the stored alarms and the pending
    notifications are not touched at all. *)
Theorem handleSubmit_success_policy (s : Session) (w : World) (record codeData : CodeData)
    (alarm : Alarm) :
  faults w = [] ->
  codesItem w !! s_alarmId s = Some record ->
  next_attempt record <= 5 ->
  s_dismissalCodeData s = Some codeData ->
  toUpperCase (trim (s_userInput s)) = c_code codeData ->
  s_alarm s = Some alarm ->
  exists s' w',
    handleSubmit s w = (Ok s', w')
    /\ reported AlertAlarmDismissed w' = true
    /\ if String.eqb (a_frequency alarm) "once" then
         alarmsItem w'
         = List.map (fun x => if has_id (s_alarmId s) x
                              then set_notificationId None (set_isActive false x)
                              else x)
                    (alarmsItem w)
         /\ scheduled w'
            = match a_notificationId alarm with
              | Some h => filter (fun p => negb (nid_eqb (fst p) h)) (scheduled w)
              | None => scheduled w
              end
       else alarmsItem w' = alarmsItem w /\ scheduled w' = scheduled w.
Proof.
  intros Hq Hrec Hcap Hcode Heq Halarm. unfold next_attempt in Hcap.
  unfold handleSubmit. unfold bind at 1.
  rewrite (incrementCodeAttempts_quiet _ record) by assumption. cbv zeta.
  destruct (Z.gtb_spec (default 0 (c_attempts record) + 1) 5) as [Hgt | _]; [lia |].
  cbn [s_dismissalCodeData setAttempts s_userInput s_alarmId]. rewrite Hcode, Heq.
  rewrite String.eqb_refl.
  unfold bind at 1. rewrite stopAlarm_quiet by exact Hq.
  unfold bind at 1. rewrite removeDismissalCode_quiet by exact Hq.
  assert (Hloaded : s_alarm (stopped (setAttempts (default 0 (c_attempts record) + 1) s))
                    = Some alarm).
  { unfold stopped. simpl. destruct (s_audioPlayer s); exact Halarm. }
  rewrite Hloaded.
  destruct (String.eqb (a_frequency alarm) "once").
  - unfold bind at 1, bind at 1.
    destruct (a_notificationId alarm) as [h|].
    + rewrite cancelAlarm_quiet by exact Hq.
      rewrite updateAlarm_quiet by exact Hq. cbv zeta.
      eexists _, _. split; [reflexivity |].
      split; [rewrite reported_emit; simpl; apply orb_true_r |].
      unfold after_cancel. wsimpl. split; [| reflexivity].
      apply map_ext. intros x. destruct (has_id (s_alarmId s) x); reflexivity.
    + unfold ret at 1. rewrite updateAlarm_quiet by exact Hq. cbv zeta.
      eexists _, _. split; [reflexivity |].
      split; [rewrite reported_emit; simpl; apply orb_true_r |].
      wsimpl. split; [| reflexivity].
      apply map_ext. intros x. destruct (has_id (s_alarmId s) x); reflexivity.
  - unfold bind at 1, ret at 1.
    eexists _, _. split; [reflexivity |].
    split; [rewrite reported_emit; simpl; apply orb_true_r |].
    split; reflexivity.
Qed.

Lemma handleSubmit_success_policy_witness :
  exists s' w',
    handleSubmit (setUserInput " ab12cd34 " weekly_last_second) weekly_world = (Ok s', w')
    /\ reported AlertAlarmDismissed w' = true
    /\ if String.eqb (a_frequency weekly_alarm) "once" then
         alarmsItem w'
         = List.map (fun x => if has_id (s_alarmId (setUserInput " ab12cd34 " weekly_last_second)) x
                              then set_notificationId None (set_isActive false x)
                              else x)
                    (alarmsItem weekly_world)
         /\ scheduled w'
            = match a_notificationId weekly_alarm with
              | Some h => filter (fun p => negb (nid_eqb (fst p) h)) (scheduled weekly_world)
              | None => scheduled weekly_world
              end
       else alarmsItem w' = alarmsItem weekly_world /\ scheduled w' = scheduled weekly_world.
Proof.
  apply (handleSubmit_success_policy (setUserInput " ab12cd34 " weekly_last_second)
           weekly_world demo_code demo_code weekly_alarm).
  - reflexivity.
  - reflexivity.
  - vm_compute. discriminate.
  - reflexivity.
  - reflexivity.
  - reflexivity.
Defined.


